(** * The per-connection robot controller of the TCP server

    A shallow embedding of [ClientController] from [src/main.cpp]: the framed
    message reader and writer, the recharging wrapper, the authentication
    handshake, heading inference, rotation, navigation and the sweep of the
    patch around the target.

    Conventions.
    - A [std::string] is a [list ascii]; [push_back] is [++ [c]].
    - [uint16_t] arithmetic is arithmetic on [Z] reduced by [uint16];
      [int] arithmetic is reduced by [int] (two's complement, 32 bits).
    - What C++ leaves to the implementation is a parameter, [Platform].
    - The controller is a state-and-exception monad [M] over the record
      [ClientController], which also carries the socket as the controller
      sees it: the results of the coming [read] calls, the bytes written so
      far, the receive timeout set by [setsockopt] and the behaviour of
      [send]. Console output is not modelled.
    - Recursive member functions and the two [while] loops of
      [handleClientConnection] take a [fuel] argument, the number of nested
      calls and of loop rounds that a run may make. [readMsg], [moveRobot]
      and [rotateTo] call themselves with their locals still alive, so that
      in the program the bound on nested calls is the call stack, whose
      exhaustion kills the process. [Hang] is the outcome of a run that does
      not end by a return or an exception: its fuel is exhausted, or a read
      blocks for ever. Fuel above the number of reads still to come is
      never exhausted ([handleClientConnection_ends]).
    - A [send] that fails is a [send] that returns -1. A [send] that raises
      SIGPIPE, which with the default disposition kills the process, is not
      modelled; what is stated for a controller whose sends may fail is
      stated for sends that return. *)

From Stdlib Require Import ZArith String Ascii DecimalString DecimalFacts DecimalN List
  Permutation Bool Lia.
Import ListNotations.
Local Open Scope Z_scope.

(** ** Machine integers and characters *)

Definition uint16 (z : Z) : Z := z mod 65536.

Definition INT_MAX : Z := 2147483647.

Definition int (z : Z) : Z := (z + 2147483648) mod 4294967296 - 2147483648.

(** What the C++ implementation leaves open: whether plain [char] is signed,
    and the contents of locals that are read before they are written
    ([char buffer] in [readFromSocket], [int y] in [updatePosition]). *)
Class Platform : Type := {
  char_is_signed : bool;
  indeterminate_char : ascii;
  indeterminate_int : Z
}.

(** The System V x86-64 ABI: plain [char] is signed. *)
Definition x86_64_linux : Platform :=
  {| char_is_signed := true; indeterminate_char := zero; indeterminate_int := 0 |}.

(** The AArch64 procedure call standard: plain [char] is unsigned. *)
Definition aarch64_linux : Platform :=
  {| char_is_signed := false; indeterminate_char := zero; indeterminate_int := 0 |}.

Definition byte_value (c : ascii) : Z := Z.of_N (N_of_ascii c).

(** The value of a [char] after integral promotion. *)
Definition char_value `{Platform} (c : ascii) : Z :=
  if char_is_signed && (128 <=? byte_value c) then byte_value c - 256
  else byte_value c.

Definition str (s : string) : list ascii := list_ascii_of_string s.

(** ** Constants of the protocol *)

Definition SERVER_KEY : Z := 54621.
Definition CLIENT_KEY : Z := 45328.

Definition TIMEOUT : Z := 1.
Definition TIMEOUT_RECHARGING : Z := 5.

Definition TERMINATING_FIRST_CHAR : ascii := "007"%char.
Definition TERMINATING_SECOND_CHAR : ascii := "008"%char.
Definition TERMINATING_SEQUENCE_LENGTH : Z := 2.

Definition SERVER_MOVE := str "102 MOVE".
Definition SERVER_TURN_LEFT := str "103 TURN LEFT".
Definition SERVER_TURN_RIGHT := str "104 TURN RIGHT".
Definition SERVER_PICK_UP := str "105 GET MESSAGE".
Definition SERVER_LOGOUT := str "106 LOGOUT".
Definition SERVER_OK := str "200 OK".
Definition SERVER_LOGIN_FAILED := str "300 LOGIN FAILED".
Definition SERVER_SYNTAX_ERROR := str "301 SYNTAX ERROR".
Definition SERVER_LOGIC_ERROR := str "302 LOGIC ERROR".

Definition CLIENT_USERNAME_LENGTH : Z := 10.
Definition CLIENT_CONFIRMATION_LENGTH : Z := 10.
Definition CLIENT_OK_LENGTH : Z := 10.
Definition CLIENT_RECHARGING := str "RECHARGING".
Definition CLIENT_FULL_POWER := str "FULL POWER".
Definition CLIENT_FULL_POWER_LENGTH : Z := 10.
Definition CLIENT_MESSAGE_LENGTH : Z := 98.

Definition TARGET_X : Z := -2.
Definition TARGET_Y : Z := 2.

(** ** Data *)

Inductive Direction : Set := UNKNOWN | UP | RIGHT | DOWN | LEFT.

Definition Direction_value (d : Direction) : Z :=
  match d with UNKNOWN => 0 | UP => 1 | RIGHT => 2 | DOWN => 3 | LEFT => 4 end.

Record Position : Set := { x : Z; y : Z }.

Inductive ReadMessageState : Set :=
| OPEN  (* last char was normal character *)
| CLOSE (* last char was first terminating character *).

(** One coming [read(sockfd, &buffer, 1)] as the socket will answer it. *)
Inductive event : Set :=
| Arrive (wait : Z) (c : ascii) (* a byte, available [wait] seconds after the call *)
| Eof                           (* the peer has shut down: [read] returns 0 *)
| Failed                        (* [read] returns -1 for another reason *).

Record ClientController : Type := {
  sock_in : list event;        (* the coming reads *)
  sock_out : list ascii;       (* every byte handed to [send] so far *)
  rcvtimeo : Z;                (* SO_RCVTIMEO in seconds, 0 = block for ever *)
  send_budget : option nat;    (* [Some k]: the (k+1)-th [send] from now returns -1 *)
  position : Position;
  direction : Direction
}.

Definition with_in (i : list event) (c : ClientController) : ClientController :=
  {| sock_in := i; sock_out := sock_out c; rcvtimeo := rcvtimeo c;
     send_budget := send_budget c; position := position c; direction := direction c |}.

Definition with_rcvtimeo (t : Z) (c : ClientController) : ClientController :=
  {| sock_in := sock_in c; sock_out := sock_out c; rcvtimeo := t;
     send_budget := send_budget c; position := position c; direction := direction c |}.

Definition with_position (p : Position) (c : ClientController) : ClientController :=
  {| sock_in := sock_in c; sock_out := sock_out c; rcvtimeo := rcvtimeo c;
     send_budget := send_budget c; position := p; direction := direction c |}.

Definition with_direction (d : Direction) (c : ClientController) : ClientController :=
  {| sock_in := sock_in c; sock_out := sock_out c; rcvtimeo := rcvtimeo c;
     send_budget := send_budget c; position := position c; direction := d |}.

Definition sent (bs : list ascii) (b : option nat) (c : ClientController) : ClientController :=
  {| sock_in := sock_in c; sock_out := sock_out c ++ bs; rcvtimeo := rcvtimeo c;
     send_budget := b; position := position c; direction := direction c |}.

(** The controller of a freshly accepted connection: [position{}] is
    (0, 0), [direction = UNKNOWN], nothing written, no receive timeout yet. *)
Definition accepted (input : list event) (budget : option nat) : ClientController :=
  {| sock_in := input; sock_out := []; rcvtimeo := 0; send_budget := budget;
     position := {| x := 0; y := 0 |}; direction := UNKNOWN |}.

(** ** Exceptions and the controller monad *)

Inductive exn : Set :=
| runtime_error (what : string)
| logic_error (what : string)
| invalid_argument (what : string)   (* derives from std::logic_error *)
| out_of_range (what : string)       (* derives from std::logic_error *).

Inductive result (A : Type) : Type :=
| Ret (a : A)
| Throw (e : exn)
| Hang  (* no return and no exception: fuel exhausted, or a read that blocks *).
Arguments Ret {A} a.
Arguments Throw {A} e.
Arguments Hang {A}.

Definition M (A : Type) : Type := ClientController -> result A * ClientController.

Definition ret {A} (a : A) : M A := fun c => (Ret a, c).
Definition throw {A} (e : exn) : M A := fun c => (Throw e, c).
Definition hang {A} : M A := fun c => (Hang, c).

Definition bind {A B} (m : M A) (k : A -> M B) : M B := fun c =>
  match m c with
  | (Ret a, c') => k a c'
  | (Throw e, c') => (Throw e, c')
  | (Hang, c') => (Hang, c')
  end.

Notation "v <- m ;; k" := (bind m (fun v => k))
  (at level 61, m at next level, right associativity).
Notation "m ;;; k" := (bind m (fun _ => k))
  (at level 61, right associativity).

Definition get_position : M Position := fun c => (Ret (position c), c).
Definition get_direction : M Direction := fun c => (Ret (direction c), c).
Definition set_position (p : Position) : M unit := fun c => (Ret tt, with_position p c).
Definition set_direction (d : Direction) : M unit := fun c => (Ret tt, with_direction d c).

Definition str_eq_dec : forall a b : list ascii, {a = b} + {a <> b} :=
  list_eq_dec ascii_dec.

(** ** The frame writer *)

Definition wire (msg : list ascii) : list ascii :=
  msg ++ [TERMINATING_FIRST_CHAR; TERMINATING_SECOND_CHAR].

(** [send] returns the number of bytes or -1; a [send] that raises SIGPIPE
    is outside the model. *)
Definition sendResponse (msg : list ascii) : M unit := fun c =>
  let response := wire msg in
  match send_budget c with
  | Some O => (Throw (runtime_error "Error sending response."), c)
  | Some (S k) => (Ret tt, sent response (Some k) c)
  | None => (Ret tt, sent response None c)
  end.

(** ** The frame reader *)

(** The locals of [readFromSocket]. *)
Record read_vars : Set := {
  message : list ascii;
  buffer : ascii;
  msgLength : Z;
  state : ReadMessageState;
  messageDone : bool
}.

Inductive read_exit : Set :=
| Complete (message : list ascii)  (* the loop ended with [messageDone] *)
| OutOfBounds                      (* 301, then "Message size out of bounds" *)
| TimeoutFired                     (* "Timeout fired" *)
| Blocked                          (* the read never returns *).

(** One [read]: [None] when it returns -1, otherwise the contents of
    [buffer] afterwards (untouched when it returns 0). *)
Definition sys_read (tmo : Z) (buffer : ascii) (e : event) : option ascii :=
  match e with
  | Arrive wait c => if (tmo =? 0) || (wait <? tmo) then Some c else None
  | Eof => Some buffer
  | Failed => None
  end.

(** What is left to read after the call. *)
Definition unread (tmo : Z) (e : event) (rest : list event) : list event :=
  match e with
  | Arrive wait c => if (tmo =? 0) || (wait <? tmo) then rest else Arrive (wait - tmo) c :: rest
  | _ => rest
  end.

Definition is_open (s : ReadMessageState) : bool :=
  match s with OPEN => true | CLOSE => false end.

(** The check that precedes the test of [readSize]. *)
Definition exceeds (maxMsgSize msgLength : Z) : bool :=
  int (maxMsgSize + TERMINATING_SEQUENCE_LENGTH) <? msgLength.

(** The [switch (buffer)]. *)
Definition switch_buffer (b : ascii) (msgLength : Z) (v : read_vars) : read_vars :=
  if (b =? TERMINATING_FIRST_CHAR)%char then
    match state v with
    | OPEN =>
        {| message := message v; buffer := b; msgLength := msgLength;
           state := CLOSE; messageDone := messageDone v |}
    | CLOSE =>
        {| message := message v ++ [TERMINATING_FIRST_CHAR]; buffer := b;
           msgLength := msgLength; state := CLOSE; messageDone := messageDone v |}
    end
  else if (b =? TERMINATING_SECOND_CHAR)%char then
    match state v with
    | OPEN =>
        {| message := message v ++ [TERMINATING_SECOND_CHAR]; buffer := b;
           msgLength := msgLength; state := OPEN; messageDone := messageDone v |}
    | CLOSE =>
        {| message := message v; buffer := b; msgLength := msgLength;
           state := CLOSE; messageDone := true |}
    end
  else
    match state v with
    | CLOSE =>
        {| message := (message v ++ [TERMINATING_FIRST_CHAR]) ++ [b]; buffer := b;
           msgLength := msgLength; state := OPEN; messageDone := messageDone v |}
    | OPEN =>
        {| message := message v ++ [b]; buffer := b; msgLength := msgLength;
           state := OPEN; messageDone := messageDone v |}
    end.

(** The check that follows the [switch]. *)
Definition overflows (maxMsgSize : Z) (v : read_vars) : bool :=
  ((int (maxMsgSize + 1) =? msgLength v) && is_open (state v))
  || ((int (maxMsgSize + 2) =? msgLength v) && negb (messageDone v)).

(** The [while (!messageDone)] loop, one [read] per iteration. *)
Fixpoint read_loop (maxMsgSize tmo : Z) (evs : list event) (v : read_vars)
  : read_exit * list event :=
  match evs with
  | [] =>
      if tmo =? 0 then (Blocked, [])
      else if exceeds maxMsgSize (uint16 (msgLength v + 1)) then (OutOfBounds, [])
      else (TimeoutFired, [])
  | e :: rest =>
      let readSize := sys_read tmo (buffer v) e in
      let msgLength := uint16 (msgLength v + 1) in
      if exceeds maxMsgSize msgLength then (OutOfBounds, unread tmo e rest)
      else match readSize with
           | None => (TimeoutFired, unread tmo e rest)
           | Some b =>
               let v' := switch_buffer b msgLength v in
               if overflows maxMsgSize v' then (OutOfBounds, rest)
               else if messageDone v' then (Complete (message v'), rest)
               else read_loop maxMsgSize tmo rest v'
           end
  end.

Definition read_start `{Platform} : read_vars :=
  {| message := []; buffer := indeterminate_char; msgLength := 0;
     state := OPEN; messageDone := false |}.

Definition readFromSocket `{Platform} (maxMsgSize : Z) : M (list ascii) := fun c =>
  match read_loop maxMsgSize (rcvtimeo c) (sock_in c) read_start with
  | (Complete message, rest) => (Ret message, with_in rest c)
  | (OutOfBounds, rest) =>
      (sendResponse SERVER_SYNTAX_ERROR ;;;
       throw (runtime_error "Message size out of bounds")) (with_in rest c)
  | (TimeoutFired, rest) => (Throw (runtime_error "Timeout fired"), with_in rest c)
  | (Blocked, rest) => (Hang, with_in rest c)
  end.

Definition readFromSocketWithWait `{Platform} (maxMsgSize timeout : Z) : M (list ascii) :=
  fun c => readFromSocket maxMsgSize (with_rcvtimeo timeout c).

(** [return readMsg(maxMsgSize)] is a nested call, made while the local
    [message] is alive: [fuel] bounds the nesting. *)
Fixpoint readMsg `{Platform} (fuel : nat) (maxMsgSize : Z) : M (list ascii) :=
  match fuel with
  | O => hang
  | S fuel' =>
      message <- readFromSocketWithWait maxMsgSize TIMEOUT ;;
      if str_eq_dec message CLIENT_RECHARGING then
        message <- readFromSocketWithWait CLIENT_FULL_POWER_LENGTH TIMEOUT_RECHARGING ;;
        if str_eq_dec message CLIENT_FULL_POWER then
          (* try again *)
          readMsg fuel' maxMsgSize
        else
          sendResponse SERVER_LOGIC_ERROR ;;;
          throw (runtime_error "Expected full power message.")
      else ret message
  end.

(** ** The handshake *)

Definition computeHash `{Platform} (key : Z) (value : list ascii) : Z :=
  let result := fold_left (fun result it => uint16 (result + char_value it)) value 0 in
  let result := uint16 (result * 1000) in
  uint16 (result + key).

Definition isdigit (c : Z) : bool := (48 <=? c) && (c <=? 57).

Definition isspace (c : Z) : bool := (c =? 32) || ((9 <=? c) && (c <=? 13)).

Fixpoint skipws `{Platform} (s : list ascii) : list ascii :=
  match s with
  | c :: s' => if isspace (char_value c) then skipws s' else s
  | [] => []
  end.

(** The longest run of decimal digits at the front, and what follows it. *)
Fixpoint span_digits `{Platform} (s : list ascii) : list ascii * list ascii :=
  match s with
  | c :: s' =>
      if isdigit (char_value c)
      then let (ds, rest) := span_digits s' in (c :: ds, rest)
      else ([], s)
  | [] => ([], [])
  end.

Definition decimal (ds : list ascii) : Z :=
  fold_left (fun n c => n * 10 + (byte_value c - 48)) ds 0.

Definition signed (s : list ascii) : bool * list ascii :=
  match s with
  | c :: s' =>
      if (c =? "-")%char then (true, s')
      else if (c =? "+")%char then (false, s')
      else (false, s)
  | [] => (false, [])
  end.

(** [std::stoi]: leading white space, an optional sign, decimal digits. *)
Definition stoi `{Platform} (s : list ascii) : M Z :=
  let (negative, s1) := signed (skipws s) in
  let (ds, _) := span_digits s1 in
  match ds with
  | [] => throw (invalid_argument "stoi")
  | _ =>
      let n := if negative then - decimal ds else decimal ds in
      if (n <? - INT_MAX - 1) || (INT_MAX <? n) then throw (out_of_range "stoi")
      else ret n
  end.

(** [std::to_string] of an [int]. *)
Definition to_string (n : Z) : list ascii :=
  if n <? 0 then "-"%char :: str (NilZero.string_of_uint (N.to_uint (Z.to_N (- n))))
  else str (NilZero.string_of_uint (N.to_uint (Z.to_N n))).

(** [for (char c: clientHash) if (!::isdigit(c)) { ... }] *)
Fixpoint reject_non_digit `{Platform} (s : list ascii) : M unit :=
  match s with
  | [] => ret tt
  | c :: s' =>
      if negb (isdigit (char_value c)) then
        sendResponse SERVER_SYNTAX_ERROR ;;;
        throw (runtime_error "Authentication failed.")
      else reject_non_digit s'
  end.

(** The second half of [authenticate], from the read of [clientHash] on:
    the confirmation of the client. *)
Definition confirm `{Platform} (fuel : nat) (userName : list ascii) : M unit :=
  clientHash <- readMsg fuel CLIENT_CONFIRMATION_LENGTH ;;
  if 5 <? Z.of_nat (length clientHash) then
    sendResponse SERVER_SYNTAX_ERROR ;;;
    throw (runtime_error "Authentication failed.")
  else
    reject_non_digit clientHash ;;;
    n <- stoi clientHash ;;
    let clientHashValue := uint16 n in
    if negb (clientHashValue =? computeHash CLIENT_KEY userName) then
      sendResponse SERVER_LOGIN_FAILED ;;;
      throw (runtime_error "Authentication failed.")
    else
      sendResponse SERVER_OK.

Definition authenticate `{Platform} (fuel : nat) : M unit :=
  userName <- readMsg fuel CLIENT_USERNAME_LENGTH ;;
  let serverHash := to_string (computeHash SERVER_KEY userName) in
  sendResponse serverHash ;;;
  confirm fuel userName.

(** ** Position confirmations

    [updatePosition] parses with a [std::stringstream]; only the part of a
    stream that the three extractions use is modelled: the characters still
    to read, [eofbit] and [failbit]. *)

Record stringstream : Set := {
  rdbuf : list ascii;
  eofbit : bool;
  failbit : bool
}.

Definition at_end (s : list ascii) : bool :=
  match s with [] => true | _ => false end.

(** The sentry of a formatted extraction: it fails on a stream that is not
    good, and otherwise skips white space, failing at the end of input. *)
Definition sentry `{Platform} (ss : stringstream) : bool * stringstream :=
  if eofbit ss || failbit ss then
    (false, {| rdbuf := rdbuf ss; eofbit := eofbit ss; failbit := true |})
  else
    match skipws (rdbuf ss) with
    | [] => (false, {| rdbuf := []; eofbit := true; failbit := true |})
    | s => (true, {| rdbuf := s; eofbit := false; failbit := false |})
    end.

(** The characters up to the next white space, and what follows them. *)
Fixpoint span_word `{Platform} (s : list ascii) : list ascii * list ascii :=
  match s with
  | c :: s' =>
      if isspace (char_value c) then ([], s)
      else let (w, rest) := span_word s' in (c :: w, rest)
  | [] => ([], [])
  end.

(** [ss >> type] for a [std::string]; [old] is the value before the call. *)
Definition extract_string `{Platform} (ss : stringstream) (old : list ascii)
  : list ascii * stringstream :=
  let (ok, ss) := sentry ss in
  if ok then
    let (w, rest) := span_word (rdbuf ss) in
    (w, {| rdbuf := rest; eofbit := at_end rest; failbit := false |})
  else (old, ss).

(** [ss >> n] for an [int]; [old] is the value before the call. A field that
    is no number stores 0, one that does not fit stores the nearest bound. *)
Definition extract_int `{Platform} (ss : stringstream) (old : Z) : Z * stringstream :=
  let (ok, ss) := sentry ss in
  if ok then
    let (negative, s1) := signed (rdbuf ss) in
    let (ds, rest) := span_digits s1 in
    match ds with
    | [] => (0, {| rdbuf := rest; eofbit := at_end rest; failbit := true |})
    | _ =>
        let n := if negative then - decimal ds else decimal ds in
        if n <? - INT_MAX - 1 then
          (- INT_MAX - 1, {| rdbuf := rest; eofbit := at_end rest; failbit := true |})
        else if INT_MAX <? n then
          (INT_MAX, {| rdbuf := rest; eofbit := at_end rest; failbit := true |})
        else (n, {| rdbuf := rest; eofbit := at_end rest; failbit := false |})
    end
  else (old, ss).

(** The three extractions of [updatePosition]; [None] when [fail] is set. *)
Definition parse_confirmation `{Platform} (message : list ascii) : option Position :=
  let ss := {| rdbuf := message; eofbit := false; failbit := false |} in
  let (type, ss) := extract_string ss [] in
  let fail := eofbit ss || (if str_eq_dec type (str "OK") then false else true) in
  let (px, ss) := extract_int ss indeterminate_int in
  let fail := fail || eofbit ss in
  let (py, ss) := extract_int ss indeterminate_int in
  let fail := fail || negb (eofbit ss) in
  if fail then None else Some {| x := px; y := py |}.

Definition updatePosition `{Platform} (message : list ascii) : M unit :=
  match parse_confirmation message with
  | None =>
      sendResponse SERVER_SYNTAX_ERROR ;;;
      throw (runtime_error "Confirm message not valid.")
  | Some p => set_position p
  end.

(** ** Moving and turning *)

Definition positionEquals (target : Position) : M bool := fun c =>
  (Ret ((x (position c) =? x target) && (y (position c) =? y target)), c).

(** The call of [moveRobot] from itself is a nested call, made while the
    local [pos] is alive: [fuel] bounds the nesting. *)
Fixpoint moveRobot `{Platform} (fuel : nat) : M unit :=
  match fuel with
  | O => hang
  | S fuel' =>
      lastPosition <- get_position ;;
      sendResponse SERVER_MOVE ;;;
      pos <- readMsg (S fuel') CLIENT_OK_LENGTH ;;
      updatePosition pos ;;;
      same <- positionEquals lastPosition ;;
      if same then moveRobot fuel' else ret tt
  end.

Definition rotateLeft `{Platform} (fuel : nat) : M unit :=
  sendResponse SERVER_TURN_LEFT ;;;
  pos <- readMsg fuel CLIENT_OK_LENGTH ;;
  updatePosition pos ;;;
  d <- get_direction ;;
  match d with
  | UP => set_direction LEFT
  | RIGHT => set_direction UP
  | DOWN => set_direction RIGHT
  | LEFT => set_direction DOWN
  | UNKNOWN => ret tt
  end.

Definition rotateRight `{Platform} (fuel : nat) : M unit :=
  sendResponse SERVER_TURN_RIGHT ;;;
  pos <- readMsg fuel CLIENT_OK_LENGTH ;;
  updatePosition pos ;;;
  d <- get_direction ;;
  match d with
  | UP => set_direction RIGHT
  | RIGHT => set_direction DOWN
  | DOWN => set_direction LEFT
  | LEFT => set_direction UP
  | UNKNOWN => ret tt
  end.

Definition Direction_eq_dec : forall a b : Direction, {a = b} + {a <> b}.
Proof. decide equality. Defined.

(** The call of [rotateTo] from itself is a nested call: [fuel] bounds the
    nesting. *)
Fixpoint rotateTo `{Platform} (fuel : nat) (to : Direction) : M unit :=
  match fuel with
  | O => hang
  | S fuel' =>
      d <- get_direction ;;
      if Direction_eq_dec d to then ret tt
      else
        let next := int (Direction_value to - Direction_value d) in
        (if 0 <? next then rotateRight (S fuel') else rotateLeft (S fuel')) ;;;
        rotateTo fuel' to
  end.

Definition getPosition `{Platform} (fuel : nat) : M unit := moveRobot fuel.

Definition updateDirection (lastPosition newPosition : Position) : M unit :=
  if x lastPosition =? x newPosition then
    if y lastPosition <? y newPosition then set_direction UP
    else set_direction DOWN
  else if y lastPosition =? y newPosition then
    if x lastPosition <? x newPosition then set_direction RIGHT
    else set_direction LEFT
  else throw (logic_error "Same position in updateDirection").

Definition getDirection `{Platform} (fuel : nat) : M unit :=
  lastPosition <- get_position ;;
  moveRobot fuel ;;;
  newPosition <- get_position ;;
  updateDirection lastPosition newPosition.

Definition navigate `{Platform} (fuel : nat) (target : Position) : M unit :=
  p <- get_position ;;
  if 0 <? int (y p - y target) then
    rotateTo fuel DOWN ;;; moveRobot fuel
  else if int (y p - y target) <? 0 then
    rotateTo fuel UP ;;; moveRobot fuel
  else if int (x p - x target) <? 0 then
    rotateTo fuel RIGHT ;;; moveRobot fuel
  else
    rotateTo fuel LEFT ;;; moveRobot fuel.

Definition pickSecretMsg `{Platform} (fuel : nat) : M bool :=
  sendResponse SERVER_PICK_UP ;;;
  secretMsg <- readMsg fuel CLIENT_MESSAGE_LENGTH ;;
  ret (negb (at_end secretMsg)).

(** ** The session *)

(** The body of the sweep loop up to [navigate]: the step of the current
    cell, then the cell of the next step. *)
Definition next_target (p : Position) : Position :=
  let sx := Z.rem (int (x p - TARGET_X)) 5 in
  let sy := int (int (y p - TARGET_Y) * -1) in
  let step := int (sy * 5) in
  let step := int (step + (if Z.rem sy 2 =? 0 then sx else int (4 - sx))) in
  let step := int (step + 1) in
  {| x := if Z.rem (Z.quot step 5) 2 =? 0
          then int (Z.rem step 5 + TARGET_X)
          else int (int (4 - Z.rem step 5) + TARGET_X);
     y := int (TARGET_Y - Z.quot step 5) |}.

(** [while (!positionEquals(target)) navigate(target);] *)
Fixpoint approach `{Platform} (fuel : nat) (target : Position) : M unit :=
  match fuel with
  | O => hang
  | S fuel' =>
      there <- positionEquals target ;;
      if there then ret tt
      else navigate (S fuel') target ;;; approach fuel' target
  end.

(** [while (!pickSecretMsg()) { ...; navigate(target); }] *)
Fixpoint sweep `{Platform} (fuel : nat) : M unit :=
  match fuel with
  | O => hang
  | S fuel' =>
      found <- pickSecretMsg (S fuel') ;;
      if found then ret tt
      else
        p <- get_position ;;
        navigate (S fuel') (next_target p) ;;;
        sweep fuel'
  end.

(** The [try] block of [handleClientConnection]. *)
Definition session `{Platform} (fuel : nat) : M unit :=
  let target := {| x := TARGET_X; y := TARGET_Y |} in
  authenticate fuel ;;;
  getPosition fuel ;;;
  there <- positionEquals target ;;
  (if negb there then getDirection fuel ;;; approach fuel target else ret tt) ;;;
  sweep fuel ;;;
  (* secret was found *)
  sendResponse SERVER_LOGOUT.

(** The handler catches [std::runtime_error] only; every other exception
    leaves [handleClientConnection]. *)
Definition handleClientConnection `{Platform} (fuel : nat) : M unit := fun c =>
  match session fuel c with
  | (Throw (runtime_error what), c') => (Ret tt, c')
  | r => r
  end.

(** ** Clients *)

(** The bytes [bs], each arriving [wait] seconds after the read that takes it. *)
Definition arriving (wait : Z) (bs : list ascii) : list event := map (Arrive wait) bs.

(** A client that sends the given frames without delay. *)
Definition frames (msgs : list string) : list event :=
  arriving 0 (concat (map (fun m => wire (str m)) msgs)).

(** * Notions used in the statements *)

(** ** Frames *)

(** The first terminating character that [CLOSE] remembers without having
    stored it. *)
Definition pend (s : ReadMessageState) : list ascii :=
  match s with OPEN => [] | CLOSE => [TERMINATING_FIRST_CHAR] end.

(** Does [p] contain the terminating sequence? *)
Fixpoint has_terminator (p : list ascii) : bool :=
  match p with
  | a :: t =>
      match t with
      | b :: _ => (a =? TERMINATING_FIRST_CHAR)%char && (b =? TERMINATING_SECOND_CHAR)%char
      | [] => false
      end || has_terminator t
  | [] => false
  end.

(** A byte that waits [d] seconds is delivered under the timeout [tmo]. *)
Definition timely (tmo d : Z) : Prop := tmo = 0 \/ d < tmo.

(** The number of reads behind a state of the loop. *)
Definition reads_of (v : read_vars) : Z :=
  Z.of_nat (length (message v ++ pend (state v))).

Ltac lens :=
  unfold reads_of in *; cbn [message state pend app] in *;
  rewrite ?length_app in *; cbn [length] in *;
  rewrite ?length_app in *; cbn [length] in *.

(** The locals after [k] iterations of a loop that has no size checks;
    [None] when one of its reads returns -1 or never returns. *)
Fixpoint uncapped (tmo : Z) (evs : list event) (k : nat) (v : read_vars) {struct k}
  : option read_vars :=
  match k with
  | O => Some v
  | S k' =>
      if messageDone v then Some v
      else match evs with
           | [] => None
           | e :: rest =>
               match sys_read tmo (buffer v) e with
               | None => None
               | Some b => uncapped tmo rest k' (switch_buffer b (uint16 (msgLength v + 1)) v)
               end
           end
  end.

Definition still_open (o : option read_vars) : Prop :=
  match o with Some v => state v = OPEN | None => False end.

Definition not_done (o : option read_vars) : Prop :=
  match o with Some v => messageDone v = false | None => False end.

(** A payload with single terminating characters inside and at its end. *)
Definition lone_terminators : list ascii :=
  ["a"%char; TERMINATING_FIRST_CHAR; "b"%char; TERMINATING_SECOND_CHAR;
   TERMINATING_FIRST_CHAR; TERMINATING_FIRST_CHAR].

(** A payload of 65536 bytes, one more than a [uint16_t] can count. *)
Definition long_payload : list ascii := repeat "a"%char (Z.to_nat 65536).

(** ** Hashes and digits *)

(** The sum of the characters of a string as C++ adds them to an integer. *)
Definition sum_of_chars `{Platform} (u : list ascii) : Z :=
  fold_left (fun s c => s + char_value c) u 0.

(** The hash in the words of the specification: the truncating 16-bit sum
    of the raw (unsigned) byte values, times 1000, plus the key, modulo
    65536. *)
Definition sum_of_bytes (u : list ascii) : Z :=
  fold_left (fun s c => (s + byte_value c) mod 65536) u 0.

Definition spec_hash (key : Z) (u : list ascii) : Z :=
  (sum_of_bytes u * 1000 + key) mod 65536.

(** Every character of [u] is promoted to its raw byte value. *)
Definition raw_chars `{Platform} (u : list ascii) : Prop :=
  char_is_signed = false \/ Forall (fun c => byte_value c < 128) u.

Definition all_digits `{Platform} (s : list ascii) : Prop :=
  Forall (fun c => isdigit (char_value c) = true) s.

(** ** Robots and the patch *)

(** Two controllers that differ in the socket only. *)
Definition same_robot (c c' : ClientController) : Prop :=
  position c' = position c /\ direction c' = direction c.

(** The cell of a step of the serpentine plan, in the words of the
    specification: rows of five cells from the corner (-2, 2) downwards,
    odd rows from right to left. *)
Definition cell_of_step (step : Z) : Position :=
  let row := step / 5 in
  let col := if Z.odd row then 4 - step mod 5 else step mod 5 in
  {| x := TARGET_X + col; y := TARGET_Y - row |}.

Definition in_patch (p : Position) : bool :=
  (-2 <=? x p) && (x p <=? 2) && (-2 <=? y p) && (y p <=? 2).

Definition Position_eqb (p q : Position) : bool :=
  (x p =? x q) && (y p =? y q).

(** The frames in a sequence of written bytes. *)
Fixpoint unwire_from (cur : list ascii) (bs : list ascii) : list (list ascii) :=
  match bs with
  | a :: t =>
      match t with
      | b :: t' =>
          if (a =? TERMINATING_FIRST_CHAR)%char && (b =? TERMINATING_SECOND_CHAR)%char
          then rev cur :: unwire_from [] t'
          else unwire_from (a :: cur) t
      | [] => [rev (a :: cur)]
      end
  | [] => match cur with [] => [] | _ => [rev cur] end
  end.

Definition unwire (bs : list ascii) : list string :=
  map string_of_list_ascii (unwire_from [] bs).

(** A robot that starts at (-4, 2) facing right, obeys every command and
    has no message on any of the 25 cells of the patch; it has one on the
    cell (2, -3) below the last cell of the sweep. *)
Definition empty_patch_client : list string :=
  ["Ab"; "11720"; "OK -3 2"; "OK -2 2";
   ""; "OK -1 2"; ""; "OK 0 2"; ""; "OK 1 2"; ""; "OK 2 2";
   ""; "OK 2 2"; "OK 2 1";
   ""; "OK 2 1"; "OK 1 1"; ""; "OK 0 1"; ""; "OK -1 1"; ""; "OK -2 1";
   ""; "OK -2 1"; "OK -2 0";
   ""; "OK -2 0"; "OK -1 0"; ""; "OK 0 0"; ""; "OK 1 0"; ""; "OK 2 0";
   ""; "OK 2 0"; "OK 2 -1";
   ""; "OK 2 -1"; "OK 1 -1"; ""; "OK 0 -1"; ""; "OK -1 -1"; ""; "OK -2 -1";
   ""; "OK -2 -1"; "OK -2 -2";
   ""; "OK -2 -2"; "OK -1 -2"; ""; "OK 0 -2"; ""; "OK 1 -2"; ""; "OK 2 -2";
   "";
   "OK 2 -2"; "OK 2 -3";
   "found outside"]%string.

(** A frame that [readMsg] passes on and [updatePosition] accepts. *)
Definition confirms `{Platform} (msg : list ascii) (p : Position) : Prop :=
  parse_confirmation msg = Some p
  /\ has_terminator msg = false
  /\ (length msg <= 10)%nat
  /\ msg <> CLIENT_RECHARGING.

(** The bytes of the frames [msgs], each byte waiting [d] seconds. *)
Definition replies (d : Z) (msgs : list (list ascii)) : list event :=
  concat (map (fun msg => arriving d (wire msg)) msgs).

(** ** What the reader has heard *)

(** The contents of [buffer] after each of the reads [evs] when none of them
    returns -1: the byte that arrives or, on a read that returns 0, the byte
    of the read before. *)
Fixpoint heard (buffer : ascii) (evs : list event) : list ascii :=
  match evs with
  | [] => []
  | Arrive _ c :: rest => c :: heard c rest
  | Eof :: rest => buffer :: heard buffer rest
  | Failed :: rest => heard buffer rest
  end.

(** The next read returns -1 under the timeout [tmo]: nothing is left, the
    next byte comes too late, or the read fails. *)
Definition falls_silent (tmo : Z) (evs : list event) : Prop :=
  match evs with
  | [] => True
  | Arrive wait _ :: _ => tmo <= wait
  | Eof :: _ => False
  | Failed :: _ => True
  end.

(** What the loop has stored or remembers. *)
Definition stored (v : read_vars) : list ascii := message v ++ pend (state v).

(** What the recognizer keeps true of the stored bytes: they hold no
    terminating sequence, and in [OPEN] they do not end in the first
    terminating character. *)
Definition clean (v : read_vars) : Prop :=
  match state v with
  | OPEN => has_terminator (message v ++ [TERMINATING_SECOND_CHAR]) = false
  | CLOSE => has_terminator (message v) = false
  end.

(** [k] rounds of RECHARGING and FULL POWER, the bytes of the first waiting
    [d1] seconds each and those of the second [d2]. *)
Definition recharges (d1 d2 : Z) (k : nat) : list event :=
  concat (repeat (arriving d1 (wire CLIENT_RECHARGING)
                  ++ arriving d2 (wire CLIENT_FULL_POWER)) k).

(** ** Decimal numerals *)

(** The characters of a decimal numeral, most significant first. *)
Definition digits_of (d : Decimal.uint) : list ascii :=
  str (NilEmpty.string_of_uint d).

(** ** Position confirmations *)

(** A run of white space. *)
Definition blank `{Platform} (ws : list ascii) : Prop :=
  Forall (fun c => isspace (char_value c) = true) ws.

(** Whether a number fits an [int]. *)
Definition fits_int (n : Z) : Prop := - INT_MAX - 1 <= n <= INT_MAX.

(** ** Turns *)

(** The heading a quarter turn to the right of a known heading. *)
Definition clockwise (d : Direction) : Direction :=
  match d with
  | UP => RIGHT | RIGHT => DOWN | DOWN => LEFT | LEFT => UP | UNKNOWN => UNKNOWN
  end.

(** The heading a quarter turn to the left of a known heading. *)
Definition counterclockwise (d : Direction) : Direction :=
  match d with
  | UP => LEFT | RIGHT => UP | DOWN => RIGHT | LEFT => DOWN | UNKNOWN => UNKNOWN
  end.

(** ** What a session sends and throws *)

(** The messages that keep a session going: the commands, 200 OK and the
    hash of the server, which is one to five digits long. *)
Definition ordinary `{Platform} (msg : list ascii) : Prop :=
  In msg [SERVER_MOVE; SERVER_TURN_LEFT; SERVER_TURN_RIGHT; SERVER_PICK_UP; SERVER_OK]
  \/ (all_digits msg /\ (1 <= length msg <= 5)%nat).

Definition error_message (msg : list ascii) : Prop :=
  In msg [SERVER_LOGIN_FAILED; SERVER_SYNTAX_ERROR; SERVER_LOGIC_ERROR].

(** The exceptions that the handler catches. *)
Definition caught (e : exn) : Prop := exists what, e = runtime_error what.

(** The exceptions that leave the handler. *)
Definition escapes (e : exn) : Prop :=
  e = invalid_argument "stoi" \/ e = logic_error "Same position in updateDirection".

(** [m] writes whole frames only: ordinary messages and then at most one
    more message, which is an error message when [m] throws and one of
    [fin] when it returns; an error message goes with an exception that the
    handler catches, and no exception is of another kind than [caught] and
    [escapes]. *)
Definition conduct `{Platform} {A} (fin : list (list ascii)) (m : M A) : Prop :=
  forall c r c', m c = (r, c') ->
    exists body tail,
      sock_out c' = sock_out c ++ concat (map wire (body ++ tail))
      /\ Forall ordinary body
      /\ match r with
         | Ret _ => tail = [] \/ exists msg, In msg fin /\ tail = [msg]
         | Throw e =>
             (tail = [] /\ (caught e \/ escapes e))
             \/ (exists msg, tail = [msg] /\ error_message msg /\ caught e)
         | Hang => tail = []
         end.

(** ** Confirmations that do not depend on the platform *)

(** [msg] is read as the position [p] whatever the implementation leaves
    open: in particular the [y] of [p] comes from [msg], not from the
    uninitialised local of [updatePosition]. *)
Definition reports (msg : list ascii) (p : Position) : Prop :=
  forall P : Platform, @confirms P msg p.

(** ** Progress *)

(** [m] started in [c] does not hang, and when it returns it has taken at
    least [n] reads from the socket. *)
Definition drops {A} (n : nat) (m : M A) (c : ClientController) : Prop :=
  match m c with
  | (Hang, _) => False
  | (Ret _, c') => (length (sock_in c') + n <= length (sock_in c))%nat
  | (Throw _, _) => True
  end.

(** * Properties *)

(** ** Machine arithmetic *)

Lemma int_small z : - 2147483648 <= z <= INT_MAX -> int z = z.
Proof.
  unfold int, INT_MAX. intros Hz.
  rewrite Z.mod_small by lia. lia.
Qed.

Lemma uint16_small z : 0 <= z < 65536 -> uint16 z = z.
Proof. unfold uint16. intros Hz. now rewrite Z.mod_small. Qed.

Lemma uint16_range z : 0 <= uint16 z < 65536.
Proof. unfold uint16. apply Z.mod_pos_bound. lia. Qed.

Lemma uint16_le z : 0 <= z -> uint16 z <= z.
Proof. unfold uint16. intros Hz. apply Z.mod_le; lia. Qed.

Lemma uint16_succ z : uint16 (uint16 z + 1) = uint16 (z + 1).
Proof. unfold uint16. now rewrite Z.add_mod_idemp_l by lia. Qed.

(** ** The recognizer of the terminating sequence *)

Lemma sys_read_timely tmo d b c : timely tmo d -> sys_read tmo b (Arrive d c) = Some c.
Proof.
  intros [-> | Hd]; simpl; [reflexivity|].
  apply Z.ltb_lt in Hd. rewrite Hd. now rewrite orb_true_r.
Qed.

Lemma switch_first n v :
  switch_buffer TERMINATING_FIRST_CHAR n v =
  {| message := message v ++ pend (state v); buffer := TERMINATING_FIRST_CHAR;
     msgLength := n; state := CLOSE; messageDone := messageDone v |}.
Proof.
  unfold switch_buffer. rewrite Ascii.eqb_refl.
  destruct (state v); simpl; [now rewrite app_nil_r | reflexivity].
Qed.

Lemma switch_second_open n v :
  state v = OPEN ->
  switch_buffer TERMINATING_SECOND_CHAR n v =
  {| message := message v ++ [TERMINATING_SECOND_CHAR]; buffer := TERMINATING_SECOND_CHAR;
     msgLength := n; state := OPEN; messageDone := messageDone v |}.
Proof. unfold switch_buffer. intros ->. reflexivity. Qed.

Lemma switch_second_close n v :
  state v = CLOSE ->
  switch_buffer TERMINATING_SECOND_CHAR n v =
  {| message := message v; buffer := TERMINATING_SECOND_CHAR;
     msgLength := n; state := CLOSE; messageDone := true |}.
Proof. unfold switch_buffer. intros ->. reflexivity. Qed.

Lemma switch_other c n v :
  c <> TERMINATING_FIRST_CHAR -> c <> TERMINATING_SECOND_CHAR ->
  switch_buffer c n v =
  {| message := message v ++ pend (state v) ++ [c]; buffer := c;
     msgLength := n; state := OPEN; messageDone := messageDone v |}.
Proof.
  intros H1 H2. unfold switch_buffer.
  apply Ascii.eqb_neq in H1, H2. rewrite H1, H2.
  destruct (state v); simpl; [reflexivity | now rewrite <- app_assoc].
Qed.

(** One iteration that delivers a byte and passes both size checks. *)
Lemma read_loop_cons m tmo d c rest v :
  timely tmo d ->
  exceeds m (uint16 (msgLength v + 1)) = false ->
  overflows m (switch_buffer c (uint16 (msgLength v + 1)) v) = false ->
  read_loop m tmo (Arrive d c :: rest) v =
  if messageDone (switch_buffer c (uint16 (msgLength v + 1)) v)
  then (Complete (message (switch_buffer c (uint16 (msgLength v + 1)) v)), rest)
  else read_loop m tmo rest (switch_buffer c (uint16 (msgLength v + 1)) v).
Proof.
  intros Ht He Ho. cbn [read_loop].
  rewrite (sys_read_timely _ _ _ _ Ht), He, Ho. reflexivity.
Qed.

Lemma exceeds_false m n total :
  m <= INT_MAX - 2 -> 0 <= n -> n <= total + 2 ->
  total <= m \/ 65535 <= m ->
  exceeds m (uint16 n) = false.
Proof.
  intros Hm Hn Ht Hc. unfold exceeds, TERMINATING_SEQUENCE_LENGTH.
  pose proof (uint16_range n). pose proof (uint16_le n Hn).
  unfold INT_MAX in *. rewrite int_small by (unfold INT_MAX; lia).
  apply Z.ltb_ge. lia.
Qed.

Lemma overflows_false m v total :
  m <= INT_MAX - 2 -> 0 <= total <= m \/ 65535 <= m ->
  0 <= msgLength v < 65536 ->
  (msgLength v <= total \/
   (msgLength v <= total + 1 /\ state v = CLOSE) \/
   (state v = CLOSE /\ messageDone v = true)) ->
  overflows m v = false.
Proof.
  intros Hm Hc Hr Hs. unfold overflows, INT_MAX in *.
  rewrite !int_small by (unfold INT_MAX; lia).
  apply orb_false_iff. split; apply andb_false_iff.
  - destruct Hs as [Hs | [[Hs ->] | [-> _]]]; [left | right; reflexivity ..].
    apply Z.eqb_neq. lia.
  - destruct Hs as [Hs | [[Hs _] | [_ ->]]]; [left | left | right; reflexivity];
      apply Z.eqb_neq; lia.
Qed.

Lemma has_terminator_cons a t :
  has_terminator (a :: t) = false ->
  has_terminator t = false /\
  (a = TERMINATING_FIRST_CHAR -> forall t', t <> TERMINATING_SECOND_CHAR :: t').
Proof.
  cbn [has_terminator]. intros H. apply orb_false_iff in H as [H1 H2].
  split; [exact H2|]. intros -> t' ->.
  now rewrite !Ascii.eqb_refl in H1.
Qed.

Lemma has_terminator_pend_cons c t :
  c <> TERMINATING_SECOND_CHAR ->
  has_terminator (c :: t) = false ->
  has_terminator (TERMINATING_FIRST_CHAR :: c :: t) = false.
Proof.
  intros Hc H. cbn [has_terminator] in *. rewrite H.
  apply Ascii.eqb_neq in Hc. rewrite Hc. now rewrite andb_false_r.
Qed.

(** The last read of a frame: the second terminating character in [CLOSE]. *)
Lemma read_loop_last m tmo d rest v total :
  timely tmo d -> m <= INT_MAX - 2 ->
  state v = CLOSE ->
  msgLength v = uint16 (reads_of v) ->
  reads_of v <= total + 1 ->
  0 <= total <= m \/ 65535 <= m ->
  read_loop m tmo (Arrive d TERMINATING_SECOND_CHAR :: rest) v = (Complete (message v), rest).
Proof.
  intros Ht Hm Hs Hl Hn Hc.
  assert (H0 : 0 <= reads_of v) by (unfold reads_of; lia).
  rewrite read_loop_cons; try assumption.
  - now rewrite switch_second_close.
  - rewrite Hl, uint16_succ. apply exceeds_false with (total := total); lia.
  - rewrite switch_second_close by assumption.
    apply overflows_false with (total := total); cbn; try assumption.
    + apply uint16_range.
    + right. right. split; reflexivity.
Qed.

(** Reading the wire form of [r] from any state of the loop that has not
    met a size check: the payload is what was stored, the pending
    character, and [r]. *)
Lemma read_loop_frame m tmo d r : forall rest v,
  timely tmo d -> m <= INT_MAX - 2 ->
  messageDone v = false ->
  has_terminator (pend (state v) ++ r) = false ->
  msgLength v = uint16 (reads_of v) ->
  reads_of v + Z.of_nat (length r) <= m \/ 65535 <= m ->
  read_loop m tmo (arriving d (wire r) ++ rest) v =
  (Complete (message v ++ pend (state v) ++ r), rest).
Proof.
  induction r as [|c r IH]; intros rest v Ht Hm Hd Hp Hl Hc;
    assert (H0 : 0 <= reads_of v) by (unfold reads_of; lia).
  - (* only the terminating sequence is left *)
    cbn [wire arriving map app length] in *.
    rewrite read_loop_cons; try assumption.
    + rewrite switch_first. cbn [messageDone]. rewrite Hd.
      rewrite read_loop_last with (total := reads_of v); try assumption.
      * cbn. now rewrite app_nil_r.
      * reflexivity.
      * cbn. rewrite Hl, uint16_succ. unfold reads_of. cbn.
        rewrite !length_app. cbn. f_equal. lia.
      * unfold reads_of. cbn. rewrite !length_app. cbn. lia.
      * lia.
    + rewrite Hl, uint16_succ. apply exceeds_false with (total := reads_of v); lia.
    + rewrite switch_first.
      apply overflows_false with (total := reads_of v); cbn; try assumption; try lia.
      * apply uint16_range.
      * right. left. split; [|reflexivity].
        rewrite Hl, uint16_succ. pose proof (uint16_le (reads_of v + 1)). lia.
  - (* a character of the payload *)
    change (arriving d (wire (c :: r)) ++ rest)
      with (Arrive d c :: arriving d (wire r) ++ rest).
    cbn [length] in Hc.
    assert (Hlen : uint16 (msgLength v + 1) = uint16 (reads_of v + 1))
      by (rewrite Hl; apply uint16_succ).
    assert (Hle : uint16 (reads_of v + 1) <= reads_of v + 1)
      by (apply uint16_le; lia).
    pose proof (uint16_range (reads_of v + 1)) as Hrg.
    rewrite read_loop_cons; try assumption.
    + destruct (ascii_dec c TERMINATING_FIRST_CHAR) as [-> | Hc1];
        [| destruct (ascii_dec c TERMINATING_SECOND_CHAR) as [-> | Hc2]].
      * rewrite switch_first. cbn [messageDone]. rewrite Hd.
        rewrite IH; try assumption; cbn [message state pend messageDone msgLength];
          try reflexivity.
        -- now rewrite <- !app_assoc.
        -- destruct (state v); cbn [pend app] in Hp |- *;
             [exact Hp | now apply has_terminator_cons in Hp].
        -- rewrite Hlen. lens. f_equal. lia.
        -- lens. lia.
      * destruct (state v) eqn:Hs.
        -- rewrite switch_second_open by assumption. cbn [messageDone]. rewrite Hd.
           rewrite IH; try assumption; cbn [message state pend messageDone msgLength];
          try reflexivity.
           ++ cbn. now rewrite <- !app_assoc.
           ++ cbn [pend app] in Hp |- *. now apply has_terminator_cons in Hp.
           ++ rewrite Hlen. unfold reads_of in *. rewrite Hs in *. lens. f_equal. lia.
           ++ unfold reads_of in *. rewrite Hs in *. lens. lia.
        -- exfalso. cbn [pend app] in Hp.
           apply has_terminator_cons in Hp as [_ Hp]. now apply (Hp eq_refl r).
      * rewrite switch_other by assumption. cbn [messageDone]. rewrite Hd.
        rewrite IH; try assumption; cbn [message state pend messageDone msgLength];
          try reflexivity.
        -- cbn. now rewrite <- !app_assoc.
        -- cbn [pend app]. destruct (state v); cbn [pend app] in Hp;
             [| apply has_terminator_cons in Hp as [Hp _]];
             apply has_terminator_cons in Hp as [Hp _]; exact Hp.
        -- rewrite Hlen. lens. f_equal. lia.
        -- lens. lia.
    + rewrite Hlen. apply exceeds_false with (total := reads_of v + Z.of_nat (length r)); lia.
    + apply overflows_false with (total := reads_of v + Z.of_nat (S (length r))); try lia.
      * destruct (ascii_dec c TERMINATING_FIRST_CHAR) as [-> | Hc1];
          [| destruct (ascii_dec c TERMINATING_SECOND_CHAR) as [-> | Hc2]].
        -- rewrite switch_first. cbn. lia.
        -- destruct (state v) eqn:Hs;
             [rewrite switch_second_open | rewrite switch_second_close]; cbn; lia || assumption.
        -- rewrite switch_other by assumption. cbn. lia.
      * left.
        destruct (ascii_dec c TERMINATING_FIRST_CHAR) as [-> | Hc1];
          [| destruct (ascii_dec c TERMINATING_SECOND_CHAR) as [-> | Hc2]].
        -- rewrite switch_first. cbn. lia.
        -- destruct (state v) eqn:Hs;
             [rewrite switch_second_open | rewrite switch_second_close]; cbn; lia || assumption.
        -- rewrite switch_other by assumption. cbn. lia.
Qed.

Lemma readFromSocket_frame `{Platform} m d p rest c :
  sock_in c = arriving d (wire p) ++ rest ->
  timely (rcvtimeo c) d ->
  has_terminator p = false ->
  Z.of_nat (length p) <= m \/ 65535 <= m ->
  m <= INT_MAX - 2 ->
  readFromSocket m c = (Ret p, with_in rest c).
Proof.
  intros Hin Ht Hp Hc Hm. unfold readFromSocket. rewrite Hin.
  rewrite read_loop_frame; try assumption; reflexivity.
Qed.

(** ** The reader without its size checks *)

Lemma switch_buffer_cases b n v :
  messageDone v = false ->
  let v' := switch_buffer b n v in
  msgLength v' = n /\ buffer v' = b /\
  ((messageDone v' = true /\ state v' = CLOSE /\ state v = CLOSE /\ message v' = message v)
   \/ (messageDone v' = false /\ reads_of v' = reads_of v + 1)).
Proof.
  intros Hd.
  destruct (ascii_dec b TERMINATING_FIRST_CHAR) as [-> | H1];
    [| destruct (ascii_dec b TERMINATING_SECOND_CHAR) as [-> | H2]].
  - rewrite switch_first. cbn. repeat split. right. split; [assumption|].
    lens. lia.
  - destruct (state v) eqn:Hs.
    + rewrite switch_second_open by assumption. cbn. repeat split. right.
      split; [assumption|]. unfold reads_of. rewrite Hs. lens. lia.
    + rewrite switch_second_close by assumption. cbn. repeat split. left.
      repeat split.
  - rewrite switch_other by assumption. cbn. repeat split. right.
    split; [assumption|]. lens. lia.
Qed.

Lemma exceeds_spec m n :
  - 2 <= m <= INT_MAX - 2 -> exceeds m n = true <-> m + 2 < n.
Proof.
  intros Hm. unfold exceeds, TERMINATING_SEQUENCE_LENGTH.
  rewrite int_small by (unfold INT_MAX in *; lia). apply Z.ltb_lt.
Qed.

Lemma overflows_spec m v :
  - 1 <= m <= INT_MAX - 2 ->
  overflows m v = true <->
  (msgLength v = m + 1 /\ state v = OPEN) \/ (msgLength v = m + 2 /\ messageDone v = false).
Proof.
  intros Hm. unfold overflows.
  rewrite !int_small by (unfold INT_MAX in *; lia).
  rewrite orb_true_iff, !andb_true_iff, !Z.eqb_eq, negb_true_iff.
  destruct (state v); cbn; intuition (congruence || lia).
Qed.

(** A completed frame is never longer than the cap. *)
Lemma read_loop_complete_length m tmo :
  0 <= m <= 65533 ->
  forall evs v p rest,
    messageDone v = false ->
    msgLength v = reads_of v ->
    reads_of v <= m + 1 ->
    (reads_of v = m + 1 -> state v = CLOSE) ->
    read_loop m tmo evs v = (Complete p, rest) ->
    Z.of_nat (length p) <= m.
Proof.
  intros Hm. induction evs as [|e evs IH]; intros v p rest Hd Hl Hn Hs Hr.
  - cbn in Hr. destruct (tmo =? 0); [discriminate|].
    destruct (exceeds _ _); discriminate.
  - cbn [read_loop] in Hr.
    destruct (exceeds _ _); [discriminate|].
    destruct (sys_read tmo (buffer v) e) as [b|]; [|discriminate].
    assert (H0 : 0 <= reads_of v) by (unfold reads_of; lia).
    rewrite Hl, uint16_small in Hr by lia.
    destruct (switch_buffer_cases b (reads_of v + 1) v Hd) as (Hl' & _ & Hcase).
    destruct (overflows m _) eqn:Ho; [discriminate|].
    assert (Hno : ~ ((msgLength (switch_buffer b (reads_of v + 1) v) = m + 1
                      /\ state (switch_buffer b (reads_of v + 1) v) = OPEN)
                     \/ (msgLength (switch_buffer b (reads_of v + 1) v) = m + 2
                         /\ messageDone (switch_buffer b (reads_of v + 1) v) = false))).
    { intros Hyes. apply overflows_spec in Hyes; [congruence | unfold INT_MAX; lia]. }
    rewrite Hl' in Hno.
    destruct Hcase as [(Hd' & _ & Hsv & Hm') | (Hd' & Hn')]; rewrite Hd' in Hr.
    + injection Hr as <- _. rewrite Hm'.
      unfold reads_of in Hn. rewrite Hsv in Hn. lens. lia.
    + apply (IH _ p rest Hd'); try exact Hr.
      * lia.
      * destruct (Z.eq_dec (reads_of v) (m + 1)); [|lia].
        exfalso. apply Hno. right. split; [lia | assumption].
      * intros Heq. destruct (state (switch_buffer b (reads_of v + 1) v)) eqn:Hst;
          [|reflexivity].
        exfalso. apply Hno. left. split; [lia | reflexivity].
Qed.

Lemma uncapped_done tmo evs k v :
  messageDone v = true -> uncapped tmo evs k v = Some v.
Proof. intros Hd. destruct k; cbn; [|rewrite Hd]; reflexivity. Qed.

Lemma uncapped_nil tmo k v :
  messageDone v = false -> uncapped tmo [] (S k) v = None.
Proof. intros Hd. cbn. now rewrite Hd. Qed.

Lemma uncapped_cons tmo e rest k v :
  messageDone v = false ->
  uncapped tmo (e :: rest) (S k) v =
  match sys_read tmo (buffer v) e with
  | None => None
  | Some b => uncapped tmo rest k (switch_buffer b (uint16 (msgLength v + 1)) v)
  end.
Proof. intros Hd. cbn. now rewrite Hd. Qed.

Lemma read_loop_nil m tmo v :
  read_loop m tmo [] v =
  if tmo =? 0 then (Blocked, [])
  else if exceeds m (uint16 (msgLength v + 1)) then (OutOfBounds, [])
  else (TimeoutFired, []).
Proof. reflexivity. Qed.

Lemma read_loop_step m tmo e rest v :
  read_loop m tmo (e :: rest) v =
  if exceeds m (uint16 (msgLength v + 1)) then (OutOfBounds, unread tmo e rest)
  else match sys_read tmo (buffer v) e with
       | None => (TimeoutFired, unread tmo e rest)
       | Some b =>
           if overflows m (switch_buffer b (uint16 (msgLength v + 1)) v)
           then (OutOfBounds, rest)
           else if messageDone (switch_buffer b (uint16 (msgLength v + 1)) v)
                then (Complete (message (switch_buffer b (uint16 (msgLength v + 1)) v)), rest)
                else read_loop m tmo rest (switch_buffer b (uint16 (msgLength v + 1)) v)
       end.
Proof. reflexivity. Qed.

(** The loop leaves through a size check exactly when the loop without
    checks is still in [OPEN] after [m + 1] reads, or has not finished the
    message after [m + 2]. The statement is relative to a state of the loop
    that has made [msgLength v] reads already. *)
Lemma read_loop_out_of_bounds m tmo :
  0 <= m <= 65533 ->
  forall evs v,
    messageDone v = false ->
    0 <= msgLength v <= m + 1 ->
    (msgLength v = m + 1 -> state v = CLOSE) ->
    fst (read_loop m tmo evs v) = OutOfBounds <->
    still_open (uncapped tmo evs (Z.to_nat (m + 1 - msgLength v)) v)
    \/ not_done (uncapped tmo evs (Z.to_nat (m + 2 - msgLength v)) v).
Proof.
  intros Hm. induction evs as [|e evs IH]; intros v Hd Hn Hs;
    (assert (He : exceeds m (uint16 (msgLength v + 1)) = false);
     [ destruct (exceeds _ _) eqn:He; [|reflexivity];
       apply exceeds_spec in He; [|unfold INT_MAX; lia];
       rewrite uint16_small in He by lia; lia |]);
    replace (Z.to_nat (m + 2 - msgLength v))
      with (S (Z.to_nat (m + 1 - msgLength v))) by lia.
  - rewrite read_loop_nil, He, uncapped_nil by assumption.
    split.
    + destruct (tmo =? 0); discriminate.
    + intros [Ho | []].
      destruct (Z.to_nat (m + 1 - msgLength v)) eqn:Hk.
      * cbn in Ho. rewrite Hs in Ho by lia. discriminate.
      * rewrite uncapped_nil in Ho by assumption. destruct Ho.
  - rewrite read_loop_step, He, uncapped_cons by assumption.
    rewrite uint16_small by lia.
    destruct (sys_read tmo (buffer v) e) as [b|] eqn:Hread.
    + destruct (switch_buffer_cases b (msgLength v + 1) v Hd) as (Hl' & Hb' & Hcase).
      set (v' := switch_buffer b (msgLength v + 1) v) in *.
      pose proof (overflows_spec m v') as Hov.
      destruct (overflows m v') eqn:Ho.
      * (* a size check ends the loop here *)
        split; [intros _ | reflexivity].
        destruct Hov as [Hov _]; [unfold INT_MAX; lia|].
        destruct (Hov eq_refl) as [[Hlen Hst] | [Hlen Hdn]]; rewrite Hl' in Hlen.
        -- left. replace (Z.to_nat (m + 1 - msgLength v)) with 1%nat by lia.
           rewrite uncapped_cons, Hread by assumption.
           rewrite uint16_small by lia. exact Hst.
        -- right. replace (Z.to_nat (m + 1 - msgLength v)) with 0%nat by lia.
           exact Hdn.
      * assert (Hno : ~ ((msgLength v' = m + 1 /\ state v' = OPEN)
                         \/ (msgLength v' = m + 2 /\ messageDone v' = false))).
        { intros Hyes. apply Hov in Hyes; [congruence | unfold INT_MAX; lia]. }
        rewrite Hl' in Hno.
        destruct Hcase as [(Hd' & Hst' & _) | (Hd' & _)]; rewrite Hd'.
        -- (* the message is done *)
           rewrite (uncapped_done tmo evs _ v') by assumption.
           split; [discriminate|].
           intros [Ho' | Hn']; [|cbn in Hn'; congruence].
           destruct (Z.to_nat (m + 1 - msgLength v)) as [|k] eqn:Hk.
           ++ cbn in Ho'. rewrite Hs in Ho' by lia. discriminate.
           ++ rewrite uncapped_cons, Hread in Ho' by assumption.
              rewrite uint16_small in Ho' by lia. fold v' in Ho'.
              rewrite uncapped_done in Ho' by assumption. cbn in Ho'. congruence.
        -- (* the loop goes on *)
           assert (Hlt : msgLength v < m + 1).
           { destruct (Z.eq_dec (msgLength v) (m + 1)); [|lia].
             exfalso. apply Hno. right. split; [lia | assumption]. }
           rewrite IH; try assumption.
           ++ rewrite Hl'.
              replace (Z.to_nat (m + 2 - (msgLength v + 1)))
                with (Z.to_nat (m + 1 - msgLength v)) by lia.
              replace (Z.to_nat (m + 1 - msgLength v))
                with (S (Z.to_nat (m + 1 - (msgLength v + 1)))) at 2 by lia.
              rewrite (uncapped_cons tmo e evs _ v Hd), Hread.
              rewrite uint16_small by lia. reflexivity.
           ++ lia.
           ++ rewrite Hl'. intros Heq.
              destruct (state v') eqn:Hst; [|reflexivity].
              exfalso. apply Hno. left. split; [lia | reflexivity].
    + (* the read returns -1 *)
      split; [discriminate|].
      intros [Ho | []].
      destruct (Z.to_nat (m + 1 - msgLength v)) eqn:Hk.
      * cbn in Ho. rewrite Hs in Ho by lia. discriminate.
      * rewrite uncapped_cons, Hread in Ho by assumption. destruct Ho.
Qed.

(** ** The frame codec *)

Lemma sendResponse_ok msg c :
  send_budget c <> Some 0%nat ->
  exists b, sendResponse msg c = (Ret tt, sent (wire msg) b c)
            /\ (send_budget c = None -> b = None).
Proof.
  intros Hb. unfold sendResponse.
  destruct (send_budget c) as [[|k]|]; [congruence | |];
    eexists; (split; [reflexivity|]); congruence.
Qed.

Lemma sendResponse_reliable msg c :
  send_budget c = None -> sendResponse msg c = (Ret tt, sent (wire msg) None c).
Proof. intros Hb. unfold sendResponse. now rewrite Hb. Qed.

(** C7. Codec round trip: when a payload [p] holds no terminating sequence
    (single terminating characters are allowed anywhere, also at its end),
    [sendResponse] writes [p] followed by the two terminating characters,
    and [readFromSocket] with a cap of at least the length of [p] reads
    exactly [p] back from those bytes, leaving what follows them unread. *)
Theorem codec_round_trip `{Platform} (p : list ascii) (m d : Z) (rest : list event)
    (sender receiver : ClientController) :
  has_terminator p = false ->
  Z.of_nat (length p) <= m <= INT_MAX - 2 ->
  send_budget sender <> Some 0%nat ->
  timely (rcvtimeo receiver) d ->
  sock_out (snd (sendResponse p sender)) =
    sock_out sender ++ p ++ [TERMINATING_FIRST_CHAR; TERMINATING_SECOND_CHAR]
  /\ readFromSocket m
       (with_in (arriving d (p ++ [TERMINATING_FIRST_CHAR; TERMINATING_SECOND_CHAR]) ++ rest)
          receiver)
     = (Ret p, with_in rest receiver).
Proof.
  intros Hp [Hlen Hm] Hs Ht. split.
  - destruct (sendResponse_ok p sender Hs) as (b & -> & _). reflexivity.
  - rewrite (readFromSocket_frame m d p rest); try assumption; try reflexivity.
    left. exact Hlen.
Qed.

Lemma codec_round_trip_witness :
  let sender := accepted [] None in
  let receiver := with_rcvtimeo TIMEOUT (accepted [] None) in
  sock_out (snd (sendResponse lone_terminators sender)) =
    sock_out sender ++ lone_terminators ++ [TERMINATING_FIRST_CHAR; TERMINATING_SECOND_CHAR]
  /\ @readFromSocket x86_64_linux 6
       (with_in (arriving 0 (lone_terminators
                             ++ [TERMINATING_FIRST_CHAR; TERMINATING_SECOND_CHAR])
                 ++ arriving 0 (str "next")) receiver)
     = (Ret lone_terminators, with_in (arriving 0 (str "next")) receiver).
Proof.
  apply (@codec_round_trip x86_64_linux lone_terminators 6 0).
  - reflexivity.
  - cbn. unfold INT_MAX. lia.
  - discriminate.
  - right. reflexivity.
Defined.

Lemma readFromSocket_ret `{Platform} m c p c' :
  readFromSocket m c = (Ret p, c') -> exists rest, c' = with_in rest c.
Proof.
  unfold readFromSocket.
  destruct (read_loop m (rcvtimeo c) (sock_in c) read_start) as [[q| | |] rest].
  - intros [= _ <-]. now exists rest.
  - unfold bind, sendResponse, throw. cbn.
    destruct (send_budget c) as [[|k]|]; discriminate.
  - discriminate.
  - discriminate.
Qed.

(** A frame that [readFromSocket] returns respects the cap. *)
Lemma readFromSocket_length `{Platform} (m : Z) (c : ClientController) :
  0 <= m <= 65533 ->
  forall p c', readFromSocket m c = (Ret p, c') -> Z.of_nat (length p) <= m.
Proof.
  intros Hm p c'. unfold readFromSocket.
  destruct (read_loop m (rcvtimeo c) (sock_in c) read_start) as [[q| | |] rest] eqn:Hr.
  - intros [= <- _].
    apply (read_loop_complete_length m (rcvtimeo c) Hm (sock_in c) read_start q rest);
      try reflexivity; try exact Hr; cbn; lia.
  - unfold bind, sendResponse, throw.
    destruct (send_budget (with_in rest c)) as [[|k]|]; discriminate.
  - discriminate.
  - discriminate.
Qed.

(** When [readFromSocket] gives up with 301 SYNTAX ERROR. *)
Lemma readFromSocket_gives_up `{Platform} (m : Z) (c : ClientController) :
  0 <= m <= 65533 ->
  send_budget c = None ->
  (exists c', readFromSocket m c = (Throw (runtime_error "Message size out of bounds"), c')
              /\ sock_out c' = sock_out c ++ wire SERVER_SYNTAX_ERROR)
  <-> still_open (uncapped (rcvtimeo c) (sock_in c) (Z.to_nat (m + 1)) read_start)
      \/ not_done (uncapped (rcvtimeo c) (sock_in c) (Z.to_nat (m + 2)) read_start).
Proof.
  intros Hm Hb.
  pose proof (read_loop_out_of_bounds m (rcvtimeo c) Hm (sock_in c) read_start) as Hiff.
  cbn [read_start msgLength messageDone state] in Hiff.
  rewrite !Z.sub_0_r in Hiff.
  specialize (Hiff eq_refl ltac:(lia) ltac:(lia)).
  rewrite <- Hiff. unfold readFromSocket.
  destruct (read_loop m (rcvtimeo c) (sock_in c) read_start) as [[q| | |] rest] eqn:Hr;
    cbn [fst].
  - split; [intros (c' & Hc' & _) |]; discriminate.
  - split; [reflexivity | intros _].
    unfold bind. rewrite sendResponse_reliable by exact Hb.
    eexists. split; reflexivity.
  - split; [intros (c' & Hc' & _) |]; discriminate.
  - split; [intros (c' & Hc' & _) |]; discriminate.
Qed.

(** C8, as the code has it. For every cap [m] from 0 to 65533 (the
    counter [msgLength] is a [uint16_t]) and every input: a payload that
    [readFromSocket] returns is at most [m] bytes long, and the reader gives
    up with 301 SYNTAX ERROR sent first exactly when, size checks aside, the
    recognizer is still in [OPEN] after [m + 1] reads or has not completed
    the frame after [m + 2] reads. *)
Theorem readFromSocket_cap `{Platform} (m : Z) (c : ClientController) :
  0 <= m <= 65533 ->
  send_budget c = None ->
  (forall p c', readFromSocket m c = (Ret p, c') -> Z.of_nat (length p) <= m)
  /\ ((exists c', readFromSocket m c = (Throw (runtime_error "Message size out of bounds"), c')
                  /\ sock_out c' = sock_out c ++ wire SERVER_SYNTAX_ERROR)
      <-> still_open (uncapped (rcvtimeo c) (sock_in c) (Z.to_nat (m + 1)) read_start)
          \/ not_done (uncapped (rcvtimeo c) (sock_in c) (Z.to_nat (m + 2)) read_start)).
Proof.
  intros Hm Hb. split.
  - now apply readFromSocket_length.
  - now apply readFromSocket_gives_up.
Qed.

Lemma readFromSocket_cap_witness :
  let c := with_rcvtimeo TIMEOUT (accepted (frames ["abc"%string; "d"%string]) None) in
  (forall p c', @readFromSocket x86_64_linux 2 c = (Ret p, c') -> Z.of_nat (length p) <= 2)
  /\ ((exists c', @readFromSocket x86_64_linux 2 c
                  = (Throw (runtime_error "Message size out of bounds"), c')
                  /\ sock_out c' = sock_out c ++ wire SERVER_SYNTAX_ERROR)
      <-> still_open (uncapped (rcvtimeo c) (sock_in c) (Z.to_nat (2 + 1))
                        (@read_start x86_64_linux))
          \/ not_done (uncapped (rcvtimeo c) (sock_in c) (Z.to_nat (2 + 2))
                         (@read_start x86_64_linux))).
Proof.
  apply (@readFromSocket_cap x86_64_linux 2).
  - lia.
  - reflexivity.
Defined.

Lemma has_terminator_repeat c n :
  c <> TERMINATING_FIRST_CHAR -> has_terminator (repeat c n) = false.
Proof.
  intros Hc. apply Ascii.eqb_neq in Hc.
  induction n as [|n IH]; [reflexivity|].
  cbn [repeat has_terminator]. rewrite IH, Hc.
  now destruct (repeat c n).
Qed.

(** C8 as stated fails for a cap of 65535: [msgLength] wraps around before
    it can reach [maxMsgSize + 1], no size check ever holds, and a payload
    of 65536 bytes is returned. *)
Lemma readFromSocket_cap_counterexample :
  let c := with_rcvtimeo TIMEOUT (accepted (arriving 0 (wire long_payload) ++ []) None) in
  @readFromSocket x86_64_linux 65535 c = (Ret long_payload, with_in [] c)
  /\ 65535 < Z.of_nat (length long_payload).
Proof.
  split.
  - apply readFromSocket_frame with (d := 0).
    + reflexivity.
    + right. reflexivity.
    + apply has_terminator_repeat. discriminate.
    + right. lia.
    + unfold INT_MAX. lia.
  - unfold long_payload. rewrite repeat_length. lia.
Qed.

(** ** The recharging wrapper *)

Lemma readFromSocket_rcvtimeo `{Platform} m t t' c :
  readFromSocketWithWait m t (with_rcvtimeo t' c) = readFromSocketWithWait m t c.
Proof. reflexivity. Qed.

(** C9, as the code has it. Recharging substitution. When a read of
    [readMsg] with cap [m] returns RECHARGING, the next read is made with
    cap 10 under the recharging timeout, and
    - if it returns FULL POWER, nothing has been sent in between and
      [readMsg] is the original read made again, with the same cap and
      under the short timeout, on what follows FULL POWER;
    - if it returns any other frame, 302 LOGIC ERROR is sent and [readMsg]
      fails;
    - if it fails itself, by a timeout or on a payload of more than 10
      bytes, [readMsg] fails the same way and sends no 302. *)
Theorem readMsg_recharging `{Platform} (fuel : nat) (m : Z) (c c1 : ClientController) :
  send_budget c = None ->
  readFromSocketWithWait m TIMEOUT c = (Ret CLIENT_RECHARGING, c1) ->
  exists r c2,
    readFromSocket CLIENT_FULL_POWER_LENGTH (with_rcvtimeo TIMEOUT_RECHARGING c1) = (r, c2)
    /\ match r with
       | Ret msg =>
           (msg = CLIENT_FULL_POWER ->
            sock_out c2 = sock_out c
            /\ readMsg (S (S fuel)) m c = readMsg (S fuel) m (with_rcvtimeo TIMEOUT c2))
           /\ (msg <> CLIENT_FULL_POWER ->
               readMsg (S (S fuel)) m c
               = (Throw (runtime_error "Expected full power message."),
                  sent (wire SERVER_LOGIC_ERROR) None c2))
       | Throw e => readMsg (S (S fuel)) m c = (Throw e, c2)
       | Hang => readMsg (S (S fuel)) m c = (Hang, c2)
       end.
Proof.
  intros Hb H1.
  destruct (readFromSocket CLIENT_FULL_POWER_LENGTH (with_rcvtimeo TIMEOUT_RECHARGING c1))
    as [r c2] eqn:H2.
  exists r, c2. split; [reflexivity|].
  assert (Hstep : readMsg (S (S fuel)) m c =
                  match r with
                  | Ret msg =>
                      if str_eq_dec msg CLIENT_FULL_POWER then readMsg (S fuel) m c2
                      else (sendResponse SERVER_LOGIC_ERROR ;;;
                            throw (runtime_error "Expected full power message.")) c2
                  | Throw e => (Throw e, c2)
                  | Hang => (Hang, c2)
                  end).
  { change (readMsg (S (S fuel)) m c) with
      ((message <- readFromSocketWithWait m TIMEOUT ;;
        if str_eq_dec message CLIENT_RECHARGING then
          message <- readFromSocketWithWait CLIENT_FULL_POWER_LENGTH TIMEOUT_RECHARGING ;;
          if str_eq_dec message CLIENT_FULL_POWER then readMsg (S fuel) m
          else sendResponse SERVER_LOGIC_ERROR ;;;
               throw (runtime_error "Expected full power message.")
        else ret message) c).
    unfold bind at 1. rewrite H1.
    destruct (str_eq_dec CLIENT_RECHARGING CLIENT_RECHARGING) as [_|Hne]; [|congruence].
    unfold bind at 1. unfold readFromSocketWithWait at 1. rewrite H2.
    destruct r as [msg | e |]; [|reflexivity ..].
    now destruct (str_eq_dec msg CLIENT_FULL_POWER). }
  destruct r as [msg | e |]; try exact Hstep.
  apply readFromSocket_ret in H1 as [rest1 ->].
  apply readFromSocket_ret in H2 as [rest2 ->].
  split.
  - intros ->. split; [reflexivity|].
    rewrite Hstep.
    destruct (str_eq_dec CLIENT_FULL_POWER CLIENT_FULL_POWER) as [_|Hne]; [|congruence].
    reflexivity.
  - intros Hne. rewrite Hstep.
    destruct (str_eq_dec msg CLIENT_FULL_POWER) as [Heq|_]; [congruence|].
    unfold bind. rewrite sendResponse_reliable by exact Hb. reflexivity.
Qed.

(** The robot recharges for three seconds before a move is confirmed. *)
Lemma readMsg_recharging_witness :
  let c := accepted (arriving 0 (wire CLIENT_RECHARGING)
                     ++ arriving 3 (wire CLIENT_FULL_POWER)
                     ++ arriving 0 (wire (str "OK 0 1"))) None in
  let c1 := with_in (arriving 3 (wire CLIENT_FULL_POWER) ++ arriving 0 (wire (str "OK 0 1")))
              (with_rcvtimeo TIMEOUT c) in
  exists r c2,
    @readFromSocket x86_64_linux CLIENT_FULL_POWER_LENGTH
      (with_rcvtimeo TIMEOUT_RECHARGING c1) = (r, c2)
    /\ match r with
       | Ret msg =>
           (msg = CLIENT_FULL_POWER ->
            sock_out c2 = sock_out c
            /\ @readMsg x86_64_linux 3 CLIENT_OK_LENGTH c
               = @readMsg x86_64_linux 2 CLIENT_OK_LENGTH (with_rcvtimeo TIMEOUT c2))
           /\ (msg <> CLIENT_FULL_POWER ->
               @readMsg x86_64_linux 3 CLIENT_OK_LENGTH c
               = (Throw (runtime_error "Expected full power message."),
                  sent (wire SERVER_LOGIC_ERROR) None c2))
       | Throw e => @readMsg x86_64_linux 3 CLIENT_OK_LENGTH c = (Throw e, c2)
       | Hang => @readMsg x86_64_linux 3 CLIENT_OK_LENGTH c = (Hang, c2)
       end.
Proof.
  apply (@readMsg_recharging x86_64_linux 1 CLIENT_OK_LENGTH).
  - reflexivity.
  - reflexivity.
Defined.

(** A frame that is not RECHARGING passes through [readMsg] unchanged. *)
Lemma readMsg_frame `{Platform} fuel m d p rest c :
  sock_in c = arriving d (wire p) ++ rest ->
  d < TIMEOUT ->
  has_terminator p = false ->
  Z.of_nat (length p) <= m <= INT_MAX - 2 ->
  p <> CLIENT_RECHARGING ->
  readMsg (S fuel) m c = (Ret p, with_in rest (with_rcvtimeo TIMEOUT c)).
Proof.
  intros Hin Hd Hp [Hlen Hm] Hne.
  cbn [readMsg]. unfold bind at 1. unfold readFromSocketWithWait at 1.
  rewrite (readFromSocket_frame m d p rest); try assumption.
  - now destruct (str_eq_dec p CLIENT_RECHARGING).
  - right. exact Hd.
  - left. exact Hlen.
Qed.

(** C9 as stated fails where the read that follows RECHARGING yields no
    frame: a payload of eleven bytes is answered with 301 SYNTAX ERROR, and a
    robot that stays silent with nothing at all; 302 LOGIC ERROR is sent in
    neither case. *)
Lemma readMsg_recharging_counterexample :
  let long := accepted (frames ["RECHARGING"; "FULL POWER!"]%string) None in
  let silent := accepted (frames ["RECHARGING"]%string) None in
  fst (@readMsg x86_64_linux 2 CLIENT_OK_LENGTH long)
  = Throw (runtime_error "Message size out of bounds")
  /\ sock_out (snd (@readMsg x86_64_linux 2 CLIENT_OK_LENGTH long)) = wire SERVER_SYNTAX_ERROR
  /\ fst (@readMsg x86_64_linux 2 CLIENT_OK_LENGTH silent)
     = Throw (runtime_error "Timeout fired")
  /\ sock_out (snd (@readMsg x86_64_linux 2 CLIENT_OK_LENGTH silent)) = [].
Proof. repeat split. Qed.

(** ** Frames that are too long *)

Lemma switch_buffer_payload c n v q :
  messageDone v = false ->
  has_terminator (pend (state v) ++ c :: q) = false ->
  messageDone (switch_buffer c n v) = false
  /\ has_terminator (pend (state (switch_buffer c n v)) ++ q) = false.
Proof.
  intros Hd Hp.
  destruct (ascii_dec c TERMINATING_FIRST_CHAR) as [-> | H1];
    [| destruct (ascii_dec c TERMINATING_SECOND_CHAR) as [-> | H2]].
  - rewrite switch_first. cbn. split; [assumption|].
    destruct (state v); cbn [pend app] in Hp; [exact Hp|].
    now apply has_terminator_cons in Hp.
  - destruct (state v) eqn:Hs.
    + rewrite switch_second_open by assumption. cbn. split; [assumption|].
      cbn [pend app] in Hp. now apply has_terminator_cons in Hp.
    + exfalso. cbn [pend app] in Hp.
      apply has_terminator_cons in Hp as [_ Hp]. now apply (Hp eq_refl q).
  - rewrite switch_other by assumption. cbn. split; [assumption|].
    destruct (state v); cbn [pend app] in Hp;
      [| apply has_terminator_cons in Hp as [Hp _]];
      apply has_terminator_cons in Hp as [Hp _]; exact Hp.
Qed.

(** Bytes that hold no terminating sequence never complete a message. *)
Lemma uncapped_payload tmo d q : forall rest v,
  timely tmo d ->
  messageDone v = false ->
  has_terminator (pend (state v) ++ q) = false ->
  not_done (uncapped tmo (arriving d q ++ rest) (length q) v).
Proof.
  induction q as [|c q IH]; intros rest v Ht Hd Hp.
  - exact Hd.
  - cbn [length arriving map app]. rewrite uncapped_cons by assumption.
    rewrite (sys_read_timely _ _ _ _ Ht).
    destruct (switch_buffer_payload c (uint16 (msgLength v + 1)) v q Hd Hp) as [Hd' Hp'].
    now apply IH.
Qed.

Lemma has_terminator_snoc u :
  has_terminator u = false -> has_terminator (u ++ [TERMINATING_FIRST_CHAR]) = false.
Proof.
  induction u as [|a u IH]; [reflexivity|].
  intros Hu. apply has_terminator_cons in Hu as [Hu Hfirst].
  cbn [app has_terminator]. rewrite (IH Hu), orb_false_r.
  destruct u as [|b u]; cbn [app]; apply andb_false_iff; [right; reflexivity|].
  destruct (ascii_dec a TERMINATING_FIRST_CHAR) as [-> | Ha].
  - right. apply Ascii.eqb_neq. intros ->. now apply (Hfirst eq_refl u).
  - left. now apply Ascii.eqb_neq.
Qed.

Lemma has_terminator_firstn u : forall k,
  has_terminator u = false -> has_terminator (firstn k u) = false.
Proof.
  induction u as [|a u IH]; intros k Hu; [now destruct k|].
  destruct k as [|k]; [reflexivity|].
  apply has_terminator_cons in Hu as [Hu Hfirst].
  cbn [firstn has_terminator]. rewrite (IH k Hu), orb_false_r.
  destruct k as [|k]; [reflexivity|].
  destruct u as [|b u]; [reflexivity|]. cbn [firstn].
  apply andb_false_iff.
  destruct (ascii_dec a TERMINATING_FIRST_CHAR) as [-> | Ha].
  - right. apply Ascii.eqb_neq. intros ->. now apply (Hfirst eq_refl u).
  - left. now apply Ascii.eqb_neq.
Qed.

(** A payload longer than the cap is refused with 301 SYNTAX ERROR. *)
Lemma readFromSocket_oversize `{Platform} m d u rest c :
  0 <= m <= 65533 ->
  sock_in c = arriving d (wire u) ++ rest ->
  timely (rcvtimeo c) d ->
  has_terminator u = false ->
  m < Z.of_nat (length u) ->
  send_budget c = None ->
  exists c', readFromSocket m c = (Throw (runtime_error "Message size out of bounds"), c')
             /\ sock_out c' = sock_out c ++ wire SERVER_SYNTAX_ERROR.
Proof.
  intros Hm Hin Ht Hu Hlen Hb.
  apply (readFromSocket_gives_up m c Hm Hb). right.
  set (k := Z.to_nat (m + 2)).
  assert (Hk : (k <= length (u ++ [TERMINATING_FIRST_CHAR]))%nat)
    by (rewrite length_app; cbn; lia).
  assert (Hsplit : wire u = firstn k (u ++ [TERMINATING_FIRST_CHAR])
                            ++ skipn k (u ++ [TERMINATING_FIRST_CHAR])
                            ++ [TERMINATING_SECOND_CHAR]).
  { rewrite app_assoc, firstn_skipn. unfold wire. now rewrite <- app_assoc. }
  assert (Hq : length (firstn k (u ++ [TERMINATING_FIRST_CHAR])) = k)
    by (apply firstn_length_le; exact Hk).
  assert (Hfree : has_terminator (firstn k (u ++ [TERMINATING_FIRST_CHAR])) = false)
    by apply has_terminator_firstn, has_terminator_snoc, Hu.
  rewrite Hin, Hsplit. unfold arriving. rewrite map_app, <- app_assoc.
  set (q := firstn k (u ++ [TERMINATING_FIRST_CHAR])) in *.
  rewrite <- Hq.
  apply (uncapped_payload (rcvtimeo c) d q); try assumption; reflexivity.
Qed.

(** ** The hash *)

Lemma byte_value_range c : 0 <= byte_value c < 256.
Proof.
  unfold byte_value. pose proof (N_ascii_bounded c). lia.
Qed.

Lemma fold_uint16 (f : ascii -> Z) u : forall a,
  fold_left (fun s c => uint16 (s + f c)) u (uint16 a)
  = uint16 (fold_left (fun s c => s + f c) u a).
Proof.
  induction u as [|c u IH]; intros a; [reflexivity|].
  cbn [fold_left]. rewrite <- IH. f_equal.
  unfold uint16. now rewrite Z.add_mod_idemp_l by lia.
Qed.

Lemma computeHash_sum `{Platform} key u :
  computeHash key u = (sum_of_chars u * 1000 + key) mod 65536.
Proof.
  unfold computeHash, sum_of_chars.
  change 0 with (uint16 0) at 1. rewrite (fold_uint16 char_value).
  unfold uint16.
  rewrite Z.mul_mod_idemp_l, Z.add_mod_idemp_l by lia. reflexivity.
Qed.

Lemma spec_hash_sum key u :
  spec_hash key u = (fold_left (fun s c => s + byte_value c) u 0 * 1000 + key) mod 65536.
Proof.
  unfold spec_hash, sum_of_bytes.
  change (fold_left (fun s c => (s + byte_value c) mod 65536) u 0)
    with (fold_left (fun s c => uint16 (s + byte_value c)) u (uint16 0)).
  rewrite (fold_uint16 byte_value).
  unfold uint16.
  rewrite <- (Z.add_mod_idemp_l (_ mod 65536 * 1000)) by lia.
  rewrite Z.mul_mod_idemp_l, Z.add_mod_idemp_l by lia. reflexivity.
Qed.

Lemma sum_of_chars_raw `{Platform} u : forall a,
  raw_chars u ->
  fold_left (fun s c => s + char_value c) u a = fold_left (fun s c => s + byte_value c) u a.
Proof.
  induction u as [|c u IH]; intros a Hraw; [reflexivity|].
  cbn [fold_left].
  assert (Hc : char_value c = byte_value c).
  { unfold char_value. destruct Hraw as [-> | Hall]; [reflexivity|].
    inversion Hall as [|? ? Hlt _]; subst.
    apply Z.leb_gt in Hlt. rewrite Hlt. now rewrite andb_false_r. }
  rewrite Hc. apply IH.
  destruct Hraw as [Hs | Hall]; [now left | right]. now inversion Hall.
Qed.

Lemma computeHash_spec `{Platform} key u :
  raw_chars u -> computeHash key u = spec_hash key u.
Proof.
  intros Hraw. rewrite computeHash_sum, spec_hash_sum.
  unfold sum_of_chars. now rewrite sum_of_chars_raw.
Qed.

Lemma authenticate_username `{Platform} fuel u c c1 :
  readMsg fuel CLIENT_USERNAME_LENGTH c = (Ret u, c1) ->
  authenticate fuel c
  = (sendResponse (to_string (computeHash SERVER_KEY u)) ;;; confirm fuel u) c1.
Proof.
  intros Hu. unfold authenticate. unfold bind at 1. now rewrite Hu.
Qed.

(** C2, as the code has it. The hash that [authenticate] sends for the
    user name [u] is the decimal string of
    [(s * 1000 + 54621) mod 65536], where [s] adds the characters of [u] as
    C++ promotes them; it is the hash of the specification, over the raw
    byte values, when plain [char] is unsigned or every byte of [u] is
    below 128. *)
Theorem server_hash `{Platform} (fuel : nat) (u : list ascii) (c c1 : ClientController) :
  readMsg fuel CLIENT_USERNAME_LENGTH c = (Ret u, c1) ->
  exists h,
    authenticate fuel c = (sendResponse (to_string h) ;;; confirm fuel u) c1
    /\ h = (sum_of_chars u * 1000 + 54621) mod 65536
    /\ (raw_chars u -> h = spec_hash SERVER_KEY u).
Proof.
  intros Hu. exists (computeHash SERVER_KEY u). split; [|split].
  - now apply authenticate_username.
  - apply computeHash_sum.
  - apply computeHash_spec.
Qed.

Lemma server_hash_witness :
  let c := accepted (frames ["Ab"%string]) None in
  let c1 := with_rcvtimeo TIMEOUT (accepted [] None) in
  exists h,
    @authenticate x86_64_linux 1 c
    = (sendResponse (to_string h) ;;; @confirm x86_64_linux 1 (str "Ab")) c1
    /\ h = (@sum_of_chars x86_64_linux (str "Ab") * 1000 + 54621) mod 65536
    /\ (@raw_chars x86_64_linux (str "Ab") -> h = spec_hash SERVER_KEY (str "Ab")).
Proof.
  apply (@server_hash x86_64_linux 1 (str "Ab")).
  reflexivity.
Defined.

(** C2 as stated fails where plain [char] is signed: for the one-byte user
    name 0xFF the server sends 53621, the hash over raw byte values is
    47477. *)
Lemma server_hash_counterexample :
  let c := accepted (arriving 0 (wire ["255"%char])) None in
  sock_out (snd (@authenticate x86_64_linux 1 c)) = wire (str "53621")
  /\ spec_hash SERVER_KEY ["255"%char] = 47477.
Proof. split; reflexivity. Qed.

(** ** The user name *)

(** C1, as the code has it. The user name is read with a cap of
    [CLIENT_USERNAME_LENGTH] = 10 bytes: a payload of at most 10 bytes
    (other than RECHARGING) is taken as the user name and answered with its
    hash, and a payload of more than 10 bytes makes the server send
    301 SYNTAX ERROR and end the session. *)
Theorem username_cap `{Platform} (fuel : nat) (d : Z) (u : list ascii)
    (rest : list event) (c : ClientController) :
  sock_in c = arriving d (wire u) ++ rest ->
  d < TIMEOUT ->
  has_terminator u = false ->
  send_budget c = None ->
  ((length u <= 10)%nat -> u <> CLIENT_RECHARGING ->
   authenticate (S fuel) c
   = confirm (S fuel) u
       (sent (wire (to_string (computeHash SERVER_KEY u))) None
          (with_in rest (with_rcvtimeo TIMEOUT c))))
  /\ ((10 < length u)%nat ->
      exists c',
        handleClientConnection (S fuel) c = (Ret tt, c')
        /\ session (S fuel) c = (Throw (runtime_error "Message size out of bounds"), c')
        /\ sock_out c' = sock_out c ++ wire SERVER_SYNTAX_ERROR).
Proof.
  intros Hin Hd Hu Hb. split.
  - intros Hlen Hne.
    rewrite (authenticate_username (S fuel) u c (with_in rest (with_rcvtimeo TIMEOUT c))).
    + unfold bind. now rewrite sendResponse_reliable by exact Hb.
    + apply readMsg_frame with (d := d); try assumption.
      unfold CLIENT_USERNAME_LENGTH, INT_MAX. lia.
  - intros Hlen.
    destruct (readFromSocket_oversize CLIENT_USERNAME_LENGTH d u rest
                (with_rcvtimeo TIMEOUT c)) as (c' & Hr & Hout); try assumption.
    + unfold CLIENT_USERNAME_LENGTH. lia.
    + right. exact Hd.
    + unfold CLIENT_USERNAME_LENGTH. lia.
    + exists c'.
      assert (Hs : session (S fuel) c
                   = (Throw (runtime_error "Message size out of bounds"), c')).
      { unfold session, authenticate. unfold bind. cbn [readMsg].
        unfold bind. unfold readFromSocketWithWait. now rewrite Hr. }
      split; [|split]; [| exact Hs | exact Hout].
      unfold handleClientConnection. now rewrite Hs.
Qed.

Lemma username_cap_witness :
  let c := accepted (frames ["Mnau!Mnau!"%string; "x"%string]) None in
  ((length (str "Mnau!Mnau!") <= 10)%nat -> str "Mnau!Mnau!" <> CLIENT_RECHARGING ->
   @authenticate x86_64_linux 1 c
   = @confirm x86_64_linux 1 (str "Mnau!Mnau!")
       (sent (wire (to_string (@computeHash x86_64_linux SERVER_KEY (str "Mnau!Mnau!")))) None
          (with_in (frames ["x"%string]) (with_rcvtimeo TIMEOUT c))))
  /\ ((10 < length (str "Mnau!Mnau!"))%nat ->
      exists c',
        @handleClientConnection x86_64_linux 1 c = (Ret tt, c')
        /\ @session x86_64_linux 1 c
           = (Throw (runtime_error "Message size out of bounds"), c')
        /\ sock_out c' = sock_out c ++ wire SERVER_SYNTAX_ERROR).
Proof.
  apply (@username_cap x86_64_linux 0%nat 0 (str "Mnau!Mnau!")).
  - reflexivity.
  - reflexivity.
  - reflexivity.
  - reflexivity.
Defined.

(** C1 as stated fails: a user name of 18 bytes is refused with
    301 SYNTAX ERROR as soon as its eleventh byte has been read. *)
Lemma username_cap_counterexample :
  let c := accepted (frames ["abcdefghijklmnopqr"%string; "12345"%string]) None in
  length (str "abcdefghijklmnopqr") = 18%nat
  /\ fst (@session x86_64_linux 1 c) = Throw (runtime_error "Message size out of bounds")
  /\ sock_out (snd (@session x86_64_linux 1 c)) = wire SERVER_SYNTAX_ERROR
  /\ length (sock_in (snd (@session x86_64_linux 1 c))) = (20 + 7 - 11)%nat.
Proof. repeat split. Qed.

(** ** The confirmation *)

Lemma isdigit_char `{Platform} c :
  isdigit (char_value c) = true -> char_value c = byte_value c /\ 48 <= byte_value c <= 57.
Proof.
  unfold isdigit, char_value. pose proof (byte_value_range c) as Hr.
  destruct (char_is_signed && (128 <=? byte_value c)) eqn:E; intros Hd;
    apply andb_true_iff in Hd as [H1 H2]; apply Z.leb_le in H1, H2; lia.
Qed.

Lemma digit_not c (k : ascii) :
  48 <= byte_value c <= 57 -> byte_value k < 48 \/ 57 < byte_value k -> (c =? k)%char = false.
Proof.
  intros Hc Hk. apply Ascii.eqb_neq. intros ->. lia.
Qed.

Lemma all_digits_no_terminator `{Platform} s :
  all_digits s -> has_terminator s = false.
Proof.
  induction 1 as [|c s Hc _ IH]; [reflexivity|].
  cbn [has_terminator]. rewrite IH, orb_false_r.
  destruct s; [reflexivity|].
  apply isdigit_char in Hc as [_ Hc].
  rewrite (digit_not c TERMINATING_FIRST_CHAR Hc); [reflexivity|].
  left. reflexivity.
Qed.

Lemma span_digits_all `{Platform} s : all_digits s -> span_digits s = (s, []).
Proof.
  induction 1 as [|c s Hc _ IH]; [reflexivity|].
  cbn [span_digits]. now rewrite Hc, IH.
Qed.

Lemma reject_non_digit_all `{Platform} s c : all_digits s -> reject_non_digit s c = (Ret tt, c).
Proof.
  induction 1 as [|a s Ha _ IH]; [reflexivity|].
  cbn [reject_non_digit]. now rewrite Ha.
Qed.

Lemma decimal_snoc ds : forall a,
  fold_left (fun n c => n * 10 + (byte_value c - 48)) ds a
  = a * 10 ^ Z.of_nat (length ds) + decimal ds.
Proof.
  unfold decimal. induction ds as [|c ds IH]; intros a.
  - cbn. lia.
  - cbn [fold_left length]. rewrite IH, (IH (0 * 10 + _)).
    rewrite Nat2Z.inj_succ, Z.pow_succ_r by lia. lia.
Qed.

Lemma decimal_range `{Platform} s :
  all_digits s -> 0 <= decimal s < 10 ^ Z.of_nat (length s).
Proof.
  induction 1 as [|c s Hc _ IH].
  - cbn. lia.
  - apply isdigit_char in Hc as [_ Hc].
    unfold decimal. cbn [fold_left length]. rewrite decimal_snoc.
    rewrite Nat2Z.inj_succ, Z.pow_succ_r by lia. nia.
Qed.

(** [std::stoi] on a string of one to nine digits. *)
Lemma stoi_digits `{Platform} s c :
  all_digits s -> (1 <= length s <= 9)%nat -> stoi s c = (Ret (decimal s), c).
Proof.
  intros Hs Hlen. pose proof (decimal_range s Hs) as Hr.
  assert (Hpow : 10 ^ Z.of_nat (length s) <= 10 ^ 9)
    by (apply Z.pow_le_mono_r; lia).
  unfold stoi.
  destruct s as [|a s]; [cbn in Hlen; lia|].
  pose proof Hs as Hs'. inversion Hs' as [|? ? Ha _]; subst.
  apply isdigit_char in Ha as [Hv Ha].
  assert (Hsp : isspace (char_value a) = false).
  { rewrite Hv. unfold isspace.
    apply orb_false_iff. split; [apply Z.eqb_neq; lia|].
    apply andb_false_iff. right. apply Z.leb_gt. lia. }
  cbn [skipws]. rewrite Hsp. unfold signed.
  rewrite (digit_not a "-"%char Ha), (digit_not a "+"%char Ha)
    by (left; reflexivity).
  rewrite (span_digits_all _ Hs).
  replace ((decimal (a :: s) <? - INT_MAX - 1) || (INT_MAX <? decimal (a :: s)))
    with false; [reflexivity|].
  symmetry. apply orb_false_iff. unfold INT_MAX.
  split; [apply Z.ltb_ge | apply Z.ltb_ge]; lia.
Qed.

Lemma reject_non_digit_some `{Platform} s c :
  ~ all_digits s ->
  reject_non_digit s c
  = (sendResponse SERVER_SYNTAX_ERROR ;;; throw (runtime_error "Authentication failed.")) c.
Proof.
  induction s as [|a s IH]; intros Hn.
  - exfalso. apply Hn. constructor.
  - cbn [reject_non_digit].
    destruct (isdigit (char_value a)) eqn:Ha; cbn [negb]; [|reflexivity].
    apply IH. intros Hs. apply Hn. now constructor.
Qed.

(** The confirmations that [confirm] refuses with 301 SYNTAX ERROR: more
    than five characters, or a character that is no digit. *)
Lemma confirm_malformed `{Platform} fuel d u s rest c :
  sock_in c = arriving d (wire s) ++ rest ->
  d < TIMEOUT ->
  send_budget c = None ->
  has_terminator s = false ->
  (length s <= 10)%nat ->
  s <> CLIENT_RECHARGING ->
  (5 < length s)%nat \/ ~ all_digits s ->
  confirm (S fuel) u c
  = (Throw (runtime_error "Authentication failed."),
     sent (wire SERVER_SYNTAX_ERROR) None (with_in rest (with_rcvtimeo TIMEOUT c))).
Proof.
  intros Hin Hd Hb Ht Hlen Hne Hbad.
  unfold confirm. unfold bind at 1.
  rewrite (readMsg_frame fuel CLIENT_CONFIRMATION_LENGTH d s rest); try assumption;
    [| unfold CLIENT_CONFIRMATION_LENGTH, INT_MAX; lia].
  destruct (5 <? Z.of_nat (length s)) eqn:Hlong.
  - unfold bind. rewrite sendResponse_reliable by exact Hb. reflexivity.
  - destruct Hbad as [Hbad | Hbad]; [apply Z.ltb_ge in Hlong; lia|].
    unfold bind at 1. rewrite (reject_non_digit_some s _ Hbad).
    unfold bind. rewrite sendResponse_reliable by exact Hb. reflexivity.
Qed.

(** An empty confirmation passes both checks; [std::stoi] then throws
    [std::invalid_argument], and nothing is sent. *)
Lemma confirm_empty `{Platform} fuel d u rest c :
  sock_in c = arriving d (wire []) ++ rest ->
  d < TIMEOUT ->
  confirm (S fuel) u c
  = (Throw (invalid_argument "stoi"), with_in rest (with_rcvtimeo TIMEOUT c)).
Proof.
  intros Hin Hd. unfold confirm. unfold bind at 1.
  rewrite (readMsg_frame fuel CLIENT_CONFIRMATION_LENGTH d [] rest); try assumption;
    try reflexivity; try discriminate.
  unfold CLIENT_CONFIRMATION_LENGTH, INT_MAX. cbn. lia.
Qed.

(** C3 at the empty confirmation: after the user name Ab the server has
    sent its hash 21013; the empty confirmation makes [std::stoi] throw
    [std::invalid_argument], which the handler of
    [handleClientConnection] does not catch, and no 301 SYNTAX ERROR is
    sent. *)
Theorem empty_confirmation_escapes :
  let c := accepted (frames ["Ab"%string; ""%string]) None in
  fst (@handleClientConnection x86_64_linux 1 c) = Throw (invalid_argument "stoi")
  /\ sock_out (snd (@handleClientConnection x86_64_linux 1 c)) = wire (str "21013")
  /\ sock_in (snd (@handleClientConnection x86_64_linux 1 c)) = [].
Proof. repeat split. Qed.

(** C4, as the code has it. A confirmation of one to five digits is
    converted by [std::stoi] and cut to 16 bits; 200 OK is sent exactly
    when the decimal value modulo 65536 equals
    [(s * 1000 + 45328) mod 65536], [s] being the sum of the characters of
    the user name, and otherwise 300 LOGIN FAILED is sent and the session
    ends. *)
Theorem confirm_well_formed `{Platform} (fuel : nat) (d : Z) (u s : list ascii)
    (rest : list event) (c : ClientController) :
  sock_in c = arriving d (wire s) ++ rest ->
  d < TIMEOUT ->
  send_budget c = None ->
  all_digits s ->
  (1 <= length s <= 5)%nat ->
  confirm (S fuel) u c
  = if decimal s mod 65536 =? (sum_of_chars u * 1000 + 45328) mod 65536
    then (Ret tt, sent (wire SERVER_OK) None (with_in rest (with_rcvtimeo TIMEOUT c)))
    else (Throw (runtime_error "Authentication failed."),
          sent (wire SERVER_LOGIN_FAILED) None (with_in rest (with_rcvtimeo TIMEOUT c))).
Proof.
  intros Hin Hd Hb Hs Hlen.
  unfold confirm. unfold bind at 1.
  rewrite (readMsg_frame fuel CLIENT_CONFIRMATION_LENGTH d s rest); try assumption.
  - replace (5 <? Z.of_nat (length s)) with false by (symmetry; apply Z.ltb_ge; lia).
    unfold bind at 1. rewrite reject_non_digit_all by assumption.
    unfold bind at 1. rewrite stoi_digits by (assumption || lia).
    rewrite computeHash_sum. unfold uint16, CLIENT_KEY.
    destruct (decimal s mod 65536 =? (sum_of_chars u * 1000 + 45328) mod 65536);
      cbn [negb]; unfold bind; rewrite sendResponse_reliable by exact Hb; reflexivity.
  - now apply all_digits_no_terminator.
  - unfold CLIENT_CONFIRMATION_LENGTH, INT_MAX. lia.
  - intros ->. cbn in Hlen. lia.
Qed.

Lemma confirm_well_formed_witness :
  let c := accepted (frames ["11720"%string]) None in
  @confirm x86_64_linux 1 (str "Ab") c
  = if decimal (str "11720") mod 65536
       =? (@sum_of_chars x86_64_linux (str "Ab") * 1000 + 45328) mod 65536
    then (Ret tt, sent (wire SERVER_OK) None (with_in [] (with_rcvtimeo TIMEOUT c)))
    else (Throw (runtime_error "Authentication failed."),
          sent (wire SERVER_LOGIN_FAILED) None (with_in [] (with_rcvtimeo TIMEOUT c))).
Proof.
  apply (@confirm_well_formed x86_64_linux 0%nat 0 (str "Ab") (str "11720") []).
  - reflexivity.
  - reflexivity.
  - reflexivity.
  - repeat constructor.
  - cbn. lia.
Defined.

(** C4 as stated fails: for the user name a the expected confirmation is
    11256; the five digits 76792 exceed 65535, are congruent to 11256
    modulo 65536, and are answered with 200 OK. *)
Lemma confirm_well_formed_counterexample :
  let c := accepted (frames ["a"%string; "76792"%string]) None in
  spec_hash CLIENT_KEY (str "a") = 11256
  /\ decimal (str "76792") = 76792
  /\ @authenticate x86_64_linux 1 c
     = (Ret tt, sent (wire (str "20549") ++ wire SERVER_OK) None
                  (with_rcvtimeo TIMEOUT (accepted [] None))).
Proof. repeat split. Qed.

(** ** What a read leaves alone *)

Lemma same_robot_refl c : same_robot c c.
Proof. split; reflexivity. Qed.

Lemma same_robot_trans c1 c2 c3 : same_robot c1 c2 -> same_robot c2 c3 -> same_robot c1 c3.
Proof. intros [H1 H2] [H3 H4]. split; congruence. Qed.

Lemma sendResponse_same_robot msg c r c' :
  sendResponse msg c = (r, c') -> same_robot c c'.
Proof.
  unfold sendResponse.
  destruct (send_budget c) as [[|k]|]; intros [= _ <-]; split; reflexivity.
Qed.

Lemma readFromSocket_same_robot `{Platform} m c r c' :
  readFromSocket m c = (r, c') -> same_robot c c'.
Proof.
  unfold readFromSocket.
  destruct (read_loop m (rcvtimeo c) (sock_in c) read_start) as [[q| | |] rest];
    try (intros [= _ <-]; split; reflexivity).
  unfold bind.
  destruct (sendResponse SERVER_SYNTAX_ERROR (with_in rest c)) as [[[]| |] c1] eqn:Hs;
    apply sendResponse_same_robot in Hs; intros [= _ <-]; exact Hs.
Qed.

Lemma readMsg_same_robot `{Platform} fuel m : forall c r c',
  readMsg fuel m c = (r, c') -> same_robot c c'.
Proof.
  induction fuel as [|fuel IH]; intros c r c'.
  - intros [= _ <-]. split; reflexivity.
  - cbn [readMsg]. unfold bind at 1. unfold readFromSocketWithWait at 1.
    destruct (readFromSocket m (with_rcvtimeo TIMEOUT c)) as [[msg| |] c1] eqn:H1;
      apply readFromSocket_same_robot in H1;
      try (intros [= _ <-]; exact H1).
    destruct (str_eq_dec msg CLIENT_RECHARGING); [|intros [= _ <-]; exact H1].
    unfold bind at 1. unfold readFromSocketWithWait at 1.
    destruct (readFromSocket CLIENT_FULL_POWER_LENGTH (with_rcvtimeo TIMEOUT_RECHARGING c1))
      as [[msg2| |] c2] eqn:H2;
      apply readFromSocket_same_robot in H2;
      try (intros [= _ <-]; eapply same_robot_trans; eassumption).
    destruct (str_eq_dec msg2 CLIENT_FULL_POWER).
    + intros H3. apply IH in H3.
      eapply same_robot_trans; [|exact H3]. eapply same_robot_trans; eassumption.
    + unfold bind.
      destruct (sendResponse SERVER_LOGIC_ERROR c2) as [[[]| |] c3] eqn:Hs;
        apply sendResponse_same_robot in Hs; intros [= _ <-];
        (eapply same_robot_trans; [|exact Hs]); eapply same_robot_trans; eassumption.
Qed.

Lemma pickSecretMsg_same_robot `{Platform} fuel c r c' :
  pickSecretMsg fuel c = (r, c') -> same_robot c c'.
Proof.
  unfold pickSecretMsg. unfold bind at 1.
  destruct (sendResponse SERVER_PICK_UP c) as [[[]| |] c1] eqn:Hs;
    apply sendResponse_same_robot in Hs; try (intros [= _ <-]; exact Hs).
  unfold bind.
  destruct (readMsg fuel CLIENT_MESSAGE_LENGTH c1) as [[msg| |] c2] eqn:Hr;
    apply readMsg_same_robot in Hr; intros [= _ <-];
    eapply same_robot_trans; eassumption.
Qed.

(** ** Heading inference *)

(** C5, as the code has it. When the move of [getDirection] changes both
    coordinates, heading inference throws the logic error of
    [updateDirection] in the state the move left: the heading is not set and
    nothing is sent, in particular no 302 LOGIC ERROR. *)
Theorem heading_inference_both_axes `{Platform} (fuel : nat) (c c1 : ClientController) :
  moveRobot fuel c = (Ret tt, c1) ->
  x (position c1) <> x (position c) ->
  y (position c1) <> y (position c) ->
  getDirection fuel c = (Throw (logic_error "Same position in updateDirection"), c1).
Proof.
  intros Hmove Hx Hy.
  unfold getDirection. unfold bind at 1, get_position.
  unfold bind at 1. rewrite Hmove.
  unfold bind, get_position, updateDirection.
  apply Z.eqb_neq in Hx, Hy.
  rewrite Z.eqb_sym in Hx. rewrite Z.eqb_sym in Hy.
  now rewrite Hx, Hy.
Qed.

Lemma heading_inference_both_axes_witness :
  let c := with_position {| x := 1; y := 1 |} (accepted (frames ["OK 2 2"%string]) None) in
  let c1 := with_position {| x := 2; y := 2 |}
              (with_in [] (with_rcvtimeo TIMEOUT (sent (wire SERVER_MOVE) None c))) in
  @getDirection x86_64_linux 1 c
  = (Throw (logic_error "Same position in updateDirection"), c1).
Proof.
  apply (@heading_inference_both_axes x86_64_linux 1).
  - reflexivity.
  - discriminate.
  - discriminate.
Defined.

(** C5 as stated fails: the robot reports (1, 1) and then (2, 2); the
    server has sent its hash, 200 OK and two 102 MOVE, and nothing more: no
    302 LOGIC ERROR. The logic error leaves [handleClientConnection]. *)
Lemma heading_inference_counterexample :
  let c := accepted (frames ["Ab"; "11720"; "OK 1 1"; "OK 2 2"]%string) None in
  fst (@handleClientConnection x86_64_linux 2 c)
  = Throw (logic_error "Same position in updateDirection")
  /\ sock_out (snd (@handleClientConnection x86_64_linux 2 c))
     = wire (str "21013") ++ wire SERVER_OK ++ wire SERVER_MOVE ++ wire SERVER_MOVE.
Proof. split; reflexivity. Qed.

(** ** The sweep *)

(** On the cells of steps 0 to 23 the loop computes the cell of the next
    step, which lies in the patch. *)
Lemma next_target_serpentine :
  forallb (fun k => Position_eqb (next_target (cell_of_step (Z.of_nat k)))
                                 (cell_of_step (Z.of_nat k + 1))
                    && in_patch (next_target (cell_of_step (Z.of_nat k))))
          (seq 0 24) = true.
Proof. reflexivity. Qed.

Lemma navigate_down `{Platform} fuel target c :
  0 < int (y (position c) - y target) ->
  navigate fuel target c = (rotateTo fuel DOWN ;;; moveRobot fuel) c.
Proof.
  intros Hy. unfold navigate. unfold bind at 1, get_position.
  apply Z.ltb_lt in Hy. now rewrite Hy.
Qed.

(** C6, as the code has it. The sweep has no last step: when the pick-up
    on the cell of step 24, (2, -2), returns an empty payload, the loop
    computes step 25, whose cell (2, -3) lies outside the patch, and
    navigates towards it: it turns the robot to face down and moves it. *)
Theorem sweep_leaves_patch `{Platform} (fuel : nat) (c c1 : ClientController) :
  position c = cell_of_step 24 ->
  pickSecretMsg (S fuel) c = (Ret false, c1) ->
  next_target (position c1) = {| x := 2; y := -3 |}
  /\ in_patch (next_target (position c1)) = false
  /\ sweep (S fuel) c = (navigate (S fuel) {| x := 2; y := -3 |} ;;; sweep fuel) c1
  /\ navigate (S fuel) {| x := 2; y := -3 |} c1
     = (rotateTo (S fuel) DOWN ;;; moveRobot (S fuel)) c1.
Proof.
  intros Hp Hpick.
  destruct (pickSecretMsg_same_robot _ _ _ _ Hpick) as [Hpos _].
  rewrite Hp in Hpos.
  split; [|split; [|split]].
  - now rewrite Hpos.
  - now rewrite Hpos.
  - cbn [sweep]. unfold bind at 1. rewrite Hpick.
    unfold bind at 1, get_position. now rewrite Hpos.
  - apply navigate_down. now rewrite Hpos.
Qed.

Lemma sweep_leaves_patch_witness :
  let c := with_position {| x := 2; y := -2 |}
             (with_direction RIGHT
                (accepted (frames [""; "OK 2 -2"; "OK 2 -3"]%string) None)) in
  let c1 := with_in (frames ["OK 2 -2"; "OK 2 -3"]%string)
              (with_rcvtimeo TIMEOUT (sent (wire SERVER_PICK_UP) None c)) in
  next_target (position c1) = {| x := 2; y := -3 |}
  /\ in_patch (next_target (position c1)) = false
  /\ @sweep x86_64_linux 2 c
     = (@navigate x86_64_linux 2 {| x := 2; y := -3 |} ;;; @sweep x86_64_linux 1) c1
  /\ @navigate x86_64_linux 2 {| x := 2; y := -3 |} c1
     = (@rotateTo x86_64_linux 2 DOWN ;;; @moveRobot x86_64_linux 2) c1.
Proof.
  apply (@sweep_leaves_patch x86_64_linux 1).
  - reflexivity.
  - reflexivity.
Defined.

(** C6 as stated fails: after 25 empty pick-ups on the cells of the patch
    the server does not give up; it turns the robot right, moves it to
    (2, -3), asks for the message a 26th time there and, receiving one, logs
    the robot out. *)
Lemma sweep_leaves_patch_counterexample :
  let r := @handleClientConnection x86_64_linux 70
             (accepted (frames empty_patch_client) None) in
  fst r = Ret tt
  /\ position (snd r) = {| x := 2; y := -3 |}
  /\ in_patch (position (snd r)) = false
  /\ count_occ string_dec (unwire (sock_out (snd r))) "105 GET MESSAGE"%string = 26%nat
  /\ skipn 60 (unwire (sock_out (snd r)))
     = ["105 GET MESSAGE"; "104 TURN RIGHT"; "102 MOVE"; "105 GET MESSAGE";
        "106 LOGOUT"]%string.
Proof. vm_compute. repeat split. Qed.

(** ** Rotation with an unknown heading *)

Lemma rotateRight_unknown `{Platform} fuel d msg p rest c :
  direction c = UNKNOWN ->
  send_budget c = None ->
  sock_in c = arriving d (wire msg) ++ rest ->
  d < TIMEOUT ->
  confirms msg p ->
  rotateRight (S fuel) c
  = (Ret tt, with_position p
               (with_in rest (with_rcvtimeo TIMEOUT (sent (wire SERVER_TURN_RIGHT) None c)))).
Proof.
  intros Hdir Hb Hin Hd (Hparse & Hterm & Hlen & Hne).
  unfold rotateRight. unfold bind at 1.
  rewrite sendResponse_reliable by exact Hb.
  unfold bind at 1.
  rewrite (readMsg_frame fuel CLIENT_OK_LENGTH d msg rest); try assumption;
    [| unfold CLIENT_OK_LENGTH, INT_MAX; lia].
  unfold bind at 1. unfold updatePosition. rewrite Hparse.
  unfold set_position, bind, get_direction. cbn [direction with_position with_in
    with_rcvtimeo sent]. now rewrite Hdir.
Qed.

Lemma rotateTo_unknown_step `{Platform} fuel to c :
  direction c = UNKNOWN -> to <> UNKNOWN ->
  rotateTo (S fuel) to c = (rotateRight (S fuel) ;;; rotateTo fuel to) c.
Proof.
  intros Hdir Hto. cbn [rotateTo]. unfold bind at 1, get_direction. rewrite Hdir.
  destruct (Direction_eq_dec UNKNOWN to) as [<- | _]; [congruence|].
  destruct to; [congruence | reflexivity ..].
Qed.

Lemma updatePosition_direction `{Platform} msg c r c' :
  updatePosition msg c = (r, c') -> direction c' = direction c.
Proof.
  unfold updatePosition. destruct (parse_confirmation msg).
  - intros [= _ <-]. reflexivity.
  - unfold bind.
    destruct (sendResponse SERVER_SYNTAX_ERROR c) as [[[]| |] c1] eqn:Hs;
      apply sendResponse_same_robot in Hs as [_ Hs]; intros [= _ <-]; exact Hs.
Qed.





Lemma replies_cons d msg msgs rest :
  replies d (msg :: msgs) ++ rest = arriving d (wire msg) ++ replies d msgs ++ rest.
Proof. unfold replies. cbn [map concat]. now rewrite <- app_assoc. Qed.

(** Every confirmed turn leaves the rotation where it was, one
    104 TURN RIGHT later. *)
Lemma rotateTo_unknown_confirmed `{Platform} d to msgs rest fuel : forall c,
  direction c = UNKNOWN -> to <> UNKNOWN ->
  send_budget c = None ->
  d < TIMEOUT ->
  Forall (fun msg => exists p, confirms msg p) msgs ->
  sock_in c = replies d msgs ++ rest ->
  exists c',
    rotateTo (length msgs + fuel) to c = rotateTo fuel to c'
    /\ direction c' = UNKNOWN
    /\ sock_in c' = rest
    /\ sock_out c' = sock_out c ++ concat (repeat (wire SERVER_TURN_RIGHT) (length msgs)).
Proof.
  induction msgs as [|msg msgs IH]; intros c Hdir Hto Hb Hd Hall Hin.
  - exists c. cbn. now rewrite app_nil_r.
  - inversion Hall as [|? ? [p Hp] Hall']; subst.
    rewrite replies_cons in Hin.
    cbn [length Nat.add]. rewrite rotateTo_unknown_step by assumption.
    unfold bind at 1.
    rewrite (rotateRight_unknown _ d msg p (replies d msgs ++ rest)); try assumption.
    destruct (IH (with_position p
                    (with_in (replies d msgs ++ rest)
                       (with_rcvtimeo TIMEOUT (sent (wire SERVER_TURN_RIGHT) None c)))))
      as (c' & Hrot & Hdir' & Hin' & Hout); try assumption; try reflexivity.
    exists c'. split; [exact Hrot|]. split; [exact Hdir'|]. split; [exact Hin'|].
    rewrite Hout. cbn [sock_out with_position with_in with_rcvtimeo sent].
    cbn [repeat concat]. now rewrite <- app_assoc.
Qed.

(** Only an exception ends the rotation: when the robot stops answering,
    the read of the confirmation times out after one more
    104 TURN RIGHT. *)
Example rotateTo_unknown_silent :
  let c := accepted [] None in
  @rotateTo x86_64_linux 1 UP c
  = (Throw (runtime_error "Timeout fired"),
     with_in [] (with_rcvtimeo TIMEOUT (sent (wire SERVER_TURN_RIGHT) None c))).
Proof. reflexivity. Qed.

(** The state of C10 is reached by a session: the first move lands on the
    target, heading inference is skipped, the pick-up is empty, and the
    sweep asks for a rotation towards the next cell. The robot confirms
    three turns; the server has then sent four. *)
Example unknown_heading_reached :
  let r := @handleClientConnection x86_64_linux 10
             (accepted (frames ["Ab"; "11720"; "OK -2 2"; "";
                                "OK -2 2"; "OK -2 2"; "OK -2 2"]%string) None) in
  fst r = Ret tt
  /\ direction (snd r) = UNKNOWN
  /\ unwire (sock_out (snd r))
     = ["21013"; "200 OK"; "102 MOVE"; "105 GET MESSAGE";
        "104 TURN RIGHT"; "104 TURN RIGHT"; "104 TURN RIGHT"; "104 TURN RIGHT"]%string.
Proof. vm_compute. repeat split. Qed.

(** ** Termination

    Every read takes an event from a finite input or fails, so a run whose
    fuel exceeds the number of events still to come never exhausts it. *)

Lemma drops_weaken {A} n k (m : M A) c : (k <= n)%nat -> drops n m c -> drops k m c.
Proof.
  unfold drops. destruct (m c) as [[a| |] c']; intros Hk Hd; try exact Hd. lia.
Qed.

Lemma drops_bind {A B} n k (m : M A) (f : A -> M B) c :
  drops n m c ->
  (forall a c', m c = (Ret a, c') ->
                (length (sock_in c') + n <= length (sock_in c))%nat ->
                drops k (f a) c') ->
  drops (n + k) (bind m f) c.
Proof.
  unfold drops at 1 3. unfold bind.
  destruct (m c) as [[a| |] c'] eqn:Hm; intros Hn Hk; try exact Hn.
  specialize (Hk a c' eq_refl Hn). unfold drops in Hk.
  destruct (f a c') as [[b| |] c'']; try exact Hk. lia.
Qed.

Lemma drops_ret {A} (a : A) c : drops 0 (ret a) c.
Proof. unfold drops, ret. lia. Qed.

Lemma drops_throw {A} e c n : drops n (@throw A e) c.
Proof. exact I. Qed.

Lemma drops_sendResponse msg c : drops 0 (sendResponse msg) c.
Proof.
  unfold drops, sendResponse.
  destruct (send_budget c) as [[|k]|]; cbn; try exact I; lia.
Qed.

Lemma sendResponse_sock_in msg c r c' :
  sendResponse msg c = (r, c') -> sock_in c' = sock_in c.
Proof.
  unfold sendResponse.
  destruct (send_budget c) as [[|k]|]; intros [= _ <-]; reflexivity.
Qed.

Lemma read_loop_drops m tmo : forall evs v,
  tmo <> 0 ->
  match read_loop m tmo evs v with
  | (Blocked, _) => False
  | (Complete _, rest) => (length rest + 1 <= length evs)%nat
  | _ => True
  end.
Proof.
  induction evs as [|e evs IH]; intros v Ht.
  - rewrite read_loop_nil. apply Z.eqb_neq in Ht. rewrite Ht.
    now destruct (exceeds _ _).
  - rewrite read_loop_step.
    destruct (exceeds _ _); [exact I|].
    destruct (sys_read tmo (buffer v) e) as [b|]; [|exact I].
    destruct (overflows _ _); [exact I|].
    destruct (messageDone _).
    + cbn [length]. lia.
    + specialize (IH (switch_buffer b (uint16 (msgLength v + 1)) v) Ht).
      destruct (read_loop m tmo evs _) as [[p| | |] rest]; try exact IH.
      cbn [length]. lia.
Qed.

Lemma drops_readFromSocket `{Platform} m c : rcvtimeo c <> 0 -> drops 1 (readFromSocket m) c.
Proof.
  intros Ht. unfold drops, readFromSocket.
  pose proof (read_loop_drops m (rcvtimeo c) (sock_in c) read_start Ht) as Hr.
  destruct (read_loop m (rcvtimeo c) (sock_in c) read_start) as [[p| | |] rest];
    try exact Hr; try exact I.
  unfold bind, sendResponse, throw.
  now destruct (send_budget (with_in rest c)) as [[|k]|].
Qed.

Lemma drops_readFromSocketWithWait `{Platform} m t c :
  t <> 0 -> drops 1 (readFromSocketWithWait m t) c.
Proof.
  intros Ht. pose proof (drops_readFromSocket m (with_rcvtimeo t c) Ht) as Hd.
  unfold drops in *. unfold readFromSocketWithWait. exact Hd.
Qed.

Lemma drops_readMsg `{Platform} m : forall fuel c,
  (length (sock_in c) < fuel)%nat -> drops 1 (readMsg fuel m) c.
Proof.
  induction fuel as [|fuel IH]; intros c Hf; [lia|].
  cbn [readMsg].
  apply (drops_bind 1 0 (readFromSocketWithWait m TIMEOUT)).
  - apply drops_readFromSocketWithWait. discriminate.
  - intros msg c1 _ Hle1.
    destruct (str_eq_dec msg CLIENT_RECHARGING); [|apply drops_ret].
    apply (drops_weaken 1); [lia|].
    apply (drops_bind 1 0
             (readFromSocketWithWait CLIENT_FULL_POWER_LENGTH TIMEOUT_RECHARGING)).
    + apply drops_readFromSocketWithWait. discriminate.
    + intros msg2 c2 _ Hle2.
      destruct (str_eq_dec msg2 CLIENT_FULL_POWER).
      * apply (drops_weaken 1); [lia|]. apply IH. lia.
      * apply (drops_bind 0 0); [apply drops_sendResponse|].
        intros. apply drops_throw.
Qed.

Lemma drops_state {A} (m : M A) c a :
  m c = (Ret a, c) -> drops 0 m c.
Proof. unfold drops. intros ->. lia. Qed.

Lemma drops_updatePosition `{Platform} msg c : drops 0 (updatePosition msg) c.
Proof.
  unfold updatePosition. destruct (parse_confirmation msg) as [p|].
  - unfold drops, set_position. cbn. lia.
  - apply (drops_bind 0 0); [apply drops_sendResponse|].
    intros. apply drops_throw.
Qed.

Lemma drops_moveRobot `{Platform} : forall fuel c,
  (length (sock_in c) < fuel)%nat -> drops 1 (moveRobot fuel) c.
Proof.
  induction fuel as [|fuel IH]; intros c Hf; [lia|].
  cbn [moveRobot].
  apply (drops_bind 0 1); [now apply (drops_state _ _ (position c))|].
  intros lastPosition c1 _ Hle1.
  apply (drops_bind 0 1); [apply drops_sendResponse|].
  intros _ c2 _ Hle2.
  apply (drops_bind 1 0); [apply drops_readMsg; lia|].
  intros pos c3 _ Hle3.
  apply (drops_bind 0 0); [apply drops_updatePosition|].
  intros _ c4 _ Hle4.
  apply (drops_bind 0 0); [unfold drops, positionEquals; cbn; lia|].
  intros same c5 _ Hle5.
  destruct same; [|apply drops_ret].
  apply (drops_weaken 1); [lia|]. apply IH. lia.
Qed.

Lemma drops_turn `{Platform} fuel command (turned : Direction -> M unit) c :
  (length (sock_in c) < fuel)%nat ->
  (forall d c', drops 0 (turned d) c') ->
  drops 1 (sendResponse command ;;;
           pos <- readMsg fuel CLIENT_OK_LENGTH ;;
           updatePosition pos ;;;
           d <- get_direction ;;
           turned d) c.
Proof.
  intros Hf Hturned.
  apply (drops_bind 0 1); [apply drops_sendResponse|].
  intros _ c1 _ Hle1.
  apply (drops_bind 1 0); [apply drops_readMsg; lia|].
  intros pos c2 _ Hle2.
  apply (drops_bind 0 0); [apply drops_updatePosition|].
  intros _ c3 _ Hle3.
  apply (drops_bind 0 0); [now apply (drops_state _ _ (direction c3))|].
  intros d c4 _ _. apply Hturned.
Qed.

Lemma drops_rotateLeft `{Platform} fuel c :
  (length (sock_in c) < fuel)%nat -> drops 1 (rotateLeft fuel) c.
Proof.
  intros Hf. apply drops_turn; [exact Hf|].
  intros d c'. destruct d; unfold drops, set_direction, ret; cbn; lia.
Qed.

Lemma drops_rotateRight `{Platform} fuel c :
  (length (sock_in c) < fuel)%nat -> drops 1 (rotateRight fuel) c.
Proof.
  intros Hf. apply drops_turn; [exact Hf|].
  intros d c'. destruct d; unfold drops, set_direction, ret; cbn; lia.
Qed.

Lemma drops_rotateTo `{Platform} to : forall fuel c,
  (length (sock_in c) < fuel)%nat -> drops 0 (rotateTo fuel to) c.
Proof.
  induction fuel as [|fuel IH]; intros c Hf; [lia|].
  cbn [rotateTo].
  apply (drops_bind 0 0); [now apply (drops_state _ _ (direction c))|].
  intros d c1 _ Hle1.
  destruct (Direction_eq_dec d to); [apply drops_ret|].
  apply (drops_weaken 1); [lia|].
  apply (drops_bind 1 0).
  - destruct (0 <? _); [apply drops_rotateRight | apply drops_rotateLeft]; lia.
  - intros _ c2 _ Hle2. apply IH. lia.
Qed.

Lemma drops_navigate `{Platform} fuel target c :
  (length (sock_in c) < fuel)%nat -> drops 1 (navigate fuel target) c.
Proof.
  intros Hf. unfold navigate.
  apply (drops_bind 0 1); [now apply (drops_state _ _ (position c))|].
  intros p c1 _ Hle1.
  assert (Hgo : forall to, drops 1 (rotateTo fuel to ;;; moveRobot fuel) c1).
  { intros to. apply (drops_bind 0 1); [apply drops_rotateTo; lia|].
    intros _ c2 _ Hle2. apply drops_moveRobot. lia. }
  destruct (0 <? _); [apply Hgo|].
  destruct (_ <? 0); [apply Hgo|].
  destruct (_ <? 0); apply Hgo.
Qed.

Lemma drops_pickSecretMsg `{Platform} fuel c :
  (length (sock_in c) < fuel)%nat -> drops 1 (pickSecretMsg fuel) c.
Proof.
  intros Hf. unfold pickSecretMsg.
  apply (drops_bind 0 1); [apply drops_sendResponse|].
  intros _ c1 _ Hle1.
  apply (drops_bind 1 0); [apply drops_readMsg; lia|].
  intros. apply drops_ret.
Qed.

Lemma drops_approach `{Platform} target : forall fuel c,
  (length (sock_in c) < fuel)%nat -> drops 0 (approach fuel target) c.
Proof.
  induction fuel as [|fuel IH]; intros c Hf; [lia|].
  cbn [approach].
  apply (drops_bind 0 0); [unfold drops, positionEquals; cbn; lia|].
  intros there c1 _ Hle1.
  destruct there; [apply drops_ret|].
  apply (drops_weaken 1); [lia|].
  apply (drops_bind 1 0); [apply drops_navigate; lia|].
  intros _ c2 _ Hle2. apply IH. lia.
Qed.

Lemma drops_sweep `{Platform} : forall fuel c,
  (length (sock_in c) < fuel)%nat -> drops 1 (sweep fuel) c.
Proof.
  induction fuel as [|fuel IH]; intros c Hf; [lia|].
  cbn [sweep].
  apply (drops_bind 1 0); [apply drops_pickSecretMsg; lia|].
  intros found c1 _ Hle1.
  destruct found; [apply drops_ret|].
  apply (drops_bind 0 0); [now apply (drops_state _ _ (position c1))|].
  intros p c2 _ Hle2.
  apply (drops_weaken 2); [lia|].
  apply (drops_bind 1 1); [apply drops_navigate; lia|].
  intros _ c3 _ Hle3. apply IH. lia.
Qed.

Lemma drops_reject_non_digit `{Platform} s c : drops 0 (reject_non_digit s) c.
Proof.
  induction s as [|a s IH]; [apply drops_ret|].
  cbn [reject_non_digit]. destruct (negb _); [|exact IH].
  apply (drops_bind 0 0); [apply drops_sendResponse|].
  intros. apply drops_throw.
Qed.

Lemma drops_stoi `{Platform} s c : drops 0 (stoi s) c.
Proof.
  unfold stoi. destruct (signed (skipws s)) as [negative s1].
  destruct (span_digits s1) as [[|a ds] rest]; [apply drops_throw|].
  destruct (_ || _); [apply drops_throw | apply drops_ret].
Qed.

Lemma drops_authenticate `{Platform} fuel c :
  (length (sock_in c) < fuel)%nat -> drops 2 (authenticate fuel) c.
Proof.
  intros Hf. unfold authenticate.
  apply (drops_bind 1 1); [apply drops_readMsg; lia|].
  intros userName c1 _ Hle1.
  apply (drops_bind 0 1); [apply drops_sendResponse|].
  intros _ c2 _ Hle2. unfold confirm.
  apply (drops_bind 1 0); [apply drops_readMsg; lia|].
  intros clientHash c3 _ Hle3.
  assert (Hsend : forall msg c',
             drops 0 (sendResponse msg ;;;
                      @throw unit (runtime_error "Authentication failed.")) c').
  { intros msg c'. apply (drops_bind 0 0); [apply drops_sendResponse|].
    intros. apply drops_throw. }
  destruct (5 <? _); [apply Hsend|].
  apply (drops_bind 0 0); [apply drops_reject_non_digit|].
  intros _ c4 _ Hle4.
  apply (drops_bind 0 0); [apply drops_stoi|].
  intros n c5 _ Hle5.
  destruct (negb _); [apply Hsend | apply drops_sendResponse].
Qed.

Lemma drops_getDirection `{Platform} fuel c :
  (length (sock_in c) < fuel)%nat -> drops 1 (getDirection fuel) c.
Proof.
  intros Hf. unfold getDirection.
  apply (drops_bind 0 1); [now apply (drops_state _ _ (position c))|].
  intros lastPosition c1 _ Hle1.
  apply (drops_bind 1 0); [apply drops_moveRobot; lia|].
  intros _ c2 _ Hle2.
  apply (drops_bind 0 0); [now apply (drops_state _ _ (position c2))|].
  intros newPosition c3 _ Hle3.
  unfold updateDirection, drops, set_direction, throw.
  destruct (_ =? _); [destruct (_ <? _); cbn; lia|].
  destruct (_ =? _); [destruct (_ <? _); cbn; lia | exact I].
Qed.

Lemma drops_session `{Platform} fuel c :
  (length (sock_in c) < fuel)%nat -> drops 4 (session fuel) c.
Proof.
  intros Hf. unfold session.
  apply (drops_bind 2 2); [apply drops_authenticate; lia|].
  intros _ c1 _ Hle1.
  apply (drops_bind 1 1); [apply drops_moveRobot; lia|].
  intros _ c2 _ Hle2.
  apply (drops_bind 0 1); [unfold drops, positionEquals; cbn; lia|].
  intros there c3 _ Hle3.
  apply (drops_bind 0 1).
  - destruct there; cbn [negb]; [apply drops_ret|].
    apply (drops_weaken 1); [lia|].
    apply (drops_bind 1 0); [apply drops_getDirection; lia|].
    intros _ c4 _ Hle4. apply drops_approach. lia.
  - intros _ c4 _ Hle4.
    apply (drops_bind 1 0); [apply drops_sweep; lia|].
    intros. apply drops_sendResponse.
Qed.

(** With more fuel than events to come the session never hangs: it ends by
    returning or by an exception. *)
Lemma handleClientConnection_ends `{Platform} fuel c :
  (length (sock_in c) < fuel)%nat ->
  fst (handleClientConnection fuel c) <> Hang.
Proof.
  intros Hf. pose proof (drops_session fuel c Hf) as Hd.
  unfold drops in Hd. unfold handleClientConnection.
  destruct (session fuel c) as [[[]| [] |] c']; cbn; try discriminate.
  destruct Hd.
Qed.

(** ** Scenarios *)

(** FULL POWER that takes three seconds per byte arrives in time under the
    recharging timeout; the confirmation behind it is what [readMsg]
    returns, and the short timeout is in force again. *)
Example recharging_three_seconds :
  let c := accepted (arriving 0 (wire CLIENT_RECHARGING)
                     ++ arriving 3 (wire CLIENT_FULL_POWER)
                     ++ arriving 0 (wire (str "OK 0 1"))) None in
  @readMsg x86_64_linux 2 CLIENT_OK_LENGTH c
  = (Ret (str "OK 0 1"), with_in [] (with_rcvtimeo TIMEOUT c)).
Proof. reflexivity. Qed.

(** The same delay outside a recharge is a timeout. *)
Example three_seconds_without_recharging :
  let c := accepted (arriving 3 (wire (str "OK 0 1"))) None in
  fst (@readMsg x86_64_linux 2 CLIENT_OK_LENGTH c) = Throw (runtime_error "Timeout fired").
Proof. reflexivity. Qed.

(** Anything but FULL POWER after RECHARGING is answered with 302. *)
Example recharging_interrupted :
  let c := accepted (frames ["RECHARGING"; "OK 0 1"]%string) None in
  fst (@readMsg x86_64_linux 2 CLIENT_OK_LENGTH c)
  = Throw (runtime_error "Expected full power message.")
  /\ sock_out (snd (@readMsg x86_64_linux 2 CLIENT_OK_LENGTH c)) = wire SERVER_LOGIC_ERROR.
Proof. split; reflexivity. Qed.

(** Where plain [char] is unsigned the hash of the byte 0xFF is the one of
    the specification. *)
Example server_hash_unsigned :
  @computeHash aarch64_linux SERVER_KEY ["255"%char] = spec_hash SERVER_KEY ["255"%char].
Proof. reflexivity. Qed.

(** The session of the specification with the robot on the target after its
    first move. *)
Example robot_on_target :
  let r := @handleClientConnection x86_64_linux 5
             (accepted (frames ["Ab"; "11720"; "OK -2 2"; "the secret"]%string) None) in
  fst r = Ret tt
  /\ unwire (sock_out (snd r))
     = ["21013"; "200 OK"; "102 MOVE"; "105 GET MESSAGE"; "106 LOGOUT"]%string.
Proof. vm_compute. repeat split. Qed.

(** The cap of the user name at its boundary. *)
Example username_of_ten_bytes :
  let r := @handleClientConnection x86_64_linux 3
             (accepted (frames ["0123456789"; "1"]%string) None) in
  unwire (sock_out (snd r)) = ["55333"; "300 LOGIN FAILED"]%string.
Proof. vm_compute. reflexivity. Qed.

Example username_of_eleven_bytes :
  let r := @handleClientConnection x86_64_linux 3
             (accepted (frames ["0123456789a"; "1"]%string) None) in
  unwire (sock_out (snd r)) = ["301 SYNTAX ERROR"]%string.
Proof. vm_compute. reflexivity. Qed.

(** Six digits, and letters, are refused as a confirmation. *)
Example confirmation_of_six_digits :
  let r := @handleClientConnection x86_64_linux 3
             (accepted (frames ["Ab"; "000000"]%string) None) in
  unwire (sock_out (snd r)) = ["21013"; "301 SYNTAX ERROR"]%string.
Proof. vm_compute. reflexivity. Qed.

Example confirmation_of_letters :
  let r := @handleClientConnection x86_64_linux 3
             (accepted (frames ["Ab"; "abc"]%string) None) in
  unwire (sock_out (snd r)) = ["21013"; "301 SYNTAX ERROR"]%string.
Proof. vm_compute. reflexivity. Qed.

(** A robot that does not move is asked to move again. *)
Example stuck_robot :
  let r := @handleClientConnection x86_64_linux 6
             (accepted (frames ["Ab"; "11720"; "OK 0 0"; "OK 0 0"; "OK -2 2"; "x"]%string)
                None) in
  unwire (sock_out (snd r))
  = ["21013"; "200 OK"; "102 MOVE"; "102 MOVE"; "102 MOVE"; "105 GET MESSAGE";
     "106 LOGOUT"]%string.
Proof. vm_compute. reflexivity. Qed.

(** * Further properties *)

(** ** What a completed frame was read from *)

Lemma has_terminator_prefix l : forall t,
  has_terminator (l ++ t) = false -> has_terminator l = false.
Proof.
  induction l as [|a l IH]; intros t Hl; [reflexivity|].
  cbn [app] in Hl. apply has_terminator_cons in Hl as [Hl Hfirst].
  cbn [has_terminator]. rewrite (IH t Hl), orb_false_r.
  destruct l as [|b l]; [reflexivity|].
  apply andb_false_iff.
  destruct (ascii_dec a TERMINATING_FIRST_CHAR) as [-> | Ha].
  - right. apply Ascii.eqb_neq. intros ->. now apply (Hfirst eq_refl (l ++ t)).
  - left. now apply Ascii.eqb_neq.
Qed.

Lemma has_terminator_snoc_other l c :
  has_terminator l = false -> c <> TERMINATING_SECOND_CHAR ->
  has_terminator (l ++ [c]) = false.
Proof.
  intros Hl Hc. apply Ascii.eqb_neq in Hc.
  induction l as [|a l IH]; [reflexivity|].
  apply has_terminator_cons in Hl as [Hl Hfirst].
  cbn [app has_terminator]. rewrite (IH Hl), orb_false_r.
  destruct l as [|b l]; cbn [app]; apply andb_false_iff; [now right|].
  destruct (ascii_dec a TERMINATING_FIRST_CHAR) as [-> | Ha].
  - right. apply Ascii.eqb_neq. intros ->. now apply (Hfirst eq_refl l).
  - left. now apply Ascii.eqb_neq.
Qed.

Lemma has_terminator_snoc_pair l c d :
  has_terminator (l ++ [c]) = false ->
  c <> TERMINATING_FIRST_CHAR \/ d <> TERMINATING_SECOND_CHAR ->
  has_terminator (l ++ [c; d]) = false.
Proof.
  intros Hl Hcd.
  assert (Hpair : (c =? TERMINATING_FIRST_CHAR)%char && (d =? TERMINATING_SECOND_CHAR)%char
                  = false).
  { apply andb_false_iff. destruct Hcd as [H | H]; [left | right]; now apply Ascii.eqb_neq. }
  induction l as [|a l IH].
  - cbn [app has_terminator]. rewrite Hpair. reflexivity.
  - cbn [app] in Hl. apply has_terminator_cons in Hl as [Hl Hfirst].
    cbn [app has_terminator]. rewrite (IH Hl), orb_false_r.
    destruct l as [|b l]; cbn [app] in *; apply andb_false_iff.
    + destruct (ascii_dec a TERMINATING_FIRST_CHAR) as [-> | Ha].
      * right. apply Ascii.eqb_neq. intros ->. now apply (Hfirst eq_refl []).
      * left. now apply Ascii.eqb_neq.
    + destruct (ascii_dec a TERMINATING_FIRST_CHAR) as [-> | Ha].
      * right. apply Ascii.eqb_neq. intros ->. now apply (Hfirst eq_refl (l ++ [c])).
      * left. now apply Ascii.eqb_neq.
Qed.

(** One turn of the [switch] on a loop that is not done: either the message
    is done by the second terminating character, or the byte joins what is
    stored, which stays clean. *)
Lemma switch_buffer_stored b n v :
  messageDone v = false -> clean v ->
  let v' := switch_buffer b n v in
  (messageDone v' = true /\ b = TERMINATING_SECOND_CHAR /\ state v = CLOSE
   /\ message v' = message v /\ has_terminator (message v) = false)
  \/ (messageDone v' = false /\ stored v' = stored v ++ [b] /\ clean v').
Proof.
  intros Hd Hc. unfold clean, stored in *.
  destruct (ascii_dec b TERMINATING_FIRST_CHAR) as [-> | H1];
    [| destruct (ascii_dec b TERMINATING_SECOND_CHAR) as [-> | H2]].
  - rewrite switch_first. cbn. right. split; [assumption|]. split; [reflexivity|].
    destruct (state v); cbn [pend].
    + rewrite app_nil_r. now apply has_terminator_prefix in Hc.
    + apply has_terminator_snoc_other; [assumption | discriminate].
  - destruct (state v) eqn:Hs.
    + rewrite switch_second_open by assumption. cbn. right.
      split; [assumption|]. split; [now rewrite !app_nil_r|].
      rewrite <- app_assoc. apply has_terminator_snoc_pair; [assumption|].
      left. discriminate.
    + rewrite switch_second_close by assumption. cbn. left. repeat split. assumption.
  - rewrite switch_other by assumption. cbn. right. split; [assumption|].
    split; [now rewrite app_nil_r, <- !app_assoc|].
    destruct (state v); cbn [pend app].
    + apply has_terminator_prefix in Hc.
      rewrite <- app_assoc. apply has_terminator_snoc_pair; [|now left].
      now apply has_terminator_snoc_other.
    + rewrite <- !app_assoc. cbn [app].
      change (message v ++ [TERMINATING_FIRST_CHAR; b; TERMINATING_SECOND_CHAR])
        with (message v ++ [TERMINATING_FIRST_CHAR] ++ [b; TERMINATING_SECOND_CHAR]).
      rewrite app_assoc. apply has_terminator_snoc_pair; [|now left].
      rewrite <- app_assoc. cbn [app].
      change (message v ++ [TERMINATING_FIRST_CHAR; b])
        with (message v ++ [TERMINATING_FIRST_CHAR] ++ [b]).
      rewrite app_assoc. apply has_terminator_snoc_other; [|assumption].
      apply has_terminator_snoc_other; [assumption | discriminate].
Qed.

Lemma sys_read_heard tmo buffer e b rest :
  sys_read tmo buffer e = Some b -> heard buffer (e :: rest) = b :: heard b rest.
Proof.
  destruct e as [wait c | |]; cbn.
  - destruct ((tmo =? 0) || (wait <? tmo)); [|discriminate]. now intros [= ->].
  - now intros [= ->].
  - discriminate.
Qed.

(** The reads of a completed frame, from any state of the loop. *)
Lemma read_loop_heard m tmo : forall evs v p rest,
  messageDone v = false -> clean v ->
  read_loop m tmo evs v = (Complete p, rest) ->
  exists taken,
    evs = taken ++ rest
    /\ stored v ++ heard (buffer v) taken = wire p
    /\ length (heard (buffer v) taken) = length taken
    /\ has_terminator p = false.
Proof.
  induction evs as [|e evs IH]; intros v p rest Hd Hc Hr.
  - rewrite read_loop_nil in Hr. destruct (tmo =? 0); [discriminate|].
    destruct (exceeds _ _); discriminate.
  - rewrite read_loop_step in Hr.
    destruct (exceeds _ _); [discriminate|].
    destruct (sys_read tmo (buffer v) e) as [b|] eqn:Hread; [|discriminate].
    destruct (overflows _ _); [discriminate|].
    pose proof (switch_buffer_cases b (uint16 (msgLength v + 1)) v Hd) as (_ & Hb & _).
    destruct (switch_buffer_stored b (uint16 (msgLength v + 1)) v Hd Hc)
      as [(Hd' & -> & Hs & Hm & Hp) | (Hd' & Hst & Hc')]; rewrite Hd' in Hr.
    + injection Hr as <- <-. exists [e]. split; [reflexivity|].
      rewrite (sys_read_heard _ _ _ _ _ Hread). cbn [heard length].
      rewrite Hm. unfold stored, wire. rewrite Hs. cbn [pend].
      split; [now rewrite <- app_assoc | split; [reflexivity | exact Hp]].
    + destruct (IH _ p rest Hd' Hc' Hr) as (taken & -> & Hw & Hlen & Hp).
      exists (e :: taken). split; [reflexivity|].
      rewrite (sys_read_heard _ _ _ _ _ Hread).
      rewrite Hb in Hw, Hlen. rewrite Hst, <- app_assoc in Hw.
      cbn [length]. split; [assumption | split; [now rewrite Hlen | assumption]].
Qed.

(** X1. Reading back. Whatever [readFromSocket] returns as a frame is what
    it heard: the reads it took from the socket, one byte each, are the
    payload followed by the two terminating characters, so it took two reads
    more than the payload is long; and the payload holds no terminating
    sequence. This holds for every cap. *)
Theorem readFromSocket_heard `{Platform} (m : Z) (c c' : ClientController) (p : list ascii) :
  readFromSocket m c = (Ret p, c') ->
  exists taken,
    sock_in c = taken ++ sock_in c'
    /\ heard indeterminate_char taken = wire p
    /\ length taken = (length p + 2)%nat
    /\ has_terminator p = false.
Proof.
  unfold readFromSocket.
  destruct (read_loop m (rcvtimeo c) (sock_in c) read_start) as [[q| | |] rest] eqn:Hr;
    try discriminate.
  - intros [= <- <-].
    destruct (read_loop_heard m (rcvtimeo c) (sock_in c) read_start q rest)
      as (taken & Hin & Hw & Hlen & Hq); try reflexivity; try exact Hr.
    exists taken. cbn in Hw, Hlen. repeat split; try assumption.
    rewrite <- Hlen, Hw. unfold wire. rewrite length_app. reflexivity.
  - unfold bind, sendResponse, throw.
    destruct (send_budget (with_in rest c)) as [[|k]|]; discriminate.
Qed.

Lemma readFromSocket_heard_witness :
  let c := with_rcvtimeo TIMEOUT
             (accepted (arriving 0 (str "ab") ++ [Eof] ++ frames [""%string; "next"%string])
                None) in
  exists taken,
    sock_in c = taken ++ frames ["next"%string]
    /\ heard (@indeterminate_char x86_64_linux) taken = wire (str "abb")
    /\ length taken = (length (str "abb") + 2)%nat
    /\ has_terminator (str "abb") = false.
Proof.
  intros c.
  apply (@readFromSocket_heard x86_64_linux 10 c (with_in (frames ["next"%string]) c)).
  reflexivity.
Defined.

(** ** A sender that falls silent, a peer that hangs up *)

Lemma sys_read_silent tmo buffer e rest :
  tmo <> 0 -> falls_silent tmo (e :: rest) -> sys_read tmo buffer e = None.
Proof.
  intros Ht Hs. destruct e as [wait c | |]; cbn in *; [|destruct Hs | reflexivity].
  apply Z.eqb_neq in Ht. rewrite Ht. cbn.
  apply Z.ltb_ge in Hs. now rewrite Hs.
Qed.

Lemma read_loop_silent m tmo d q : forall late v,
  timely tmo d -> tmo <> 0 -> m <= INT_MAX - 2 ->
  messageDone v = false ->
  has_terminator (pend (state v) ++ q) = false ->
  msgLength v = uint16 (reads_of v) ->
  reads_of v + Z.of_nat (length q) <= m ->
  falls_silent tmo late ->
  fst (read_loop m tmo (arriving d q ++ late) v) = TimeoutFired.
Proof.
  induction q as [|c q IH]; intros late v Ht Ht0 Hm Hd Hp Hl Hc Hs;
    assert (H0 : 0 <= reads_of v) by (unfold reads_of; lia).
  - cbn [arriving map app length] in *.
    assert (He : exceeds m (uint16 (msgLength v + 1)) = false).
    { rewrite Hl, uint16_succ. apply exceeds_false with (total := reads_of v); lia. }
    destruct late as [|e late].
    + rewrite read_loop_nil, He. apply Z.eqb_neq in Ht0. now rewrite Ht0.
    + rewrite read_loop_step, He, (sys_read_silent tmo _ e late Ht0 Hs). reflexivity.
  - change (arriving d (c :: q) ++ late) with (Arrive d c :: arriving d q ++ late).
    cbn [length] in Hc.
    assert (Hlen : uint16 (msgLength v + 1) = uint16 (reads_of v + 1))
      by (rewrite Hl; apply uint16_succ).
    pose proof (uint16_le (reads_of v + 1) ltac:(lia)) as Hle.
    pose proof (uint16_range (reads_of v + 1)) as Hrg.
    destruct (switch_buffer_payload c (uint16 (msgLength v + 1)) v q Hd Hp) as [Hd' Hp'].
    destruct (switch_buffer_cases c (uint16 (msgLength v + 1)) v Hd)
      as (Hl' & _ & [(Hdone & _) | (_ & Hn')]); [congruence|].
    rewrite read_loop_cons; try assumption.
    + rewrite Hd'. apply IH; try assumption.
      * rewrite Hl', Hn'. exact Hlen.
      * rewrite Hn'. lia.
    + rewrite Hlen. apply exceeds_false with (total := reads_of v + Z.of_nat (length q)); lia.
    + apply overflows_false with (total := reads_of v + Z.of_nat (S (length q))); lia.
Qed.

(** X2. A sender that falls silent. When the bytes that arrive in time hold
    no terminating sequence and are at most as many as the cap, and the next
    read returns -1 (nothing more comes, the next byte comes too late, or
    the read fails), [readFromSocket] throws Timeout fired and sends
    nothing. *)
Theorem readFromSocket_timeout `{Platform} (m d : Z) (q : list ascii) (late : list event)
    (c : ClientController) :
  sock_in c = arriving d q ++ late ->
  rcvtimeo c <> 0 ->
  d < rcvtimeo c ->
  has_terminator q = false ->
  Z.of_nat (length q) <= m <= INT_MAX - 2 ->
  falls_silent (rcvtimeo c) late ->
  exists rest, readFromSocket m c = (Throw (runtime_error "Timeout fired"), with_in rest c).
Proof.
  intros Hin Ht0 Hd Hq [Hlen Hm] Hs.
  pose proof (read_loop_silent m (rcvtimeo c) d q late read_start) as Hr.
  unfold readFromSocket. rewrite Hin.
  destruct (read_loop m (rcvtimeo c) (arriving d q ++ late) read_start) as [x rest].
  cbn [fst] in Hr. rewrite Hr; try assumption; try reflexivity.
  - now exists rest.
  - now right.
Qed.

Lemma readFromSocket_timeout_witness :
  let c := with_rcvtimeo TIMEOUT
             (accepted (arriving 0 (str "OK 1") ++ [Arrive 1 " "%char; Arrive 0 "2"%char])
                None) in
  exists rest,
    @readFromSocket x86_64_linux CLIENT_OK_LENGTH c
    = (Throw (runtime_error "Timeout fired"), with_in rest c).
Proof.
  intros c.
  apply (@readFromSocket_timeout x86_64_linux CLIENT_OK_LENGTH 0 (str "OK 1")
           [Arrive 1 " "%char; Arrive 0 "2"%char] c).
  - reflexivity.
  - discriminate.
  - reflexivity.
  - reflexivity.
  - unfold CLIENT_OK_LENGTH, INT_MAX. cbn. lia.
  - cbn. unfold TIMEOUT. lia.
Defined.

Lemma switch_buffer_stale b n v :
  messageDone (switch_buffer b n v) = false ->
  b = TERMINATING_SECOND_CHAR -> state (switch_buffer b n v) = OPEN.
Proof.
  intros Hd ->. destruct (state v) eqn:Hs.
  - now rewrite switch_second_open.
  - rewrite switch_second_close in Hd by assumption. discriminate.
Qed.

(** Reads that return 0 hand the loop the same byte again, which never
    completes a message. *)
Lemma uncapped_eof tmo rest : forall n v,
  messageDone v = false ->
  (buffer v = TERMINATING_SECOND_CHAR -> state v = OPEN) ->
  not_done (uncapped tmo (repeat Eof n ++ rest) n v).
Proof.
  induction n as [|n IH]; intros v Hd Hb; [exact Hd|].
  cbn [repeat app]. rewrite uncapped_cons by assumption. cbn [sys_read].
  destruct (switch_buffer_cases (buffer v) (uint16 (msgLength v + 1)) v Hd)
    as (_ & Hb' & [(Hdone & _ & Hs & _) | (Hd' & _)]).
  - exfalso.
    destruct (ascii_dec (buffer v) TERMINATING_SECOND_CHAR) as [Heq | Hne].
    + rewrite (Hb Heq) in Hs. discriminate.
    + destruct (ascii_dec (buffer v) TERMINATING_FIRST_CHAR) as [Ha | Ha].
      * rewrite Ha, switch_first in Hdone. cbn in Hdone. congruence.
      * rewrite switch_other in Hdone by assumption. cbn in Hdone. congruence.
  - apply IH; [exact Hd'|].
    intros Heq. rewrite Hb' in Heq. now apply switch_buffer_stale.
Qed.

Lemma uncapped_payload_eof tmo d n rest q : forall v,
  timely tmo d ->
  messageDone v = false ->
  has_terminator (pend (state v) ++ q) = false ->
  (buffer v = TERMINATING_SECOND_CHAR -> state v = OPEN) ->
  not_done (uncapped tmo (arriving d q ++ repeat Eof n ++ rest) (length q + n) v).
Proof.
  induction q as [|c q IH]; intros v Ht Hd Hp Hb.
  - now apply uncapped_eof.
  - cbn [length arriving map app Nat.add]. rewrite uncapped_cons by assumption.
    rewrite (sys_read_timely _ _ _ _ Ht).
    destruct (switch_buffer_payload c (uint16 (msgLength v + 1)) v q Hd Hp) as [Hd' Hp'].
    destruct (switch_buffer_cases c (uint16 (msgLength v + 1)) v Hd) as (_ & Hb' & _).
    apply IH; try assumption.
    intros Heq. rewrite Hb' in Heq. now apply switch_buffer_stale.
Qed.

(** X3. A peer that hangs up. A read that returns 0 leaves [buffer] as it
    was and is counted like a byte: when the peer shuts the connection down
    before a frame is complete, the reads that return 0 feed the last byte
    again and again, no frame is ever returned, and once [m + 2] reads have
    been made the reader sends 301 SYNTAX ERROR and throws. *)
Theorem readFromSocket_hangup `{Platform} (m d : Z) (q : list ascii) (n : nat)
    (rest : list event) (c : ClientController) :
  0 <= m <= 65533 ->
  send_budget c = None ->
  sock_in c = arriving d q ++ repeat Eof n ++ rest ->
  timely (rcvtimeo c) d ->
  has_terminator q = false ->
  (length q + n = Z.to_nat (m + 2))%nat ->
  exists c',
    readFromSocket m c = (Throw (runtime_error "Message size out of bounds"), c')
    /\ sock_out c' = sock_out c ++ wire SERVER_SYNTAX_ERROR.
Proof.
  intros Hm Hb Hin Ht Hq Hn.
  apply (readFromSocket_gives_up m c Hm Hb). right.
  rewrite Hin, <- Hn.
  apply uncapped_payload_eof; try assumption; reflexivity.
Qed.

Lemma readFromSocket_hangup_witness :
  let c := with_rcvtimeo TIMEOUT (accepted (repeat Eof 12) None) in
  exists c',
    @readFromSocket x86_64_linux CLIENT_OK_LENGTH c
    = (Throw (runtime_error "Message size out of bounds"), c')
    /\ sock_out c' = sock_out c ++ wire SERVER_SYNTAX_ERROR.
Proof.
  intros c.
  apply (@readFromSocket_hangup x86_64_linux CLIENT_OK_LENGTH 0 [] 12 [] c).
  - unfold CLIENT_OK_LENGTH. lia.
  - reflexivity.
  - reflexivity.
  - right. reflexivity.
  - reflexivity.
  - reflexivity.
Defined.

(** ** What [readMsg] hands to its caller *)

Lemma readFromSocket_clean `{Platform} m c p c' :
  readFromSocket m c = (Ret p, c') -> has_terminator p = false.
Proof.
  unfold readFromSocket.
  destruct (read_loop m (rcvtimeo c) (sock_in c) read_start) as [[q| | |] rest] eqn:Hr;
    try discriminate.
  - intros [= <- _].
    destruct (read_loop_heard m (rcvtimeo c) (sock_in c) read_start q rest)
      as (taken & _ & _ & _ & Hq); try reflexivity; assumption.
  - unfold bind, sendResponse, throw.
    destruct (send_budget (with_in rest c)) as [[|k]|]; discriminate.
Qed.

(** X4. What [readMsg] returns. A frame that [readMsg] hands to its caller
    is never the literal RECHARGING, holds no terminating sequence and, for
    a cap from 0 to 65533, is at most as long as the cap. *)
Theorem readMsg_returns `{Platform} (fuel : nat) (m : Z) :
  forall (c c' : ClientController) (p : list ascii),
    readMsg fuel m c = (Ret p, c') ->
    p <> CLIENT_RECHARGING
    /\ has_terminator p = false
    /\ (0 <= m <= 65533 -> Z.of_nat (length p) <= m).
Proof.
  induction fuel as [|fuel IH]; intros c c' p; [discriminate|].
  cbn [readMsg]. unfold bind at 1. unfold readFromSocketWithWait at 1.
  destruct (readFromSocket m (with_rcvtimeo TIMEOUT c)) as [[msg| |] c1] eqn:H1;
    try discriminate.
  destruct (str_eq_dec msg CLIENT_RECHARGING) as [Heq | Hne].
  - unfold bind at 1. unfold readFromSocketWithWait at 1.
    destruct (readFromSocket CLIENT_FULL_POWER_LENGTH (with_rcvtimeo TIMEOUT_RECHARGING c1))
      as [[msg2| |] c2]; try discriminate.
    destruct (str_eq_dec msg2 CLIENT_FULL_POWER); [apply IH|].
    unfold bind, sendResponse, throw.
    destruct (send_budget c2) as [[|k]|]; discriminate.
  - intros [= <- _]. split; [exact Hne|]. split.
    + exact (readFromSocket_clean _ _ _ _ H1).
    + intros Hm. exact (readFromSocket_length m _ Hm _ _ H1).
Qed.

Lemma readMsg_returns_witness :
  str "OK 0 1" <> CLIENT_RECHARGING
  /\ has_terminator (str "OK 0 1") = false
  /\ (0 <= 12 <= 65533 -> Z.of_nat (length (str "OK 0 1")) <= 12).
Proof.
  apply (@readMsg_returns x86_64_linux 2 12
           (accepted (frames ["RECHARGING"; "FULL POWER"; "OK 0 1"]%string) None)
           (with_rcvtimeo TIMEOUT (accepted [] None))).
  reflexivity.
Defined.

Lemma recharges_succ d1 d2 k rest :
  recharges d1 d2 (S k) ++ rest
  = arriving d1 (wire CLIENT_RECHARGING)
    ++ arriving d2 (wire CLIENT_FULL_POWER) ++ recharges d1 d2 k ++ rest.
Proof. unfold recharges. cbn [repeat concat]. now rewrite <- !app_assoc. Qed.

Lemma readMsg_rounds `{Platform} (d1 d2 m : Z) (rest : list event) (fuel k : nat) :
  forall c : ClientController,
    sock_in c = recharges d1 d2 k ++ rest ->
    d1 < TIMEOUT ->
    d2 < TIMEOUT_RECHARGING ->
    10 <= m <= INT_MAX - 2 ->
    readMsg (k + S fuel) m c = readMsg (S fuel) m (with_in rest c).
Proof.
  induction k as [|k IH]; intros c Hin Hd1 Hd2 Hm.
  - cbn [recharges repeat concat app Nat.add] in *. rewrite <- Hin. now destruct c.
  - rewrite recharges_succ in Hin.
    change (readMsg (S k + S fuel) m c) with
      ((message <- readFromSocketWithWait m TIMEOUT ;;
        if str_eq_dec message CLIENT_RECHARGING then
          message <- readFromSocketWithWait CLIENT_FULL_POWER_LENGTH TIMEOUT_RECHARGING ;;
          if str_eq_dec message CLIENT_FULL_POWER then readMsg (k + S fuel) m
          else sendResponse SERVER_LOGIC_ERROR ;;;
               throw (runtime_error "Expected full power message.")
        else ret message) c).
    unfold bind at 1. unfold readFromSocketWithWait at 1.
    rewrite (readFromSocket_frame m d1 CLIENT_RECHARGING
               (arriving d2 (wire CLIENT_FULL_POWER) ++ recharges d1 d2 k ++ rest));
      try assumption; try reflexivity;
      [| now right | left; change (Z.of_nat (length CLIENT_RECHARGING)) with 10; lia | lia].
    destruct (str_eq_dec CLIENT_RECHARGING CLIENT_RECHARGING) as [_|Hne]; [|congruence].
    unfold bind at 1. unfold readFromSocketWithWait at 1.
    rewrite (readFromSocket_frame CLIENT_FULL_POWER_LENGTH d2 CLIENT_FULL_POWER
               (recharges d1 d2 k ++ rest));
      try reflexivity;
      [| now right | left; now vm_compute | unfold CLIENT_FULL_POWER_LENGTH, INT_MAX; lia].
    destruct (str_eq_dec CLIENT_FULL_POWER CLIENT_FULL_POWER) as [_|Hne]; [|congruence].
    rewrite IH; try assumption; reflexivity.
Qed.

(** One round of recharging is one nested call. *)
Lemma readMsg_round `{Platform} (d1 d2 m : Z) (rest : list event) (fuel : nat)
    (c : ClientController) :
  sock_in c = arriving d1 (wire CLIENT_RECHARGING)
              ++ arriving d2 (wire CLIENT_FULL_POWER) ++ rest ->
  d1 < TIMEOUT ->
  d2 < TIMEOUT_RECHARGING ->
  10 <= m <= INT_MAX - 2 ->
  readMsg (S fuel) m c
  = readMsg fuel m (with_in rest (with_rcvtimeo TIMEOUT_RECHARGING c)).
Proof.
  intros Hin Hd1 Hd2 Hm.
  cbn [readMsg]. unfold bind at 1. unfold readFromSocketWithWait at 1.
  rewrite (readFromSocket_frame m d1 CLIENT_RECHARGING
             (arriving d2 (wire CLIENT_FULL_POWER) ++ rest)).
  - destruct (str_eq_dec CLIENT_RECHARGING CLIENT_RECHARGING) as [_|Hne]; [|congruence].
    unfold bind at 1. unfold readFromSocketWithWait at 1.
    rewrite (readFromSocket_frame CLIENT_FULL_POWER_LENGTH d2 CLIENT_FULL_POWER rest).
    + destruct (str_eq_dec CLIENT_FULL_POWER CLIENT_FULL_POWER) as [_|Hne]; [|congruence].
      reflexivity.
    + reflexivity.
    + right. exact Hd2.
    + reflexivity.
    + left. now vm_compute.
    + unfold CLIENT_FULL_POWER_LENGTH, INT_MAX. lia.
  - exact Hin.
  - right. exact Hd1.
  - reflexivity.
  - left. change (Z.of_nat (length CLIENT_RECHARGING)) with 10. lia.
  - lia.
Qed.

(** A call that may nest no deeper than there are rounds does not complete,
    and has sent nothing. *)
Lemma readMsg_rounds_exhaust `{Platform} (d1 d2 m : Z) (rest : list event) (fuel : nat) :
  forall (k : nat) (c : ClientController),
    sock_in c = recharges d1 d2 k ++ rest ->
    d1 < TIMEOUT ->
    d2 < TIMEOUT_RECHARGING ->
    10 <= m <= INT_MAX - 2 ->
    (fuel <= k)%nat ->
    fst (readMsg fuel m c) = Hang /\ sock_out (snd (readMsg fuel m c)) = sock_out c.
Proof.
  induction fuel as [|fuel IH]; intros k c Hin Hd1 Hd2 Hm Hk; [now split|].
  destruct k as [|k]; [lia|].
  rewrite recharges_succ in Hin.
  rewrite (readMsg_round d1 d2 m (recharges d1 d2 k ++ rest)) by assumption.
  apply (IH k (with_in (recharges d1 d2 k ++ rest) (with_rcvtimeo TIMEOUT_RECHARGING c)));
    try assumption; try reflexivity. lia.
Qed.

(** X5. Recharging costs a nested call and nothing else. Each round of
    RECHARGING and FULL POWER, every byte in time under the timeout in
    force, makes [readMsg] call itself once more. A call with a cap of at
    least 10 that may nest [fuel] deep does not complete, and sends
    nothing, when the input begins with [fuel] rounds or more; in the
    program the bound is the call stack, whose exhaustion kills the
    process. When the input begins with fewer rounds, [k], the call gives
    what a call that may nest [fuel - k] deep gives on the input without
    the rounds, and leaves the same controller: the rounds are invisible to
    the caller. *)
Theorem readMsg_recharges `{Platform} (d1 d2 m : Z) (rest : list event) (fuel k : nat)
    (c : ClientController) :
  sock_in c = recharges d1 d2 k ++ rest ->
  d1 < TIMEOUT ->
  d2 < TIMEOUT_RECHARGING ->
  10 <= m <= INT_MAX - 2 ->
  ((fuel <= k)%nat ->
   fst (readMsg fuel m c) = Hang /\ sock_out (snd (readMsg fuel m c)) = sock_out c)
  /\ ((k < fuel)%nat -> readMsg fuel m c = readMsg (fuel - k) m (with_in rest c)).
Proof.
  intros Hin Hd1 Hd2 Hm. split; intros Hk.
  - now apply (readMsg_rounds_exhaust d1 d2 m rest fuel k).
  - destruct (Nat.le_exists_sub (S k) fuel Hk) as (j & -> & _).
    replace (j + S k - k)%nat with (S j) by lia.
    replace (j + S k)%nat with (k + S j)%nat by lia.
    now apply (readMsg_rounds d1 d2).
Qed.

Lemma readMsg_recharges_witness :
  let c := accepted (recharges 0 4 3 ++ frames ["OK 0 1"%string]) None in
  (fst (@readMsg x86_64_linux 3 CLIENT_OK_LENGTH c) = Hang
   /\ sock_out (snd (@readMsg x86_64_linux 3 CLIENT_OK_LENGTH c)) = sock_out c)
  /\ @readMsg x86_64_linux 4 CLIENT_OK_LENGTH c
     = @readMsg x86_64_linux (4 - 3) CLIENT_OK_LENGTH
         (with_in (frames ["OK 0 1"%string]) c).
Proof.
  intros c.
  assert (Hm : 10 <= CLIENT_OK_LENGTH <= INT_MAX - 2)
    by (unfold CLIENT_OK_LENGTH, INT_MAX; lia).
  split.
  - apply (@readMsg_recharges x86_64_linux 0 4 CLIENT_OK_LENGTH
             (frames ["OK 0 1"%string]) 3 3 c eq_refl eq_refl eq_refl Hm).
    lia.
  - apply (@readMsg_recharges x86_64_linux 0 4 CLIENT_OK_LENGTH
             (frames ["OK 0 1"%string]) 4 3 c eq_refl eq_refl eq_refl Hm).
    lia.
Defined.

(** ** The hash, once more *)

Lemma mod_65536_thousand a b :
  (a * 1000) mod 65536 = (b * 1000) mod 65536 <-> a mod 8192 = b mod 8192.
Proof.
  rewrite (Z.cong_iff_0 (a * 1000)), (Z.cong_iff_0 a).
  rewrite !Z.mod_divide by lia.
  replace (a * 1000 - b * 1000) with (8 * (125 * (a - b))) by lia.
  change 65536 with (8 * 8192).
  split.
  - intros Hdiv. apply Z.mul_divide_cancel_l in Hdiv; [|lia].
    apply Z.gauss with (m := 125); [exact Hdiv|reflexivity].
  - intros Hdiv. apply Z.mul_divide_mono_l. now apply Z.divide_mul_r.
Qed.

Lemma sum_of_chars_permutation `{Platform} (u u' : list ascii) :
  Permutation u u' -> sum_of_chars u = sum_of_chars u'.
Proof.
  unfold sum_of_chars. generalize 0. intros a Hperm. revert a.
  induction Hperm as [|c l l' _ IH | c1 c2 l | l1 l2 l3 _ IH1 _ IH2]; intros a.
  - reflexivity.
  - cbn [fold_left]. apply IH.
  - cbn [fold_left]. f_equal. lia.
  - now rewrite IH1.
Qed.

(** X6. Which user names share a hash. For either key, two user names get
    the same hash exactly when the sums of their characters agree modulo
    8192; so a hash takes 8192 values, and user names that are
    rearrangements of one another always collide. *)
Theorem computeHash_collisions `{Platform} (key : Z) (u u' : list ascii) :
  (computeHash key u = computeHash key u'
   <-> sum_of_chars u mod 8192 = sum_of_chars u' mod 8192)
  /\ (Permutation u u' -> computeHash key u = computeHash key u').
Proof.
  assert (Hiff : computeHash key u = computeHash key u'
                 <-> sum_of_chars u mod 8192 = sum_of_chars u' mod 8192).
  { rewrite !computeHash_sum, <- mod_65536_thousand.
    rewrite (Z.cong_iff_0 (sum_of_chars u * 1000 + key)),
            (Z.cong_iff_0 (sum_of_chars u * 1000)).
    replace (sum_of_chars u * 1000 + key - (sum_of_chars u' * 1000 + key))
      with (sum_of_chars u * 1000 - sum_of_chars u' * 1000) by lia.
    reflexivity. }
  split; [exact Hiff|].
  intros Hperm. apply Hiff. f_equal. now apply sum_of_chars_permutation.
Qed.

(** X7. The confirmation follows from the hash the server sent. Both hashes
    lie from 0 to 65535, and the value that [authenticate] expects from the
    client is the value it has sent, plus 56243, modulo 65536. *)
Theorem computeHash_client_from_server `{Platform} (u : list ascii) :
  0 <= computeHash SERVER_KEY u < 65536
  /\ 0 <= computeHash CLIENT_KEY u < 65536
  /\ computeHash CLIENT_KEY u = (computeHash SERVER_KEY u + 56243) mod 65536.
Proof.
  rewrite !computeHash_sum. unfold SERVER_KEY, CLIENT_KEY.
  split; [apply Z.mod_pos_bound; lia|]. split; [apply Z.mod_pos_bound; lia|].
  rewrite Z.add_mod_idemp_l by lia.
  replace (sum_of_chars u * 1000 + 54621 + 56243)
    with (sum_of_chars u * 1000 + 45328 + 1 * 65536) by lia.
  now rewrite Z.mod_add by lia.
Qed.

(** ** Numbers in decimal *)

Lemma isdigit_byte `{Platform} c :
  48 <= byte_value c <= 57 -> isdigit (char_value c) = true.
Proof.
  intros Hc. unfold isdigit, char_value.
  replace (128 <=? byte_value c) with false by (symmetry; apply Z.leb_gt; lia).
  rewrite andb_false_r. apply andb_true_iff. split; apply Z.leb_le; lia.
Qed.

Lemma digits_of_all_digits `{Platform} d : all_digits (digits_of d).
Proof.
  induction d; try (constructor; [apply isdigit_byte; cbn; lia | exact IHd]).
  constructor.
Qed.

Lemma of_uint_acc_decimal d : forall acc,
  Zpos (Pos.of_uint_acc d acc)
  = fold_left (fun n c => n * 10 + (byte_value c - 48)) (digits_of d) (Zpos acc).
Proof.
  induction d; intros acc; [reflexivity | ..];
    cbn [Pos.of_uint_acc]; rewrite IHd;
    change (digits_of (?D d)) with (hd " "%char (digits_of (D d)) :: digits_of d);
    cbn [fold_left]; f_equal;
    rewrite ?Pos2Z.inj_add, Pos2Z.inj_mul;
    match goal with
    | |- context [byte_value ?c] =>
        let v := eval vm_compute in (byte_value c) in change (byte_value c) with v
    end; lia.
Qed.

Lemma decimal_digits_of d : decimal (digits_of d) = Z.of_N (N.of_uint d).
Proof.
  unfold N.of_uint.
  induction d; [reflexivity | exact IHd | ..];
    cbn [Pos.of_uint Z.of_N]; rewrite of_uint_acc_decimal; reflexivity.
Qed.

Lemma to_string_nonneg n :
  0 <= n -> to_string n = digits_of (N.to_uint (Z.to_N n)).
Proof.
  intros Hn. unfold to_string, digits_of.
  replace (n <? 0) with false by (symmetry; apply Z.ltb_ge; lia).
  f_equal. unfold NilZero.string_of_uint.
  pose proof (DecimalFacts.unorm_nonnil (N.to_uint (Z.to_N n))) as Hnil.
  rewrite <- DecimalN.Unsigned.to_of, DecimalN.Unsigned.of_to in Hnil.
  now destruct (N.to_uint (Z.to_N n)).
Qed.

Lemma to_string_decimal `{Platform} n :
  0 <= n -> all_digits (to_string n) /\ decimal (to_string n) = n.
Proof.
  intros Hn. rewrite to_string_nonneg by exact Hn. split.
  - apply digits_of_all_digits.
  - rewrite decimal_digits_of, DecimalN.Unsigned.of_to. lia.
Qed.

(** A numeral that [N.to_uint] gives is 0 or begins with a digit from 1
    to 9. *)
Lemma to_uint_head n :
  N.to_uint n = Decimal.D0 Decimal.Nil
  \/ exists c l, digits_of (N.to_uint n) = c :: digits_of l
                 /\ 49 <= byte_value c <= 57.
Proof.
  pose proof (DecimalN.Unsigned.to_of (N.to_uint n)) as Hu.
  rewrite DecimalN.Unsigned.of_to in Hu. revert Hu.
  generalize (N.to_uint n). intros d. unfold Decimal.unorm.
  pose proof (DecimalFacts.nzhead_nonzero d) as Hnz.
  destruct (Decimal.nzhead d); intros ->;
    try (right; eexists _, _; split; [reflexivity | cbn; lia]).
  - now left.
  - now contradiction (Hnz u).
Qed.

Lemma to_string_length `{Platform} n (k : nat) :
  0 <= n < 10 ^ Z.of_nat k -> (1 <= k)%nat -> (1 <= length (to_string n) <= k)%nat.
Proof.
  intros Hn Hk. destruct (to_string_decimal n) as [_ Hdec]; [lia|].
  rewrite to_string_nonneg in * by lia.
  destruct (to_uint_head (Z.to_N n)) as [-> | (c & l & Heq & Hc)].
  - cbn. lia.
  - rewrite Heq in *. cbn [length]. split; [lia|].
    unfold decimal in Hdec. cbn [fold_left] in Hdec. rewrite decimal_snoc in Hdec.
    pose proof (decimal_range _ (digits_of_all_digits l)) as Hr.
    assert (Hlt : 10 ^ Z.of_nat (length (digits_of l)) < 10 ^ Z.of_nat k).
    { set (P := 10 ^ Z.of_nat (length (digits_of l))) in *.
      assert (1 * P <= (byte_value c - 48) * P) by (apply Z.mul_le_mono_nonneg_r; lia).
      lia. }
    apply Z.pow_lt_mono_r_iff in Hlt; lia.
Qed.

(** X8. An honest client is let in. When the client sends a user name of
    at most ten characters, other than RECHARGING and without a terminating
    sequence, and then the decimal string of that user name's client hash,
    every byte in time, [authenticate] returns normally, having sent the
    server's hash and then 200 OK and nothing else, and leaves what follows
    the two frames unread. *)
Theorem authenticate_honest `{Platform} (fuel : nat) (d : Z) (u : list ascii)
    (rest : list event) (c : ClientController) :
  sock_in c = arriving d (wire u)
              ++ arriving d (wire (to_string (computeHash CLIENT_KEY u))) ++ rest ->
  d < TIMEOUT ->
  send_budget c = None ->
  has_terminator u = false ->
  (length u <= 10)%nat ->
  u <> CLIENT_RECHARGING ->
  authenticate (S fuel) c
  = (Ret tt,
     sent (wire (to_string (computeHash SERVER_KEY u)) ++ wire SERVER_OK) None
       (with_in rest (with_rcvtimeo TIMEOUT c))).
Proof.
  intros Hin Hd Hb Hu Hlen Hne.
  set (s := to_string (computeHash CLIENT_KEY u)) in *.
  assert (Hr : 0 <= computeHash CLIENT_KEY u < 65536)
    by (rewrite computeHash_sum; apply Z.mod_pos_bound; lia).
  assert (Hh : 0 <= computeHash CLIENT_KEY u < 10 ^ Z.of_nat 5)
    by (change (10 ^ Z.of_nat 5) with 100000; lia).
  destruct (to_string_decimal (computeHash CLIENT_KEY u)) as [Hs Hdec]; [lia|].
  assert (Hl : (1 <= length s <= 5)%nat) by (apply to_string_length; [exact Hh | lia]).
  fold s in Hs, Hdec.
  rewrite (authenticate_username (S fuel) u c
             (with_in (arriving d (wire s) ++ rest) (with_rcvtimeo TIMEOUT c))).
  - unfold bind at 1. rewrite sendResponse_reliable by exact Hb.
    unfold confirm. unfold bind at 1.
    rewrite (readMsg_frame fuel CLIENT_CONFIRMATION_LENGTH d s rest);
      [ | reflexivity | exact Hd | now apply all_digits_no_terminator
        | unfold CLIENT_CONFIRMATION_LENGTH, INT_MAX; lia
        | intros Heq; rewrite Heq in Hs; inversion Hs as [|? ? HR _];
          apply isdigit_char in HR as [_ HR]; cbn in HR; lia ].
    replace (5 <? Z.of_nat (length s)) with false by (symmetry; apply Z.ltb_ge; lia).
    unfold bind at 1. rewrite reject_non_digit_all by assumption.
    unfold bind at 1. rewrite stoi_digits by (assumption || lia).
    rewrite Hdec. unfold uint16. rewrite Z.mod_small by lia.
    rewrite Z.eqb_refl. cbn [negb].
    rewrite sendResponse_reliable by reflexivity.
    unfold sent, with_in, with_rcvtimeo. cbn. now rewrite <- app_assoc.
  - apply (readMsg_frame fuel CLIENT_USERNAME_LENGTH d); try assumption.
    unfold CLIENT_USERNAME_LENGTH, INT_MAX. lia.
Qed.

Lemma authenticate_honest_witness :
  @authenticate x86_64_linux 1 (accepted (frames ["Ab"; "11720"; "OK 0 0"]%string) None)
  = (Ret tt,
     sent (wire (to_string (@computeHash x86_64_linux SERVER_KEY (str "Ab")))
           ++ wire SERVER_OK) None
       (with_in (frames ["OK 0 0"%string])
          (with_rcvtimeo TIMEOUT
             (accepted (frames ["Ab"; "11720"; "OK 0 0"]%string) None)))).
Proof.
  apply (@authenticate_honest x86_64_linux 0%nat 0 (str "Ab")
           (frames ["OK 0 0"%string])).
  - reflexivity.
  - reflexivity.
  - reflexivity.
  - reflexivity.
  - cbn. lia.
  - discriminate.
Defined.

(** ** Position confirmations *)

Lemma char_value_ascii `{Platform} c : byte_value c < 128 -> char_value c = byte_value c.
Proof.
  intros Hc. unfold char_value.
  replace (128 <=? byte_value c) with false by (symmetry; apply Z.leb_gt; lia).
  now rewrite andb_false_r.
Qed.

Lemma isspace_isdigit z : isspace z = true -> isdigit z = false.
Proof.
  unfold isspace, isdigit. intros Hs.
  apply orb_true_iff in Hs as [Hs | Hs].
  - apply Z.eqb_eq in Hs. subst z. reflexivity.
  - apply andb_true_iff in Hs as [_ Hs]. apply Z.leb_le in Hs.
    apply andb_false_iff. left. apply Z.leb_gt. lia.
Qed.

Lemma isdigit_isspace z : isdigit z = true -> isspace z = false.
Proof.
  intros Hd. destruct (isspace z) eqn:Hs; [|reflexivity].
  apply isspace_isdigit in Hs. congruence.
Qed.

Lemma skipws_app `{Platform} ws s : blank ws -> skipws (ws ++ s) = skipws s.
Proof.
  induction 1 as [|c ws Hc _ IH]; [reflexivity|].
  cbn [app skipws]. now rewrite Hc.
Qed.

Lemma skipws_solid `{Platform} c s :
  isspace (char_value c) = false -> skipws (c :: s) = c :: s.
Proof. intros Hc. cbn [skipws]. now rewrite Hc. Qed.

Lemma skipws_blank `{Platform} ws : blank ws -> skipws ws = [].
Proof.
  intros Hws. rewrite <- (app_nil_r ws), skipws_app by exact Hws. reflexivity.
Qed.

Lemma span_digits_app `{Platform} ds rest :
  all_digits ds -> span_digits rest = ([], rest) -> span_digits (ds ++ rest) = (ds, rest).
Proof.
  intros Hds Hrest. induction Hds as [|c ds Hc _ IH]; [exact Hrest|].
  cbn [app span_digits]. now rewrite Hc, IH.
Qed.

Lemma span_digits_other `{Platform} c s :
  isdigit (char_value c) = false -> span_digits (c :: s) = ([], c :: s).
Proof. intros Hc. cbn [span_digits]. now rewrite Hc. Qed.

(** [std::to_string] gives an optional minus sign and then at least one
    digit, and nothing else. *)
Lemma to_string_shape `{Platform} n :
  exists (negative : bool) (ds : list ascii),
    to_string n = (if negative then ["-"%char] else []) ++ ds
    /\ all_digits ds /\ ds <> []
    /\ (if negative then - decimal ds else decimal ds) = n.
Proof.
  assert (Hne : forall m, 0 <= m -> to_string m <> []).
  { intros m Hm Hnil. pose proof (to_string_length m (Z.to_nat m + 1)) as Hl.
    rewrite Hnil in Hl. cbn [length] in Hl.
    assert (m < 10 ^ Z.of_nat (Z.to_nat m + 1)).
    { rewrite Nat2Z.inj_add, Z2Nat.id by lia. change (Z.of_nat 1) with 1.
      pose proof (Z.pow_gt_lin_r 10 (m + 1)). lia. }
    lia. }
  destruct (Z.ltb_spec n 0) as [Hn | Hn].
  - exists true, (to_string (- n)).
    destruct (to_string_decimal (- n)) as [Hd Hv]; [lia|].
    repeat split; [|exact Hd | apply Hne; lia | lia].
    unfold to_string.
    replace (n <? 0) with true by (symmetry; apply Z.ltb_lt; lia).
    replace (- n <? 0) with false by (symmetry; apply Z.ltb_ge; lia).
    reflexivity.
  - exists false, (to_string n).
    destruct (to_string_decimal n) as [Hd Hv]; [lia|].
    repeat split; [exact Hd | now apply Hne | exact Hv].
Qed.

(** [ss >> n] on a good stream that holds white space, a number that fits
    an [int] and then something that is no digit. *)
Lemma extract_int_number `{Platform} ws n rest old :
  blank ws ->
  fits_int n ->
  span_digits rest = ([], rest) ->
  extract_int {| rdbuf := ws ++ to_string n ++ rest; eofbit := false; failbit := false |} old
  = (n, {| rdbuf := rest; eofbit := at_end rest; failbit := false |}).
Proof.
  intros Hws [Hlo Hhi] Hrest.
  destruct (to_string_shape n) as (negative & ds & -> & Hds & Hne & Hv).
  destruct ds as [|a ds]; [congruence|].
  pose proof Hds as Hds'. inversion Hds' as [|? ? Ha _]; subst.
  pose proof (isdigit_isspace _ Ha) as Hsp.
  apply isdigit_char in Ha as [_ Ha].
  unfold extract_int, sentry. cbn [eofbit failbit rdbuf orb].
  rewrite skipws_app by exact Hws.
  destruct negative.
  - assert (Hm : isspace (char_value "-"%char) = false)
      by (rewrite char_value_ascii by (cbn; lia); reflexivity).
    cbn [app]. rewrite (skipws_solid _ _ Hm). cbn [rdbuf signed].
    change ("-" =? "-")%char with true. cbv iota.
    change (a :: ds ++ rest) with ((a :: ds) ++ rest).
    rewrite (span_digits_app (a :: ds) rest Hds Hrest).
    replace (- decimal (a :: ds) <? - INT_MAX - 1) with false
      by (symmetry; apply Z.ltb_ge; lia).
    replace (INT_MAX <? - decimal (a :: ds)) with false
      by (symmetry; apply Z.ltb_ge; lia).
    reflexivity.
  - cbn [app]. rewrite (skipws_solid _ _ Hsp). cbn [rdbuf signed].
    rewrite (digit_not a "-"%char Ha), (digit_not a "+"%char Ha) by (left; reflexivity).
    change (a :: ds ++ rest) with ((a :: ds) ++ rest).
    rewrite (span_digits_app (a :: ds) rest Hds Hrest).
    replace (decimal (a :: ds) <? - INT_MAX - 1) with false
      by (symmetry; apply Z.ltb_ge; lia).
    replace (INT_MAX <? decimal (a :: ds)) with false
      by (symmetry; apply Z.ltb_ge; lia).
    reflexivity.
Qed.

(** [ss >> type] on a stream that holds white space, OK and then white
    space. *)
Lemma extract_string_OK `{Platform} ws w rest old :
  blank ws ->
  isspace (char_value w) = true ->
  extract_string {| rdbuf := ws ++ str "OK" ++ w :: rest; eofbit := false; failbit := false |} old
  = (str "OK", {| rdbuf := w :: rest; eofbit := false; failbit := false |}).
Proof.
  intros Hws Hw.
  unfold extract_string, sentry. cbn [eofbit failbit rdbuf orb].
  rewrite skipws_app by exact Hws.
  assert (HO : isspace (char_value "O"%char) = false)
    by (rewrite char_value_ascii by (cbn; lia); reflexivity).
  assert (HK : isspace (char_value "K"%char) = false)
    by (rewrite char_value_ascii by (cbn; lia); reflexivity).
  cbn [str list_ascii_of_string app]. rewrite (skipws_solid _ _ HO).
  cbn [rdbuf span_word]. now rewrite HO, HK, Hw.
Qed.

(** The first two extractions of [updatePosition] on OK and a number. *)
Lemma parse_confirmation_OK `{Platform} ws1 w2 ws2 px tail :
  blank ws1 ->
  blank (w2 :: ws2) ->
  fits_int px ->
  span_digits tail = ([], tail) ->
  parse_confirmation (ws1 ++ str "OK" ++ (w2 :: ws2) ++ to_string px ++ tail)
  = let (py, ss) :=
      extract_int {| rdbuf := tail; eofbit := at_end tail; failbit := false |}
        indeterminate_int in
    if at_end tail || negb (eofbit ss) then None else Some {| x := px; y := py |}.
Proof.
  intros H1 H2 Hpx Htail. unfold parse_confirmation.
  cbn [app]. rewrite extract_string_OK; [|exact H1 | now inversion H2].
  cbn [eofbit orb].
  destruct (str_eq_dec (str "OK") (str "OK")) as [_ | Hne]; [|congruence].
  change (w2 :: ws2 ++ to_string px ++ tail) with ((w2 :: ws2) ++ to_string px ++ tail).
  rewrite (extract_int_number (w2 :: ws2) px tail) by assumption.
  cbn [eofbit orb]. reflexivity.
Qed.

(** X9. A confirmation is read back as it was written. For numbers [px]
    and [py] that fit an [int], [updatePosition] on OK, [px] and [py] in
    decimal, separated by white space of any length and after any leading
    white space, sends nothing and stores the position [(px, py)]. *)
Theorem updatePosition_accepts `{Platform} (ws1 ws2 ws3 : list ascii) (w2 w3 : ascii)
    (px py : Z) (c : ClientController) :
  blank ws1 ->
  blank (w2 :: ws2) ->
  blank (w3 :: ws3) ->
  fits_int px ->
  fits_int py ->
  updatePosition
    (ws1 ++ str "OK" ++ (w2 :: ws2) ++ to_string px ++ (w3 :: ws3) ++ to_string py) c
  = (Ret tt, with_position {| x := px; y := py |} c).
Proof.
  intros H1 H2 H3 Hpx Hpy. unfold updatePosition.
  rewrite parse_confirmation_OK; try assumption.
  - cbn [app at_end].
    change (w3 :: ws3 ++ to_string py) with ((w3 :: ws3) ++ to_string py).
    rewrite <- (app_nil_r (to_string py)).
    rewrite (extract_int_number (w3 :: ws3) py []); [reflexivity | assumption ..| reflexivity].
  - cbn [app]. apply span_digits_other, isspace_isdigit. now inversion H3.
Qed.

Lemma updatePosition_accepts_witness :
  @updatePosition x86_64_linux (str " OK  -12 7") (accepted [] None)
  = (Ret tt, with_position {| x := -12; y := 7 |} (accepted [] None)).
Proof.
  apply (@updatePosition_accepts x86_64_linux [" "%char] [" "%char] [] " " " " (-12) 7).
  - repeat constructor.
  - repeat constructor.
  - repeat constructor.
  - unfold fits_int, INT_MAX. lia.
  - unfold fits_int, INT_MAX. lia.
Defined.

(** X10. A confirmation without its second number. When white space but no
    second number follows the first number, [updatePosition] reports no
    error: it stores the first number as [x] and leaves in [y] whatever the
    uninitialised local [y] holds. *)
Theorem updatePosition_missing_y `{Platform} (ws1 ws2 ws3 : list ascii) (w2 w3 : ascii)
    (px : Z) (c : ClientController) :
  blank ws1 ->
  blank (w2 :: ws2) ->
  blank (w3 :: ws3) ->
  fits_int px ->
  updatePosition (ws1 ++ str "OK" ++ (w2 :: ws2) ++ to_string px ++ w3 :: ws3) c
  = (Ret tt, with_position {| x := px; y := indeterminate_int |} c).
Proof.
  intros H1 H2 H3 Hpx. unfold updatePosition.
  rewrite parse_confirmation_OK; try assumption.
  - unfold extract_int, sentry. cbn [at_end eofbit failbit rdbuf orb].
    rewrite (skipws_blank _ H3). reflexivity.
  - apply span_digits_other, isspace_isdigit. now inversion H3.
Qed.

Lemma updatePosition_missing_y_witness :
  @updatePosition x86_64_linux (str "OK 3 ") (accepted [] None)
  = (Ret tt, with_position {| x := 3; y := @indeterminate_int x86_64_linux |}
               (accepted [] None)).
Proof.
  apply (@updatePosition_missing_y x86_64_linux [] [] [] " " " " 3).
  - constructor.
  - repeat constructor.
  - repeat constructor.
  - unfold fits_int, INT_MAX. lia.
Defined.

(** X11. What a confirmation must not end with. [updatePosition] answers
    301 SYNTAX ERROR and throws, leaving the position as it was, when the
    message ends right after the first number, and when anything that is no
    digit, white space included, follows the second number. *)
Theorem updatePosition_refuses `{Platform} (ws1 ws2 ws3 : list ascii) (w2 w3 t : ascii)
    (px py : Z) (rest : list ascii) (c : ClientController) :
  blank ws1 ->
  blank (w2 :: ws2) ->
  blank (w3 :: ws3) ->
  fits_int px ->
  fits_int py ->
  isdigit (char_value t) = false ->
  send_budget c = None ->
  let refused := (Throw (runtime_error "Confirm message not valid."),
                  sent (wire SERVER_SYNTAX_ERROR) None c) in
  updatePosition (ws1 ++ str "OK" ++ (w2 :: ws2) ++ to_string px) c = refused
  /\ updatePosition
       (ws1 ++ str "OK" ++ (w2 :: ws2) ++ to_string px
            ++ (w3 :: ws3) ++ to_string py ++ t :: rest) c
     = refused.
Proof.
  intros H1 H2 H3 Hpx Hpy Ht Hb refused. unfold updatePosition. split.
  - rewrite <- (app_nil_r (to_string px)).
    rewrite parse_confirmation_OK; [|assumption ..|reflexivity].
    cbn [at_end orb]. destruct (extract_int _ _).
    unfold bind. now rewrite sendResponse_reliable by exact Hb.
  - rewrite parse_confirmation_OK; try assumption.
    + cbn [app at_end].
      change (w3 :: ws3 ++ to_string py ++ t :: rest)
        with ((w3 :: ws3) ++ to_string py ++ t :: rest).
      rewrite (extract_int_number (w3 :: ws3) py (t :: rest));
        [ | assumption .. | now apply span_digits_other].
      cbn [eofbit at_end negb orb].
      unfold bind. now rewrite sendResponse_reliable by exact Hb.
    + cbn [app]. apply span_digits_other, isspace_isdigit. now inversion H3.
Qed.

Lemma updatePosition_refuses_witness :
  let c := accepted [] None in
  let refused := (Throw (runtime_error "Confirm message not valid."),
                  sent (wire SERVER_SYNTAX_ERROR) None c) in
  @updatePosition x86_64_linux (str "OK 1") c = refused
  /\ @updatePosition x86_64_linux (str "OK 1 2 ") c = refused.
Proof.
  apply (@updatePosition_refuses x86_64_linux [] [] [] " " " " " " 1 2 []).
  - constructor.
  - repeat constructor.
  - repeat constructor.
  - unfold fits_int, INT_MAX. lia.
  - unfold fits_int, INT_MAX. lia.
  - reflexivity.
  - reflexivity.
Defined.

(** ** Moves *)

Lemma moveRobot_confirmed `{Platform} fuel d msg p rest c :
  send_budget c = None ->
  sock_in c = arriving d (wire msg) ++ rest ->
  d < TIMEOUT ->
  confirms msg p ->
  let c1 := with_position p
              (with_in rest (with_rcvtimeo TIMEOUT (sent (wire SERVER_MOVE) None c))) in
  moveRobot (S fuel) c
  = if Position_eqb p (position c) then moveRobot fuel c1 else (Ret tt, c1).
Proof.
  intros Hb Hin Hd (Hparse & Hterm & Hlen & Hne) c1.
  cbn [moveRobot]. unfold bind at 1, get_position.
  unfold bind at 1. rewrite sendResponse_reliable by exact Hb.
  unfold bind at 1.
  rewrite (readMsg_frame fuel CLIENT_OK_LENGTH d msg rest); try assumption;
    [| unfold CLIENT_OK_LENGTH, INT_MAX; lia].
  unfold bind at 1. unfold updatePosition. rewrite Hparse.
  unfold set_position, bind, positionEquals.
  cbn [position with_position]. fold c1. unfold Position_eqb.
  now destruct ((x p =? x (position c)) && (y p =? y (position c))).
Qed.

Lemma Position_eqb_eq p q : Position_eqb p q = true <-> p = q.
Proof.
  unfold Position_eqb. rewrite andb_true_iff, !Z.eqb_eq.
  destruct p, q; cbn. split; [intros [-> ->]; reflexivity | intros [= -> ->]; now split].
Qed.

Lemma moveRobot_stuck `{Platform} (d : Z) (moved : list ascii) (p : Position)
    (rest : list event) (fuel : nat) (stuck : list (list ascii)) :
  forall c : ClientController,
    send_budget c = None ->
    d < TIMEOUT ->
    Forall (fun msg => confirms msg (position c)) stuck ->
    confirms moved p ->
    p <> position c ->
    sock_in c = replies d (stuck ++ [moved]) ++ rest ->
    exists c',
      moveRobot (length stuck + S fuel) c = (Ret tt, c')
      /\ position c' = p
      /\ direction c' = direction c
      /\ sock_in c' = rest
      /\ sock_out c'
         = sock_out c ++ concat (repeat (wire SERVER_MOVE) (S (length stuck))).
Proof.
  induction stuck as [|msg stuck IH]; intros c Hb Hd Hstuck Hmoved Hp Hin.
  - cbn [app] in Hin. rewrite replies_cons in Hin. cbn [length Nat.add].
    rewrite (moveRobot_confirmed fuel d moved p (replies d [] ++ rest)); try assumption.
    replace (Position_eqb p (position c)) with false
      by (symmetry; apply not_true_is_false; now rewrite Position_eqb_eq).
    eexists. split; [reflexivity|].
    cbn [position direction sock_in sock_out with_position with_in with_rcvtimeo sent
         length repeat concat].
    rewrite app_nil_r. repeat split.
  - inversion Hstuck as [|? ? Hmsg Hstuck']; subst.
    cbn [app] in Hin. rewrite replies_cons in Hin. cbn [length Nat.add].
    rewrite (moveRobot_confirmed _ d msg (position c)
               (replies d (stuck ++ [moved]) ++ rest)); try assumption.
    replace (Position_eqb (position c) (position c)) with true
      by (symmetry; now apply Position_eqb_eq).
    destruct (IH (with_position (position c)
                    (with_in (replies d (stuck ++ [moved]) ++ rest)
                       (with_rcvtimeo TIMEOUT (sent (wire SERVER_MOVE) None c)))))
      as (c' & Hmove & Hpos & Hdir & Hin' & Hout); try assumption; try reflexivity.
    exists c'. split; [exact Hmove|]. split; [exact Hpos|]. split; [exact Hdir|].
    split; [exact Hin'|].
    rewrite Hout. cbn [sock_out with_position with_in with_rcvtimeo sent].
    cbn [repeat concat]. now rewrite <- !app_assoc.
Qed.

(** A call that may nest no deeper than the robot stays where it is does
    not complete: it has sent one 102 MOVE for each nested call. *)
Lemma moveRobot_stuck_exhaust `{Platform} (d : Z) (fuel : nat) :
  forall (stuck : list (list ascii)) (rest : list event) (c : ClientController),
    send_budget c = None ->
    d < TIMEOUT ->
    Forall (fun msg => confirms msg (position c)) stuck ->
    sock_in c = replies d stuck ++ rest ->
    (fuel <= length stuck)%nat ->
    exists c',
      moveRobot fuel c = (Hang, c')
      /\ sock_out c' = sock_out c ++ concat (repeat (wire SERVER_MOVE) fuel).
Proof.
  induction fuel as [|fuel IH]; intros stuck rest c Hb Hd Hstuck Hin Hlen.
  - exists c. split; [reflexivity|]. cbn. now rewrite app_nil_r.
  - destruct stuck as [|msg stuck]; [cbn in Hlen; lia|].
    apply Forall_cons_iff in Hstuck as [Hmsg Hstuck].
    rewrite replies_cons in Hin.
    rewrite (moveRobot_confirmed fuel d msg (position c) (replies d stuck ++ rest));
      try assumption.
    replace (Position_eqb (position c) (position c)) with true
      by (symmetry; now apply Position_eqb_eq).
    destruct (IH stuck rest
                (with_position (position c)
                   (with_in (replies d stuck ++ rest)
                      (with_rcvtimeo TIMEOUT (sent (wire SERVER_MOVE) None c)))))
      as (c' & Hmove & Hout); try assumption; try reflexivity.
    + cbn [length] in Hlen. lia.
    + exists c'. split; [exact Hmove|].
      rewrite Hout. cbn [sock_out with_position with_in with_rcvtimeo sent].
      cbn [repeat concat]. now rewrite <- !app_assoc.
Qed.

(** X12. A robot that does not move is told to move again, from one nested
    call deeper each time. The robot answers 102 MOVE with its unchanged
    position [k] times and then with another position [p], in frames that
    are read as these positions whatever the implementation leaves open.
    A call of [moveRobot] that may nest no deeper than [k] does not
    complete: it has sent one 102 MOVE for each nested call when they are
    used up; in the program the bound is the call stack, whose exhaustion
    kills the process. A call that may nest deeper sends 102 MOVE [k + 1]
    times and nothing else, takes these confirmations and no more from the
    socket, and returns with the position [p] and the heading it had. *)
Theorem moveRobot_retries `{Platform} (d : Z) (moved : list ascii) (p : Position)
    (rest : list event) (fuel : nat) (stuck : list (list ascii)) (c : ClientController) :
  send_budget c = None ->
  d < TIMEOUT ->
  Forall (fun msg => reports msg (position c)) stuck ->
  reports moved p ->
  p <> position c ->
  sock_in c = replies d (stuck ++ [moved]) ++ rest ->
  ((fuel <= length stuck)%nat ->
   exists c',
     moveRobot fuel c = (Hang, c')
     /\ sock_out c' = sock_out c ++ concat (repeat (wire SERVER_MOVE) fuel))
  /\ ((length stuck < fuel)%nat ->
      exists c',
        moveRobot fuel c = (Ret tt, c')
        /\ position c' = p
        /\ direction c' = direction c
        /\ sock_in c' = rest
        /\ sock_out c'
           = sock_out c ++ concat (repeat (wire SERVER_MOVE) (S (length stuck)))).
Proof.
  intros Hb Hd Hstuck Hmoved Hp Hin.
  assert (Hstuck' : Forall (fun msg => confirms msg (position c)) stuck)
    by (eapply Forall_impl; [|exact Hstuck]; intros msg Hmsg; apply Hmsg).
  split; intros Hlen.
  - unfold replies in Hin. rewrite map_app, concat_app, <- app_assoc in Hin.
    now apply (moveRobot_stuck_exhaust d fuel stuck _ c Hb Hd Hstuck' Hin).
  - destruct (Nat.le_exists_sub (S (length stuck)) fuel Hlen) as (j & -> & _).
    replace (j + S (length stuck))%nat with (length stuck + S j)%nat by lia.
    now apply (moveRobot_stuck d moved p rest j stuck c).
Qed.

Lemma moveRobot_retries_witness :
  let c := with_position {| x := 1; y := 1 |}
             (accepted (frames ["OK 1 1"; "OK 1 1"; "OK 1 2"; "OK 1 3"]%string) None) in
  (exists c',
     @moveRobot x86_64_linux 2 c = (Hang, c')
     /\ sock_out c' = sock_out c ++ concat (repeat (wire SERVER_MOVE) 2))
  /\ exists c',
       @moveRobot x86_64_linux 3 c = (Ret tt, c')
       /\ position c' = {| x := 1; y := 2 |}
       /\ direction c' = direction c
       /\ sock_in c' = frames ["OK 1 3"%string]
       /\ sock_out c' = sock_out c ++ concat (repeat (wire SERVER_MOVE) 3).
Proof.
  intros c.
  assert (Hstuck : Forall (fun msg => reports msg (position c))
                     [str "OK 1 1"; str "OK 1 1"]).
  { apply Forall_cons; [|apply Forall_cons; [|apply Forall_nil]];
      intros [[] ic ii]; (repeat split; [cbn; lia | discriminate]). }
  assert (Hmoved : reports (str "OK 1 2") {| x := 1; y := 2 |}).
  { intros [[] ic ii]; (repeat split; [cbn; lia | discriminate]). }
  assert (Hp : {| x := 1; y := 2 |} <> position c) by discriminate.
  split.
  - apply (@moveRobot_retries x86_64_linux 0 (str "OK 1 2") {| x := 1; y := 2 |}
             (frames ["OK 1 3"%string]) 2%nat [str "OK 1 1"; str "OK 1 1"] c
             eq_refl eq_refl Hstuck Hmoved Hp eq_refl).
    cbn. lia.
  - apply (@moveRobot_retries x86_64_linux 0 (str "OK 1 2") {| x := 1; y := 2 |}
             (frames ["OK 1 3"%string]) 3%nat [str "OK 1 1"; str "OK 1 1"] c
             eq_refl eq_refl Hstuck Hmoved Hp eq_refl).
    cbn. lia.
Defined.

Lemma moveRobot_moved `{Platform} (fuel : nat) :
  forall c c' : ClientController,
    moveRobot fuel c = (Ret tt, c') ->
    position c' <> position c /\ direction c' = direction c.
Proof.
  induction fuel as [|fuel IH]; intros c c'; [discriminate|].
  cbn [moveRobot]. unfold bind at 1, get_position. unfold bind at 1.
  destruct (sendResponse SERVER_MOVE c) as [[[]| |] c1] eqn:Hs; try discriminate.
  apply sendResponse_same_robot in Hs as [_ Hd1].
  unfold bind at 1.
  destruct (readMsg (S fuel) CLIENT_OK_LENGTH c1) as [[msg| |] c2] eqn:Hr;
    try discriminate.
  apply readMsg_same_robot in Hr as [_ Hd2].
  unfold bind at 1.
  destruct (updatePosition msg c2) as [[[]| |] c3] eqn:Hu; try discriminate.
  apply updatePosition_direction in Hu.
  unfold bind, positionEquals.
  destruct ((x (position c3) =? x (position c)) && (y (position c3) =? y (position c)))
    eqn:Hsame.
  - intros Hmove. apply IH in Hmove as [Hpos Hdir].
    assert (Heq : position c3 = position c) by now apply Position_eqb_eq.
    split; congruence.
  - intros [= <-]. split; [|congruence].
    intros Heq. apply Position_eqb_eq in Heq. unfold Position_eqb in Heq. congruence.
Qed.

Lemma readMsg_quiet `{Platform} fuel m : forall c c' p,
  readMsg fuel m c = (Ret p, c') -> sock_out c' = sock_out c.
Proof.
  induction fuel as [|fuel IH]; intros c c' p; [discriminate|].
  cbn [readMsg]. unfold bind at 1. unfold readFromSocketWithWait at 1.
  destruct (readFromSocket m (with_rcvtimeo TIMEOUT c)) as [[msg| |] c1] eqn:H1;
    try discriminate.
  apply readFromSocket_ret in H1 as [rest1 ->].
  destruct (str_eq_dec msg CLIENT_RECHARGING) as [_ | _].
  - unfold bind at 1. unfold readFromSocketWithWait at 1.
    destruct (readFromSocket CLIENT_FULL_POWER_LENGTH _) as [[msg2| |] c2] eqn:H2;
      try discriminate.
    apply readFromSocket_ret in H2 as [rest2 ->].
    destruct (str_eq_dec msg2 CLIENT_FULL_POWER).
    + intros Hrun. now apply IH in Hrun.
    + unfold bind, sendResponse, throw. cbn [send_budget with_in with_rcvtimeo].
      destruct (send_budget c) as [[|left]|]; discriminate.
  - intros [= _ <-]. reflexivity.
Qed.

Lemma updatePosition_quiet `{Platform} msg c c' :
  updatePosition msg c = (Ret tt, c') -> sock_out c' = sock_out c.
Proof.
  unfold updatePosition. destruct (parse_confirmation msg).
  - intros [= <-]. reflexivity.
  - unfold bind, sendResponse, throw.
    destruct (send_budget c) as [[|left]|]; discriminate.
Qed.

(** X13. [moveRobot] returns only after the robot has moved. Whatever the
    client sends, when [moveRobot] returns the position differs from the
    position at the call, the heading is the one at the call, and what was
    sent is 102 MOVE, once or more often, and nothing else. *)
Theorem moveRobot_returns `{Platform} (fuel : nat) :
  forall c c' : ClientController,
    moveRobot fuel c = (Ret tt, c') ->
    position c' <> position c
    /\ direction c' = direction c
    /\ exists k, sock_out c' = sock_out c ++ concat (repeat (wire SERVER_MOVE) (S k)).
Proof.
  induction fuel as [|fuel IH]; intros c c'; [discriminate|].
  intros Hrun. destruct (moveRobot_moved _ _ _ Hrun) as [Hpos Hdir].
  split; [exact Hpos|]. split; [exact Hdir|].
  revert Hrun. cbn [moveRobot]. unfold bind at 1, get_position. unfold bind at 1.
  destruct (sendResponse SERVER_MOVE c) as [[[]| |] c1] eqn:Hs; try discriminate.
  assert (Hout1 : sock_out c1 = sock_out c ++ wire SERVER_MOVE).
  { revert Hs. unfold sendResponse.
    destruct (send_budget c) as [[|left]|]; intros [= <-]; reflexivity. }
  unfold bind at 1.
  destruct (readMsg (S fuel) CLIENT_OK_LENGTH c1) as [[msg| |] c2] eqn:Hr;
    try discriminate.
  apply readMsg_quiet in Hr.
  unfold bind at 1.
  destruct (updatePosition msg c2) as [[[]| |] c3] eqn:Hu; try discriminate.
  apply updatePosition_quiet in Hu.
  unfold bind, positionEquals.
  destruct ((x (position c3) =? x (position c)) && (y (position c3) =? y (position c))).
  - intros Hmove. apply IH in Hmove as (_ & _ & k & Hout).
    exists (S k). rewrite Hout, Hu, Hr, Hout1. cbn [repeat concat].
    now rewrite <- app_assoc.
  - intros [= <-]. exists 0%nat. rewrite Hu, Hr, Hout1. cbn [repeat concat].
    now rewrite app_nil_r.
Qed.

Lemma moveRobot_returns_witness :
  let c := accepted (frames ["OK 0 0"; "OK 0 1"]%string) None in
  let c' := snd (@moveRobot x86_64_linux 2 c) in
  position c' <> position c
  /\ direction c' = direction c
  /\ exists k, sock_out c' = sock_out c ++ concat (repeat (wire SERVER_MOVE) (S k)).
Proof.
  intros c c'. apply (@moveRobot_returns x86_64_linux 2 c c'). reflexivity.
Defined.

(** ** Heading inference, when it works *)

(** X14. The heading that [getDirection] infers. Whatever the client sends,
    when [getDirection] returns exactly one coordinate has changed since the
    call, and the heading is never left unknown: it is UP or DOWN when [y]
    grew or shrank with [x] unchanged, RIGHT or LEFT when [x] grew or shrank
    with [y] unchanged. *)
Theorem getDirection_returns `{Platform} (fuel : nat) (c c' : ClientController) :
  getDirection fuel c = (Ret tt, c') ->
  let p := position c in
  let p' := position c' in
  direction c' <> UNKNOWN
  /\ (x p' = x p /\ y p < y p' /\ direction c' = UP
      \/ x p' = x p /\ y p' < y p /\ direction c' = DOWN
      \/ y p' = y p /\ x p < x p' /\ direction c' = RIGHT
      \/ y p' = y p /\ x p' < x p /\ direction c' = LEFT).
Proof.
  unfold getDirection. unfold bind at 1, get_position. unfold bind at 1.
  destruct (moveRobot fuel c) as [[[]| |] c1] eqn:Hmove; try discriminate.
  apply moveRobot_moved in Hmove as [Hne _].
  unfold bind, get_position, updateDirection.
  destruct (position c) as [px py] eqn:Hp, (position c1) as [qx qy] eqn:Hq.
  cbn [x y] in *.
  destruct (Z.eqb_spec px qx) as [Hx | Hx].
  - destruct (Z.ltb_spec py qy) as [Hy | Hy]; intros [= <-];
      cbn [direction position with_direction]; rewrite Hq; cbn [x y];
      (split; [discriminate|]).
    + left. repeat split; congruence || lia.
    + right. left. repeat split; try congruence.
      assert (py <> qy) by (intros ->; subst; congruence). lia.
  - destruct (Z.eqb_spec py qy) as [Hy | Hy]; [|discriminate].
    destruct (Z.ltb_spec px qx) as [Hlt | Hlt]; intros [= <-];
      cbn [direction position with_direction]; rewrite Hq; cbn [x y];
      (split; [discriminate|]).
    + right. right. left. repeat split; congruence || lia.
    + right. right. right. repeat split; try congruence. lia.
Qed.

Lemma getDirection_returns_witness :
  let c := with_position {| x := 3; y := 3 |}
             (accepted (frames ["OK 3 3"; "OK 2 3"]%string) None) in
  let c' := snd (@getDirection x86_64_linux 2 c) in
  direction c' <> UNKNOWN
  /\ (x (position c') = 3 /\ 3 < y (position c') /\ direction c' = UP
      \/ x (position c') = 3 /\ y (position c') < 3 /\ direction c' = DOWN
      \/ y (position c') = 3 /\ 3 < x (position c') /\ direction c' = RIGHT
      \/ y (position c') = 3 /\ x (position c') < 3 /\ direction c' = LEFT).
Proof.
  intros c c'. apply (@getDirection_returns x86_64_linux 2 c c'). reflexivity.
Defined.

(** ** Rotation with a known heading *)

Lemma with_direction_same c : with_direction (direction c) c = c.
Proof. now destruct c. Qed.

Lemma rotateRight_confirmed `{Platform} fuel d msg p rest c :
  send_budget c = None ->
  sock_in c = arriving d (wire msg) ++ rest ->
  d < TIMEOUT ->
  confirms msg p ->
  rotateRight (S fuel) c
  = (Ret tt,
     with_direction (clockwise (direction c))
       (with_position p
          (with_in rest (with_rcvtimeo TIMEOUT (sent (wire SERVER_TURN_RIGHT) None c))))).
Proof.
  intros Hb Hin Hd (Hparse & Hterm & Hlen & Hne).
  unfold rotateRight. unfold bind at 1.
  rewrite sendResponse_reliable by exact Hb.
  unfold bind at 1.
  rewrite (readMsg_frame fuel CLIENT_OK_LENGTH d msg rest); try assumption;
    [| unfold CLIENT_OK_LENGTH, INT_MAX; lia].
  unfold bind at 1. unfold updatePosition. rewrite Hparse.
  unfold set_position, bind, get_direction.
  cbn [direction with_position with_in with_rcvtimeo sent].
  destruct (direction c) eqn:Hdir; try reflexivity.
  unfold ret. f_equal. symmetry.
  rewrite <- with_direction_same. cbn [direction with_position with_in with_rcvtimeo sent].
  now rewrite Hdir.
Qed.

Lemma rotateLeft_confirmed `{Platform} fuel d msg p rest c :
  send_budget c = None ->
  sock_in c = arriving d (wire msg) ++ rest ->
  d < TIMEOUT ->
  confirms msg p ->
  rotateLeft (S fuel) c
  = (Ret tt,
     with_direction (counterclockwise (direction c))
       (with_position p
          (with_in rest (with_rcvtimeo TIMEOUT (sent (wire SERVER_TURN_LEFT) None c))))).
Proof.
  intros Hb Hin Hd (Hparse & Hterm & Hlen & Hne).
  unfold rotateLeft. unfold bind at 1.
  rewrite sendResponse_reliable by exact Hb.
  unfold bind at 1.
  rewrite (readMsg_frame fuel CLIENT_OK_LENGTH d msg rest); try assumption;
    [| unfold CLIENT_OK_LENGTH, INT_MAX; lia].
  unfold bind at 1. unfold updatePosition. rewrite Hparse.
  unfold set_position, bind, get_direction.
  cbn [direction with_position with_in with_rcvtimeo sent].
  destruct (direction c) eqn:Hdir; try reflexivity.
  unfold ret. f_equal. symmetry.
  rewrite <- with_direction_same. cbn [direction with_position with_in with_rcvtimeo sent].
  now rewrite Hdir.
Qed.

Lemma rotateTo_there `{Platform} fuel to c :
  direction c = to -> rotateTo (S fuel) to c = (Ret tt, c).
Proof.
  intros Hdir. cbn [rotateTo]. unfold bind, get_direction. rewrite Hdir.
  now destruct (Direction_eq_dec to to).
Qed.

Lemma rotateTo_right `{Platform} fuel to c :
  Direction_value (direction c) < Direction_value to ->
  rotateTo (S fuel) to c = (rotateRight (S fuel) ;;; rotateTo fuel to) c.
Proof.
  intros Hlt. cbn [rotateTo]. unfold bind at 1, get_direction.
  destruct (Direction_eq_dec (direction c) to) as [Heq | _].
  - rewrite Heq in Hlt. lia.
  - destruct (direction c), to; cbn in Hlt; try lia; reflexivity.
Qed.

Lemma rotateTo_left `{Platform} fuel to c :
  Direction_value to < Direction_value (direction c) ->
  rotateTo (S fuel) to c = (rotateLeft (S fuel) ;;; rotateTo fuel to) c.
Proof.
  intros Hlt. cbn [rotateTo]. unfold bind at 1, get_direction.
  destruct (Direction_eq_dec (direction c) to) as [Heq | _].
  - rewrite Heq in Hlt. lia.
  - destruct (direction c), to; cbn in Hlt; try lia; reflexivity.
Qed.

Lemma Direction_value_inj a b : Direction_value a = Direction_value b -> a = b.
Proof. destruct a, b; cbn; intros Hv; try reflexivity; lia. Qed.

(** X15. [rotateTo] never turns across the gap between LEFT and UP. From a
    known heading [rotateTo] reaches a known heading [to] by as many quarter
    turns as their values UP = 1, RIGHT = 2, DOWN = 3, LEFT = 4 differ, all
    to the right when [to] has the greater value and all to the left
    otherwise; so from UP to LEFT it sends 104 TURN RIGHT three times. It
    returns facing [to], having taken one confirmation for each turn. *)
Theorem rotateTo_known `{Platform} (d : Z) (to : Direction) (msgs : list (list ascii))
    (rest : list event) (fuel : nat) (c : ClientController) :
  direction c <> UNKNOWN ->
  to <> UNKNOWN ->
  send_budget c = None ->
  d < TIMEOUT ->
  Forall (fun msg => exists p, confirms msg p) msgs ->
  Z.of_nat (length msgs) = Z.abs (Direction_value to - Direction_value (direction c)) ->
  sock_in c = replies d msgs ++ rest ->
  exists c',
    rotateTo (length msgs + S fuel) to c = (Ret tt, c')
    /\ direction c' = to
    /\ sock_in c' = rest
    /\ sock_out c'
       = sock_out c
         ++ concat (repeat (wire (if Direction_value (direction c) <? Direction_value to
                                  then SERVER_TURN_RIGHT else SERVER_TURN_LEFT))
                      (length msgs)).
Proof.
  revert c. induction msgs as [|msg msgs IH]; intros c Hdir Hto Hb Hd Hall Hlen Hin.
  - cbn [length] in *. cbn [Nat.add].
    assert (Heq : direction c = to) by (apply Direction_value_inj; lia).
    rewrite rotateTo_there by exact Heq.
    exists c. cbn. now rewrite app_nil_r.
  - apply Forall_cons_iff in Hall as [[p Hp] Hall'].
    rewrite replies_cons in Hin. cbn [length Nat.add] in *.
    rewrite Nat2Z.inj_succ in Hlen.
    destruct (Z.ltb_spec (Direction_value (direction c)) (Direction_value to))
      as [Hlt | Hge].
    + rewrite rotateTo_right by exact Hlt. unfold bind at 1.
      rewrite (rotateRight_confirmed _ d msg p (replies d msgs ++ rest)) by assumption.
      set (c1 := with_direction _ _).
      assert (Hv : Direction_value (direction c1) = Direction_value (direction c) + 1).
      { subst c1. cbn [direction with_direction].
        destruct (direction c), to; cbn in Hlt |- *; congruence || lia. }
      destruct (IH c1) as (c' & Hrot & Hdir' & Hin' & Hout);
        try assumption; try reflexivity.
      * intros Hu. rewrite Hu in Hv. cbn in Hv.
        destruct (direction c); cbn in Hv; congruence || lia.
      * lia.
      * exists c'. split; [exact Hrot|]. split; [exact Hdir'|]. split; [exact Hin'|].
        rewrite Hout. subst c1.
        cbn [sock_out with_direction with_position with_in with_rcvtimeo sent].
        cbn [repeat concat]. rewrite <- !app_assoc. f_equal.
        replace (Direction_value (direction c) <? Direction_value to)
          with true by (symmetry; apply Z.ltb_lt; lia).
        f_equal.
        destruct msgs as [|m2 msgs]; [reflexivity|].
        cbn [length] in Hlen. rewrite Nat2Z.inj_succ in Hlen.
        cbn [direction with_direction] in Hv |- *.
        replace (Direction_value (clockwise (direction c)) <? Direction_value to)
          with true by (symmetry; apply Z.ltb_lt; lia).
        reflexivity.
    + assert (Hgt : Direction_value to < Direction_value (direction c)) by lia.
      rewrite rotateTo_left by exact Hgt. unfold bind at 1.
      rewrite (rotateLeft_confirmed _ d msg p (replies d msgs ++ rest)) by assumption.
      set (c1 := with_direction _ _).
      assert (Hv : Direction_value (direction c1) = Direction_value (direction c) - 1).
      { subst c1. cbn [direction with_direction].
        destruct (direction c), to; cbn in Hgt |- *; congruence || lia. }
      destruct (IH c1) as (c' & Hrot & Hdir' & Hin' & Hout);
        try assumption; try reflexivity.
      * intros Hu. rewrite Hu in Hv. cbn in Hv.
        destruct to; cbn in Hgt; congruence || lia.
      * lia.
      * exists c'. split; [exact Hrot|]. split; [exact Hdir'|]. split; [exact Hin'|].
        rewrite Hout. subst c1.
        cbn [sock_out with_direction with_position with_in with_rcvtimeo sent].
        cbn [repeat concat]. rewrite <- !app_assoc. f_equal.
        replace (Direction_value (direction c) <? Direction_value to)
          with false by (symmetry; apply Z.ltb_ge; lia).
        f_equal.
        destruct msgs as [|m2 msgs]; [reflexivity|].
        cbn [length] in Hlen. rewrite Nat2Z.inj_succ in Hlen.
        cbn [direction with_direction] in Hv |- *.
        replace (Direction_value (counterclockwise (direction c)) <? Direction_value to)
          with false by (symmetry; apply Z.ltb_ge; lia).
        reflexivity.
Qed.

Lemma rotateTo_known_witness :
  let c := with_direction UP
             (accepted (replies 0 [str "OK 0 0"; str "OK 0 0"; str "OK 0 0"]
                        ++ frames ["OK 0 1"%string]) None) in
  exists c',
    @rotateTo x86_64_linux (3 + 1) LEFT c = (Ret tt, c')
    /\ direction c' = LEFT
    /\ sock_in c' = frames ["OK 0 1"%string]
    /\ sock_out c' = sock_out c ++ concat (repeat (wire SERVER_TURN_RIGHT) 3).
Proof.
  intros c.
  apply (@rotateTo_known x86_64_linux 0 LEFT [str "OK 0 0"; str "OK 0 0"; str "OK 0 0"]
           (frames ["OK 0 1"%string]) 0%nat c).
  - discriminate.
  - discriminate.
  - reflexivity.
  - reflexivity.
  - repeat constructor;
      (exists {| x := 0; y := 0 |}; repeat split; [cbn; lia | discriminate]).
  - reflexivity.
  - reflexivity.
Defined.

(** ** What a session sends and throws *)

Lemma conduct_silent `{Platform} {A} fin (m : M A) :
  (forall c r c', m c = (r, c') ->
     sock_out c' = sock_out c
     /\ match r with Throw e => caught e \/ escapes e | _ => True end) ->
  conduct fin m.
Proof.
  intros Hm c r c' Hrun. destruct (Hm c r c' Hrun) as [Hout Hr].
  exists [], []. cbn. rewrite app_nil_r. split; [exact Hout|]. split; [constructor|].
  destruct r; auto.
Qed.

Lemma conduct_ret `{Platform} {A} fin (a : A) : conduct fin (ret a).
Proof. apply conduct_silent. intros c r c' [= <- <-]. now split. Qed.

Lemma conduct_throw `{Platform} {A} fin e :
  caught e \/ escapes e -> conduct fin (@throw A e).
Proof. intros He. apply conduct_silent. intros c r c' [= <- <-]. now split. Qed.

Lemma conduct_hang `{Platform} {A} fin : conduct fin (@hang A).
Proof. apply conduct_silent. intros c r c' [= <- <-]. now split. Qed.

Lemma conduct_bind `{Platform} {A B} fin (m : M A) (k : A -> M B) :
  conduct [] m -> (forall a, conduct fin (k a)) -> conduct fin (bind m k).
Proof.
  intros Hm Hk c r c'. unfold bind.
  destruct (m c) as [[a | e |] c1] eqn:Hrun;
    destruct (Hm c _ c1 Hrun) as (body & tail & Hout & Hbody & Htail).
  - intros Hrun2.
    destruct (Hk a c1 r c' Hrun2) as (body2 & tail2 & Hout2 & Hbody2 & Htail2).
    destruct Htail as [-> | (msg & [] & _)].
    exists (body ++ body2), tail2. rewrite app_nil_r in Hout.
    split; [|split; [now apply Forall_app | exact Htail2]].
    rewrite Hout2, Hout, <- app_assoc. f_equal.
    now rewrite <- app_assoc, (map_app wire body), concat_app.
  - intros [= <- <-]. now exists body, tail.
  - intros [= <- <-]. now exists body, tail.
Qed.

Lemma conduct_sendResponse `{Platform} fin msg :
  ordinary msg -> conduct fin (sendResponse msg).
Proof.
  intros Hmsg c r c'. unfold sendResponse.
  destruct (send_budget c) as [[|k]|]; intros [= <- <-].
  - exists [], []. cbn. rewrite app_nil_r. repeat split; [constructor|].
    left. split; [reflexivity|]. left. now eexists.
  - exists [msg], []. cbn. rewrite !app_nil_r. repeat split; [now constructor|now left].
  - exists [msg], []. cbn. rewrite !app_nil_r. repeat split; [now constructor|now left].
Qed.

Lemma conduct_last `{Platform} fin msg :
  In msg fin -> conduct fin (sendResponse msg).
Proof.
  intros Hmsg c r c'. unfold sendResponse.
  destruct (send_budget c) as [[|k]|]; intros [= <- <-].
  - exists [], []. cbn. rewrite app_nil_r. repeat split; [constructor|].
    left. split; [reflexivity|]. left. now eexists.
  - exists [], [msg]. cbn. rewrite !app_nil_r. repeat split; [constructor|].
    right. now exists msg.
  - exists [], [msg]. cbn. rewrite !app_nil_r. repeat split; [constructor|].
    right. now exists msg.
Qed.

(** An error message, then the exception. *)
Lemma conduct_error `{Platform} {A} fin msg what :
  error_message msg ->
  conduct fin (sendResponse msg ;;; @throw A (runtime_error what)).
Proof.
  intros Hmsg c r c'. unfold bind, sendResponse, throw.
  destruct (send_budget c) as [[|k]|]; intros [= <- <-].
  - exists [], []. cbn. rewrite app_nil_r. repeat split; [constructor|].
    left. split; [reflexivity|]. left. now eexists.
  - exists [], [msg]. cbn. rewrite !app_nil_r. repeat split; [constructor|].
    right. exists msg. repeat split; [exact Hmsg | now eexists].
  - exists [], [msg]. cbn. rewrite !app_nil_r. repeat split; [constructor|].
    right. exists msg. repeat split; [exact Hmsg | now eexists].
Qed.

(** The socket's side of a controller does not matter. *)
Lemma conduct_on `{Platform} {A} fin (m : M A) (f : ClientController -> ClientController) :
  (forall c, sock_out (f c) = sock_out c) ->
  conduct fin m -> conduct fin (fun c => m (f c)).
Proof.
  intros Hf Hm c r c' Hrun.
  destruct (Hm (f c) r c' Hrun) as (body & tail & Hout & Hrest).
  exists body, tail. rewrite <- (Hf c). split; [exact Hout | exact Hrest].
Qed.

Lemma conduct_readFromSocket `{Platform} fin m : conduct fin (readFromSocket m).
Proof.
  intros c r c'. unfold readFromSocket.
  destruct (read_loop m (rcvtimeo c) (sock_in c) read_start) as [[q| | |] rest].
  - revert c r c'. apply conduct_silent. intros c r c' [= <- <-]. now split.
  - apply (conduct_on fin _ (with_in rest)); [reflexivity|].
    apply conduct_error. cbn. auto.
  - intros [= <- <-]. exists [], []. cbn. rewrite app_nil_r.
    repeat split; [constructor|]. left. split; [reflexivity|]. left. now eexists.
  - intros [= <- <-]. exists [], []. cbn. rewrite app_nil_r.
    repeat split. constructor.
Qed.

Lemma conduct_readFromSocketWithWait `{Platform} fin m t :
  conduct fin (readFromSocketWithWait m t).
Proof.
  unfold readFromSocketWithWait.
  apply (conduct_on fin (readFromSocket m) (with_rcvtimeo t)); [reflexivity|].
  apply conduct_readFromSocket.
Qed.

Lemma conduct_readMsg `{Platform} fin fuel m : conduct fin (readMsg fuel m).
Proof.
  induction fuel as [|fuel IH]; [apply conduct_hang|].
  cbn [readMsg]. apply conduct_bind; [apply conduct_readFromSocketWithWait|].
  intros msg. destruct (str_eq_dec msg CLIENT_RECHARGING); [|apply conduct_ret].
  apply conduct_bind; [apply conduct_readFromSocketWithWait|].
  intros msg2. destruct (str_eq_dec msg2 CLIENT_FULL_POWER); [exact IH|].
  apply conduct_error. cbn. auto.
Qed.

Lemma conduct_get_position `{Platform} fin : conduct fin get_position.
Proof. apply conduct_silent. intros c r c' [= <- <-]. now split. Qed.

Lemma conduct_get_direction `{Platform} fin : conduct fin get_direction.
Proof. apply conduct_silent. intros c r c' [= <- <-]. now split. Qed.

Lemma conduct_set_position `{Platform} fin p : conduct fin (set_position p).
Proof. apply conduct_silent. intros c r c' [= <- <-]. now split. Qed.

Lemma conduct_set_direction `{Platform} fin d : conduct fin (set_direction d).
Proof. apply conduct_silent. intros c r c' [= <- <-]. now split. Qed.

Lemma conduct_positionEquals `{Platform} fin p : conduct fin (positionEquals p).
Proof. apply conduct_silent. intros c r c' [= <- <-]. now split. Qed.

Lemma error_message_syntax : error_message SERVER_SYNTAX_ERROR.
Proof. cbn. auto. Qed.

Lemma error_message_login : error_message SERVER_LOGIN_FAILED.
Proof. cbn. auto. Qed.

Create HintDb conduct.

#[local] Hint Resolve conduct_ret conduct_hang conduct_readMsg conduct_error
  conduct_get_position conduct_get_direction conduct_set_position conduct_set_direction
  conduct_positionEquals error_message_syntax error_message_login : conduct.

Ltac conducts :=
  first [ solve [auto with conduct]
        | apply conduct_sendResponse; left; cbn; tauto ].

(** The digits of a confirmation are checked before [std::stoi] sees them. *)
Lemma conduct_reject_non_digit `{Platform} fin s (k : M unit) :
  (all_digits s -> conduct fin k) -> conduct fin (reject_non_digit s ;;; k).
Proof.
  induction s as [|a s IH]; intros Hk.
  - intros c r c'. unfold bind. cbn. apply Hk. constructor.
  - cbn [reject_non_digit]. destruct (isdigit (char_value a)) eqn:Ha; cbn [negb].
    + apply IH. intros Hs. apply Hk. now constructor.
    + intros c r c' Hrun.
      apply (conduct_error (A := unit) fin SERVER_SYNTAX_ERROR "Authentication failed."
               error_message_syntax c r c').
      revert Hrun. unfold bind.
      destruct (sendResponse SERVER_SYNTAX_ERROR c) as [[[]| |] c1]; cbn; auto.
Qed.

Lemma conduct_stoi `{Platform} fin s :
  all_digits s -> (length s <= 9)%nat -> conduct fin (stoi s).
Proof.
  intros Hs Hlen. destruct s as [|a s].
  - apply conduct_throw. right. now left.
  - apply conduct_silent. intros c r c'.
    rewrite stoi_digits by (assumption || cbn [length] in *; lia).
    intros [= <- <-]. now split.
Qed.

Lemma conduct_confirm `{Platform} fin fuel u : conduct fin (confirm fuel u).
Proof.
  unfold confirm. apply conduct_bind; [apply conduct_readMsg|]. intros clientHash.
  destruct (5 <? Z.of_nat (length clientHash)) eqn:Hlen; [conducts|].
  apply Z.ltb_ge in Hlen.
  apply conduct_reject_non_digit. intros Hs.
  apply conduct_bind; [apply conduct_stoi; [exact Hs | lia]|]. intros n.
  destruct (uint16 n =? computeHash CLIENT_KEY u); cbn [negb]; conducts.
Qed.

Lemma ordinary_hash `{Platform} key u : ordinary (to_string (computeHash key u)).
Proof.
  right.
  assert (Hr : 0 <= computeHash key u < 65536)
    by (rewrite computeHash_sum; apply Z.mod_pos_bound; lia).
  split.
  - apply to_string_decimal. lia.
  - apply to_string_length; [|lia]. change (10 ^ Z.of_nat 5) with 100000. lia.
Qed.

Lemma conduct_authenticate `{Platform} fin fuel : conduct fin (authenticate fuel).
Proof.
  unfold authenticate. apply conduct_bind; [apply conduct_readMsg|]. intros u.
  apply conduct_bind; [apply conduct_sendResponse, ordinary_hash|]. intros _.
  apply conduct_confirm.
Qed.

Lemma conduct_updatePosition `{Platform} fin msg : conduct fin (updatePosition msg).
Proof. unfold updatePosition. destruct (parse_confirmation msg); conducts. Qed.

Lemma conduct_moveRobot `{Platform} fin fuel : conduct fin (moveRobot fuel).
Proof.
  induction fuel as [|fuel IH]; [apply conduct_hang|].
  cbn [moveRobot].
  apply conduct_bind; [conducts|]. intros lastPosition.
  apply conduct_bind; [conducts|]. intros _.
  apply conduct_bind; [conducts|]. intros pos.
  apply conduct_bind; [apply conduct_updatePosition|]. intros _.
  apply conduct_bind; [conducts|]. intros same.
  destruct same; [exact IH | conducts].
Qed.

Lemma conduct_rotateLeft `{Platform} fin fuel : conduct fin (rotateLeft fuel).
Proof.
  unfold rotateLeft.
  apply conduct_bind; [conducts|]. intros _.
  apply conduct_bind; [conducts|]. intros pos.
  apply conduct_bind; [apply conduct_updatePosition|]. intros _.
  apply conduct_bind; [conducts|]. intros d.
  destruct d; conducts.
Qed.

Lemma conduct_rotateRight `{Platform} fin fuel : conduct fin (rotateRight fuel).
Proof.
  unfold rotateRight.
  apply conduct_bind; [conducts|]. intros _.
  apply conduct_bind; [conducts|]. intros pos.
  apply conduct_bind; [apply conduct_updatePosition|]. intros _.
  apply conduct_bind; [conducts|]. intros d.
  destruct d; conducts.
Qed.

Lemma conduct_rotateTo `{Platform} fin fuel to : conduct fin (rotateTo fuel to).
Proof.
  induction fuel as [|fuel IH]; [apply conduct_hang|].
  cbn [rotateTo]. apply conduct_bind; [conducts|]. intros d.
  destruct (Direction_eq_dec d to); [conducts|].
  apply conduct_bind; [|intros _; exact IH].
  destruct (0 <? int (Direction_value to - Direction_value d));
    [apply conduct_rotateRight | apply conduct_rotateLeft].
Qed.

Lemma conduct_updateDirection `{Platform} fin p q : conduct fin (updateDirection p q).
Proof.
  unfold updateDirection.
  destruct (x p =? x q); [destruct (y p <? y q); conducts|].
  destruct (y p =? y q); [destruct (x p <? x q); conducts|].
  apply conduct_throw. right. now right.
Qed.

Lemma conduct_getDirection `{Platform} fin fuel : conduct fin (getDirection fuel).
Proof.
  unfold getDirection.
  apply conduct_bind; [conducts|]. intros lastPosition.
  apply conduct_bind; [apply conduct_moveRobot|]. intros _.
  apply conduct_bind; [conducts|]. intros newPosition.
  apply conduct_updateDirection.
Qed.

Lemma conduct_navigate `{Platform} fin fuel target : conduct fin (navigate fuel target).
Proof.
  unfold navigate. apply conduct_bind; [conducts|]. intros p.
  pose proof (conduct_moveRobot fin fuel).
  repeat match goal with |- context [if ?b then _ else _] => destruct b end;
    (apply conduct_bind; [apply conduct_rotateTo | intros _; assumption]).
Qed.

Lemma conduct_pickSecretMsg `{Platform} fin fuel : conduct fin (pickSecretMsg fuel).
Proof.
  unfold pickSecretMsg.
  apply conduct_bind; [conducts|]. intros _.
  apply conduct_bind; [conducts|]. intros secretMsg.
  conducts.
Qed.

Lemma conduct_approach `{Platform} fin fuel target : conduct fin (approach fuel target).
Proof.
  induction fuel as [|fuel IH]; [apply conduct_hang|].
  cbn [approach]. apply conduct_bind; [conducts|]. intros there.
  destruct there; [conducts|].
  apply conduct_bind; [apply conduct_navigate | intros _; exact IH].
Qed.

Lemma conduct_sweep `{Platform} fin fuel : conduct fin (sweep fuel).
Proof.
  induction fuel as [|fuel IH]; [apply conduct_hang|].
  cbn [sweep]. apply conduct_bind; [apply conduct_pickSecretMsg|]. intros found.
  destruct found; [conducts|].
  apply conduct_bind; [conducts|]. intros p.
  apply conduct_bind; [apply conduct_navigate | intros _; exact IH].
Qed.

Lemma conduct_session `{Platform} fuel : conduct [SERVER_LOGOUT] (session fuel).
Proof.
  unfold session.
  apply conduct_bind; [apply conduct_authenticate|]. intros _.
  apply conduct_bind; [apply conduct_moveRobot|]. intros _.
  apply conduct_bind; [conducts|]. intros there.
  apply conduct_bind.
  - destruct (negb there); [|conducts].
    apply conduct_bind; [apply conduct_getDirection | intros _; apply conduct_approach].
  - intros _. apply conduct_bind; [apply conduct_sweep|]. intros _.
    apply conduct_last. now left.
Qed.

(** X16. The exceptions that leave the handler. Whatever the client sends,
    an exception that [handleClientConnection] lets through is the
    [std::invalid_argument] of [std::stoi] or the [std::logic_error] of
    [updateDirection]; it is never a [std::out_of_range], because only
    confirmations of at most five digits reach [std::stoi]. The client has
    been sent no error message then: all that was written are whole frames
    of commands, 200 OK and the hash. *)
Theorem handleClientConnection_escapes `{Platform} (fuel : nat) (c c' : ClientController)
    (e : exn) :
  handleClientConnection fuel c = (Throw e, c') ->
  escapes e
  /\ exists body, sock_out c' = sock_out c ++ concat (map wire body)
                  /\ Forall ordinary body.
Proof.
  unfold handleClientConnection.
  destruct (session fuel c) as [[[]| e0 |] c1] eqn:Hs; try discriminate.
  destruct (conduct_session fuel c _ c1 Hs) as (body & tail & Hout & Hbody & Htail).
  intros Hrun.
  assert (Hnot : ~ caught e0) by (intros [what ->]; discriminate Hrun).
  assert (He : e0 = e /\ c1 = c') by (destruct e0; now inversion Hrun).
  destruct He as [<- <-].
  destruct Htail as [[-> [Hc | He]] | (msg & _ & _ & Hc)]; try contradiction.
  split; [exact He|]. exists body. rewrite app_nil_r in Hout. now split.
Qed.

Lemma handleClientConnection_escapes_witness :
  let c := accepted (frames ["Ab"; ""]%string) None in
  let c' := snd (@handleClientConnection x86_64_linux 1 c) in
  escapes (invalid_argument "stoi")
  /\ exists body, sock_out c' = sock_out c ++ concat (map wire body)
                  /\ Forall (@ordinary x86_64_linux) body.
Proof.
  intros c c'.
  apply (@handleClientConnection_escapes x86_64_linux 1 c c' (invalid_argument "stoi")).
  reflexivity.
Defined.

(** X17. What the server writes. Whatever the client sends and however
    many sends succeed, [handleClientConnection] writes whole frames only:
    commands, 200 OK and the hash, and then at most one more message, which
    is an error message (300, 301 or 302) or 106 LOGOUT. Nothing is written
    after an error message or after 106 LOGOUT, and the handler returns
    normally when one of them was written. *)
Theorem handleClientConnection_writes `{Platform} (fuel : nat) (c : ClientController) :
  exists body tail,
    sock_out (snd (handleClientConnection fuel c))
    = sock_out c ++ concat (map wire (body ++ tail))
    /\ Forall ordinary body
    /\ (tail = []
        \/ exists msg, tail = [msg]
                       /\ (msg = SERVER_LOGOUT \/ error_message msg)
                       /\ fst (handleClientConnection fuel c) = Ret tt).
Proof.
  unfold handleClientConnection.
  destruct (session fuel c) as [r c1] eqn:Hs.
  destruct (conduct_session fuel c _ c1 Hs) as (body & tail & Hout & Hbody & Htail).
  exists body, tail.
  destruct r as [[]| e |]; [ | destruct e | ]; cbn [fst snd];
    (split; [exact Hout|]); (split; [exact Hbody|]).
  - destruct Htail as [-> | (msg & [<- | []] & ->)]; [now left|].
    right. exists SERVER_LOGOUT. repeat split. now left.
  - destruct Htail as [[-> _] | (msg & -> & Hmsg & _)]; [now left|].
    right. exists msg. repeat split. now right.
  - destruct Htail as [[-> _] | (msg & _ & _ & [w Hc])]; [now left|discriminate].
  - destruct Htail as [[-> _] | (msg & _ & _ & [w Hc])]; [now left|discriminate].
  - destruct Htail as [[-> _] | (msg & _ & _ & [w Hc])]; [now left|discriminate].
  - now left.
Qed.

(** ** The plan of the sweep *)

Lemma rem_2_odd z : 0 <= z -> (Z.rem z 2 =? 0) = negb (Z.odd z).
Proof.
  intros Hz. rewrite Z.rem_mod_nonneg by lia. rewrite Zmod_odd.
  now destruct (Z.odd z).
Qed.

(** X18. The sweep goes on step by step, without an end. On the cell of
    any step [k] of the serpentine plan, from 0 up to the range of [int],
    the body of the sweep loop computes the cell of step [k + 1]: the plan
    is followed beyond the 25 cells of the patch, row after row downwards. *)
Theorem next_target_cell_of_step (k : Z) :
  0 <= k < INT_MAX - 5 ->
  next_target (cell_of_step k) = cell_of_step (k + 1).
Proof.
  intros Hk. unfold INT_MAX in Hk.
  pose proof (Z.div_mod k 5 ltac:(lia)) as Hdm.
  pose proof (Z.mod_pos_bound k 5 ltac:(lia)) as Hm.
  pose proof (Z.div_pos k 5 ltac:(lia) ltac:(lia)) as Hrow.
  set (row := k / 5) in *. set (m := k mod 5) in *.
  unfold cell_of_step. fold row m. unfold next_target. cbn [x y].
  unfold TARGET_X, TARGET_Y.
  set (col := if Z.odd row then 4 - m else m).
  assert (Hcol : 0 <= col < 5) by (subst col; destruct (Z.odd row); lia).
  replace (-2 + col - -2) with col by lia.
  replace (2 - row - 2) with (- row) by lia.
  rewrite (int_small col) by (unfold INT_MAX; lia).
  rewrite (Z.rem_small col 5) by lia.
  rewrite (int_small (- row)) by (unfold INT_MAX; lia).
  replace (- row * -1) with row by lia.
  rewrite (int_small row) by (unfold INT_MAX; lia).
  rewrite (int_small (row * 5)) by (unfold INT_MAX; lia).
  rewrite (rem_2_odd row) by lia.
  assert (Hstep : (if negb (Z.odd row) then col else int (4 - col)) = m).
  { subst col. destruct (Z.odd row); cbn [negb];
      [rewrite int_small by (unfold INT_MAX; lia)|]; lia. }
  rewrite Hstep.
  rewrite (int_small (row * 5 + m)) by (unfold INT_MAX; lia).
  replace (row * 5 + m) with k by lia.
  rewrite (int_small (k + 1)) by (unfold INT_MAX; lia).
  pose proof (Z.mod_pos_bound (k + 1) 5 ltac:(lia)) as Hm'.
  pose proof (Z.div_pos (k + 1) 5 ltac:(lia) ltac:(lia)) as Hrow'.
  assert (Hle : (k + 1) / 5 <= k + 1) by (apply Z.div_le_upper_bound; lia).
  rewrite (Z.quot_div_nonneg (k + 1) 5), (Z.rem_mod_nonneg (k + 1) 5) by lia.
  rewrite (rem_2_odd ((k + 1) / 5)) by lia.
  f_equal.
  - destruct (Z.odd ((k + 1) / 5)); cbn [negb];
      rewrite ?(int_small (4 - (k + 1) mod 5)) by (unfold INT_MAX; lia);
      rewrite int_small by (unfold INT_MAX; lia); lia.
  - rewrite int_small by (unfold INT_MAX; lia). reflexivity.
Qed.

Lemma next_target_cell_of_step_witness :
  next_target (cell_of_step 1000004) = cell_of_step (1000004 + 1).
Proof. apply next_target_cell_of_step. unfold INT_MAX. lia. Defined.

(** ** The end of a session *)

(** X19. The nested calls of a session are bounded by its reads. Every
    nested call and every loop round of the controller takes at least one
    read from the socket. So when the client sends finitely many bytes and
    then falls silent, every send succeeds, and the run may nest deeper
    than there are reads to come (in the program: the call stack holds that
    many nested calls), [handleClientConnection] neither blocks nor uses
    the nested calls up: it returns, or lets through one of the two
    exceptions that it does not catch. *)
Theorem handleClientConnection_terminates `{Platform} (fuel : nat) (c : ClientController) :
  send_budget c = None ->
  (length (sock_in c) < fuel)%nat ->
  fst (handleClientConnection fuel c) = Ret tt
  \/ exists e, fst (handleClientConnection fuel c) = Throw e /\ escapes e.
Proof.
  intros _ Hf. pose proof (drops_session fuel c Hf) as Hd.
  unfold drops in Hd. unfold handleClientConnection.
  destruct (session fuel c) as [[[]| e |] c1] eqn:Hs; [now left | | destruct Hd].
  destruct (conduct_session fuel c _ c1 Hs) as (body & tail & _ & _ & Htail).
  destruct e; try (now left); right; eexists; (split; [reflexivity|]);
    destruct Htail as [[_ [[w Hc] | He]] | (msg & _ & _ & [w Hc])];
    try discriminate; exact He.
Qed.

Lemma handleClientConnection_terminates_witness :
  let c := accepted (frames ["Ab"; "11720"; "OK -2 2"; "secret"]%string) None in
  fst (@handleClientConnection x86_64_linux 40 c) = Ret tt
  \/ exists e, fst (@handleClientConnection x86_64_linux 40 c) = Throw e /\ escapes e.
Proof.
  intros c. apply (@handleClientConnection_terminates x86_64_linux 40 c).
  - reflexivity.
  - vm_compute. lia.
Defined.

(** ** Reaching the target *)



(** ** Confirmations that are refused *)

(** X21. A confirmation of more than five characters, or with a character
    that is no digit, is refused for its form, whatever its value. After a
    user name that is accepted, the server sends its hash, answers such a
    confirmation with 301 SYNTAX ERROR, not 300 LOGIN FAILED, and the
    handler returns, leaving the rest of the input unread. This holds also
    for a confirmation whose value is the expected one, such as the
    expected digits after a plus sign. *)
Theorem confirm_refuses `{Platform} (fuel : nat) (d : Z) (u s : list ascii)
    (rest : list event) (c : ClientController) :
  sock_in c = arriving d (wire u) ++ arriving d (wire s) ++ rest ->
  d < TIMEOUT ->
  send_budget c = None ->
  has_terminator u = false ->
  (length u <= 10)%nat ->
  u <> CLIENT_RECHARGING ->
  has_terminator s = false ->
  (length s <= 10)%nat ->
  s <> CLIENT_RECHARGING ->
  (5 < length s)%nat \/ ~ all_digits s ->
  handleClientConnection (S fuel) c
  = (Ret tt,
     sent (wire (to_string (computeHash SERVER_KEY u)) ++ wire SERVER_SYNTAX_ERROR) None
       (with_in rest (with_rcvtimeo TIMEOUT c))).
Proof.
  intros Hin Hd Hb Hu Hlenu Hneu Hs Hlens Hnes Hbad.
  unfold handleClientConnection, session. unfold bind at 1.
  rewrite (authenticate_username (S fuel) u c
             (with_in (arriving d (wire s) ++ rest) (with_rcvtimeo TIMEOUT c))).
  - unfold bind at 1. rewrite sendResponse_reliable by exact Hb.
    rewrite (confirm_malformed fuel d u s rest) by (assumption || reflexivity).
    unfold sent, with_in, with_rcvtimeo. cbn. now rewrite <- app_assoc.
  - apply (readMsg_frame fuel CLIENT_USERNAME_LENGTH d); try assumption.
    unfold CLIENT_USERNAME_LENGTH, INT_MAX. lia.
Qed.

Lemma confirm_refuses_witness :
  let c := accepted (frames ["Ab"; "+11720"; "OK 0 0"]%string) None in
  @handleClientConnection x86_64_linux 1 c
  = (Ret tt,
     sent (wire (to_string (@computeHash x86_64_linux SERVER_KEY (str "Ab")))
           ++ wire SERVER_SYNTAX_ERROR) None
       (with_in (frames ["OK 0 0"%string]) (with_rcvtimeo TIMEOUT c))).
Proof.
  intros c.
  apply (@confirm_refuses x86_64_linux 0%nat 0 (str "Ab") (str "+11720")
           (frames ["OK 0 0"%string]) c).
  - reflexivity.
  - reflexivity.
  - reflexivity.
  - reflexivity.
  - cbn. lia.
  - discriminate.
  - reflexivity.
  - cbn. lia.
  - discriminate.
  - left. cbn. lia.
Defined.

(** ** Rotation with an unknown heading, turn by turn *)





